(** * NTSB proxy: the case pipeline, the upstream streaming client, the
      routes and the rate limiter

    A shallow embedding of
      - [app/server/services/data_processor.py] (class [DataProcessor]:
        [extract_json_from_zip], [filter_cases], [sort_cases], [paginate],
        [generate_stats]),
      - [app/server/services/ntsb_client.py] ([_stream_file_export], the
        date-range and month streams and the two placeholder lookups),
      - [app/server/routes/data.py] (the three JSON routes), and
      - [app/server/main.py] ([rate_limit_middleware]),
    followed by the properties of these functions.

    Python values decoded from JSON are the inductive type [json]; a Python
    exception is the [Raise] branch of [result].  Async generators are
    described by the trace of what they do when they are drained.  The
    built-ins follow CPython 3.11: [int] on a [str], [==] and [<] on decoded
    values with the floats that are not finite, [datetime.date], and the
    arithmetic of doubles on clock readings. *)

From Stdlib Require Import List ZArith QArith Bool Ascii String Lia Permutation.
Import ListNotations.

Set Warnings "-register-all".

Local Open Scope string_scope.
Local Open Scope list_scope.
Local Open Scope Z_scope.

(* ================================================================== *)
(** ** Python values, exceptions *)
(* ================================================================== *)

Module Py.

(** The exceptions that the modelled code can meet. [HTTPStatusError]
    carries [exc.response.status_code]; [OtherError] stands for any
    exception class that no [except] clause of the modelled code names. *)
Inductive exception : Type :=
| ValueError
| TypeError
| IndexError
| AttributeError
| NotImplementedError (msg : string)
| ConnectError
| ReadTimeout
| RemoteProtocolError
| HTTPStatusError (status : Z)
| OtherError (name : string).

(** [OverflowError] is one of the classes that no [except] clause names. *)
Definition OverflowError : exception := OtherError "OverflowError".

Inductive result (A : Type) : Type :=
| Ok (a : A)
| Raise (e : exception).
Arguments Ok {A} a.
Arguments Raise {A} e.

Definition bind {A B : Type} (r : result A) (k : A -> result B) : result B :=
  match r with
  | Ok a => k a
  | Raise e => Raise e
  end.

Declare Scope py_scope.
Delimit Scope py_scope with py.
Notation "x <- r ;; k" := (bind r (fun x => k))
  (at level 61, r at next level, right associativity) : py_scope.
Local Open Scope py_scope.

(** The floats that are no rational number.  [json.loads] yields them for
    the literals [Infinity], [-Infinity] and [NaN], and for a number too
    large for a double.  A NaN is [==] to nothing, itself included, but
    containers and [in] also take an item for equal when it is the very
    same object; [NaN obj] is the NaN object number [obj], so that two NaNs
    are the same object when their numbers are equal.  [json.loads] returns
    the one object [json.decoder.NaN] for every [NaN] of a document. *)
Inductive nonfinite : Type :=
| PosInf
| NegInf
| NaN (obj : nat).

(** What [json.loads] produces.  [JNum] is a finite number, held as the
    exact rational it denotes: this covers every Python [int] and every
    finite [float], which Python compares with each other by exact value
    ([1 == 1.0]); [JNonFinite] is one of the other floats.  A [str] is its
    UTF-8 byte string, on which bytewise order coincides with Python's code
    point order.  A [dict] is the list of its items in insertion order. *)
Inductive json : Type :=
| JNull
| JBool (b : bool)
| JNum (q : Q)
| JStr (s : string)
| JList (l : list json)
| JDict (d : list (string * json))
| JNonFinite (x : nonfinite).

(** A JSON integer. *)
Definition JInt (z : Z) : json := JNum (inject_Z z).

(** [bool] is a subclass of [int]: [True] is 1 and [False] is 0. *)
Definition bool_num (b : bool) : Q := if b then inject_Z 1 else inject_Z 0.

Definition Qlt_bool (p q : Q) : bool := negb (Qle_bool q p).

(** [==] and [<] between floats that are not finite, and between them and
    the finite numbers. *)
Definition nonfinite_eq (x y : nonfinite) : bool :=
  match x, y with
  | PosInf, PosInf | NegInf, NegInf => true
  | _, _ => false
  end.

Definition nonfinite_lt (x y : nonfinite) : bool :=
  match x, y with
  | NegInf, PosInf => true
  | _, _ => false
  end.

Definition finite_lt_nonfinite (y : nonfinite) : bool :=
  match y with PosInf => true | _ => false end.

Definition nonfinite_lt_finite (x : nonfinite) : bool :=
  match x with NegInf => true | _ => false end.

(** [a is b], where it can make a difference: every value but a NaN is
    [==] to itself. *)
Definition same_nan (a b : json) : bool :=
  match a, b with
  | JNonFinite (NaN i), JNonFinite (NaN j) => Nat.eqb i j
  | _, _ => false
  end.

(** [k in d] and [d.get(k)] on a dict. *)
Fixpoint dict_lookup (d : list (string * json)) (k : string) : option json :=
  match d with
  | [] => None
  | (k', v) :: d' => if String.eqb k' k then Some v else dict_lookup d' k
  end.

Definition dict_contains (d : list (string * json)) (k : string) : bool :=
  match dict_lookup d k with Some _ => true | None => false end.

Definition dict_get (d : list (string * json)) (k : string) : json :=
  match dict_lookup d k with Some v => v | None => JNull end.

(** Python's [a == b] on decoded JSON.  Numbers and bools compare by value,
    lists elementwise, dicts as mappings (item order is irrelevant), and
    values of unrelated types are unequal.  Lists and dicts take two items
    for equal when they are the same object or [==].  It never raises. *)
Fixpoint py_eq (a b : json) {struct a} : bool :=
  match a, b with
  | JNull, JNull => true
  | JBool x, JBool y => Bool.eqb x y
  | JBool x, JNum q => Qeq_bool (bool_num x) q
  | JNum p, JBool y => Qeq_bool p (bool_num y)
  | JNum p, JNum q => Qeq_bool p q
  | JNonFinite x, JNonFinite y => nonfinite_eq x y
  | JStr s, JStr t => String.eqb s t
  | JList l, JList m =>
      (fix all2 (l m : list json) {struct l} : bool :=
         match l, m with
         | [], [] => true
         | x :: l', y :: m' => (same_nan x y || py_eq x y) && all2 l' m'
         | _, _ => false
         end) l m
  | JDict d, JDict e =>
      Nat.eqb (List.length d) (List.length e) &&
      (fix items (d : list (string * json)) {struct d} : bool :=
         match d with
         | [] => true
         | (k, v) :: d' =>
             match dict_lookup e k with
             | Some w => same_nan v w || py_eq v w
             | None => false
             end && items d'
         end) d
  | _, _ => false
  end.

(** [a is b or a == b], the test that [in], dict lookup and the comparison
    of tuples and lists apply to two items. *)
Definition py_is_or_eq (a b : json) : bool := same_nan a b || py_eq a b.

(** Python's [a < b].  Numbers (and bools) are ordered by value, with NaN
    neither below nor above anything; strings lexicographically; lists
    lexicographically on the first pair of items that are neither the same
    object nor [==]; every other pairing raises [TypeError]. *)
Fixpoint py_lt (a b : json) {struct a} : result bool :=
  match a, b with
  | JBool x, JBool y => Ok (Qlt_bool (bool_num x) (bool_num y))
  | JBool x, JNum q => Ok (Qlt_bool (bool_num x) q)
  | JNum p, JBool y => Ok (Qlt_bool p (bool_num y))
  | JNum p, JNum q => Ok (Qlt_bool p q)
  | JBool _, JNonFinite y => Ok (finite_lt_nonfinite y)
  | JNum _, JNonFinite y => Ok (finite_lt_nonfinite y)
  | JNonFinite x, JBool _ => Ok (nonfinite_lt_finite x)
  | JNonFinite x, JNum _ => Ok (nonfinite_lt_finite x)
  | JNonFinite x, JNonFinite y => Ok (nonfinite_lt x y)
  | JStr s, JStr t => Ok (String.ltb s t)
  | JList l, JList m =>
      (fix lex (l m : list json) {struct l} : result bool :=
         match l, m with
         | [], [] => Ok false
         | [], _ :: _ => Ok true
         | _ :: _, [] => Ok false
         | x :: l', y :: m' =>
             if same_nan x y || py_eq x y then lex l' m' else py_lt x y
         end) l m
  | _, _ => Raise TypeError
  end.

(** Truth value of a decoded JSON value, as [or] and [not] test it. *)
Definition py_truthy (v : json) : bool :=
  match v with
  | JNull => false
  | JBool b => b
  | JNum q => negb (Qeq_bool q (inject_Z 0))
  | JStr s => negb (String.eqb s EmptyString)
  | JList l => match l with [] => false | _ => true end
  | JDict d => match d with [] => false | _ => true end
  | JNonFinite _ => true
  end.

(** [a or b] *)
Definition py_or (a b : json) : json := if py_truthy a then a else b.

(** *** [int(...)] *)

(** [int] reads the code points of a [str], which is held here as its
    UTF-8 bytes.  A byte that starts no well-formed sequence gives U+FFFD,
    which is neither a digit nor a blank. *)
Definition continuation (n : N) : bool := ((128 <=? n) && (n <? 192))%N.

Definition undecodable : N := 0xfffd%N.

Fixpoint code_points (s : string) : list N :=
  match s with
  | EmptyString => []
  | String b0 s0 =>
      let n0 := N_of_ascii b0 in
      if (n0 <? 128)%N then n0 :: code_points s0
      else
        match s0 with
        | EmptyString => [undecodable]
        | String b1 s1 =>
            let n1 := N_of_ascii b1 in
            if ((194 <=? n0) && (n0 <? 224))%N && continuation n1
            then ((n0 - 192) * 64 + (n1 - 128))%N :: code_points s1
            else
              match s1 with
              | EmptyString => undecodable :: code_points s0
              | String b2 s2 =>
                  let n2 := N_of_ascii b2 in
                  let c3 := (((n0 - 224) * 64 + (n1 - 128)) * 64 + (n2 - 128))%N in
                  if ((224 <=? n0) && (n0 <? 240))%N
                     && continuation n1 && continuation n2 && (0x800 <=? c3)%N
                  then c3 :: code_points s2
                  else
                    match s2 with
                    | EmptyString => undecodable :: code_points s0
                    | String b3 s3 =>
                        let n3 := N_of_ascii b3 in
                        let c4 :=
                          ((((n0 - 240) * 64 + (n1 - 128)) * 64 + (n2 - 128)) * 64
                           + (n3 - 128))%N in
                        if ((240 <=? n0) && (n0 <? 245))%N
                           && continuation n1 && continuation n2 && continuation n3
                           && ((0x10000 <=? c4) && (c4 <=? 0x10ffff))%N
                        then c4 :: code_points s3
                        else undecodable :: code_points s0
                    end
              end
        end
  end.

(** [Py_UNICODE_ISSPACE] beyond ASCII. *)
Definition is_unicode_space (n : N) : bool :=
  ((n =? 0x85) || (n =? 0xa0) || (n =? 0x1680)
   || ((0x2000 <=? n) && (n <=? 0x200a))
   || (n =? 0x2028) || (n =? 0x2029) || (n =? 0x202f) || (n =? 0x205f)
   || (n =? 0x3000))%N.

(** The code points of the digit zero of every script, Unicode 14.0 (the
    table of CPython 3.11); the nine code points after each are the digits
    one to nine of the script. *)
Definition decimal_zeros : list N :=
  [0x30; 0x660; 0x6f0; 0x7c0; 0x966; 0x9e6; 0xa66; 0xae6;
   0xb66; 0xbe6; 0xc66; 0xce6; 0xd66; 0xde6; 0xe50; 0xed0;
   0xf20; 0x1040; 0x1090; 0x17e0; 0x1810; 0x1946; 0x19d0; 0x1a80;
   0x1a90; 0x1b50; 0x1bb0; 0x1c40; 0x1c50; 0xa620; 0xa8d0; 0xa900;
   0xa9d0; 0xa9f0; 0xaa50; 0xabf0; 0xff10; 0x104a0; 0x10d30; 0x11066;
   0x110f0; 0x11136; 0x111d0; 0x112f0; 0x11450; 0x114d0; 0x11650; 0x116c0;
   0x11730; 0x118e0; 0x11950; 0x11c50; 0x11d50; 0x11da0; 0x16a60; 0x16ac0;
   0x16b50; 0x1d7ce; 0x1d7d8; 0x1d7e2; 0x1d7ec; 0x1d7f6; 0x1e140; 0x1e2f0;
   0x1e950; 0x1fbf0]%N.

(** [Py_UNICODE_TODECIMAL] *)
Definition to_decimal (n : N) : option N :=
  option_map (fun zero => (n - zero)%N)
    (find (fun zero => ((zero <=? n) && (n <? zero + 10))%N) decimal_zeros).

(** [_PyUnicode_TransformDecimalAndSpaceToASCII]: a blank becomes a space,
    a decimal digit of any script its ASCII digit, and the first code point
    that is neither ends the string with a question mark. *)
Fixpoint to_ascii (cps : list N) : string :=
  match cps with
  | [] => EmptyString
  | n :: rest =>
      if (n <? 127)%N then String (ascii_of_N n) (to_ascii rest)
      else if is_unicode_space n then String " "%char (to_ascii rest)
      else match to_decimal n with
           | Some d => String (ascii_of_N (48 + d)) (to_ascii rest)
           | None => String "?"%char EmptyString
           end
  end.

(** [Py_ISSPACE]: tab, line feed, vertical tab, form feed, carriage return
    and space. *)
Definition is_space (c : ascii) : bool :=
  let n := nat_of_ascii c in
  ((9 <=? n)%nat && (n <=? 13)%nat) || (n =? 32)%nat.

Definition is_digit (c : ascii) : bool :=
  let n := nat_of_ascii c in (48 <=? n)%nat && (n <=? 57)%nat.

Definition digit_value (c : ascii) : Z := Z.of_nat (nat_of_ascii c) - 48.

Fixpoint skip_spaces (s : string) : string :=
  match s with
  | String c s' => if is_space c then skip_spaces s' else s
  | EmptyString => EmptyString
  end.

(** The scan of the digits at the head of [s], where one underscore may
    stand between two digits: their value, their number, and what follows
    them.  [None] when an underscore is doubled or comes last. *)
Fixpoint scan_digits (s : string) (acc count : Z) (after_underscore : bool)
    : option (Z * Z * string) :=
  match s with
  | String c s' =>
      if is_digit c then scan_digits s' (10 * acc + digit_value c) (count + 1) false
      else if Ascii.eqb c "_"%char
           then (if after_underscore then None else scan_digits s' acc count true)
           else (if after_underscore then None else Some (acc, count, s))
  | EmptyString => if after_underscore then None else Some (acc, count, s)
  end.

(** [sys.int_info.default_max_str_digits] *)
Definition MAX_STR_DIGITS : Z := 4300.

(** [PyLong_FromString] in base 10: blanks, an optional sign, digits that
    do not begin with an underscore and are not more than the interpreter
    allows, blanks, and nothing else. *)
Definition long_from_string (s : string) : result Z :=
  let s1 := skip_spaces s in
  let '(negative, s2) :=
    match s1 with
    | String "+"%char r => (false, r)
    | String "-"%char r => (true, r)
    | _ => (false, s1)
    end in
  match s2 with
  | String "_"%char _ => Raise ValueError
  | _ =>
      match scan_digits s2 0 0 false with
      | None => Raise ValueError
      | Some (value, count, rest) =>
          if MAX_STR_DIGITS <? count then Raise ValueError
          else if count =? 0 then Raise ValueError
          else match skip_spaces rest with
               | EmptyString => Ok (if negative : bool then - value else value)
               | String _ _ => Raise ValueError
               end
      end
  end.

(** [int(s)] for a [str]: [ValueError] unless [s] is a decimal literal. *)
Definition py_int_str (s : string) : result Z :=
  long_from_string (to_ascii (code_points s)).

(** [int(v)]: a [str] is parsed, a finite number is truncated toward zero,
    NaN raises [ValueError] and an infinity [OverflowError]; [None], lists
    and dicts raise [TypeError]. *)
Definition py_int (v : json) : result Z :=
  match v with
  | JBool b => Ok (if b then 1 else 0)
  | JNum q => Ok (Z.quot (Qnum q) (Z.pos (Qden q)))
  | JNonFinite (NaN _) => Raise ValueError
  | JNonFinite _ => Raise OverflowError
  | JStr s => py_int_str s
  | JNull | JList _ | JDict _ => Raise TypeError
  end.

(** *** [str.split("."), str.lower()] *)

(** [s.split(sep)] for a one-character separator: never empty. *)
Fixpoint split (sep : ascii) (s : string) : list string :=
  match s with
  | EmptyString => [EmptyString]
  | String c s' =>
      if Ascii.eqb c sep then EmptyString :: split sep s'
      else match split sep s' with
           | hd :: tl => String c hd :: tl
           | [] => [String c EmptyString]
           end
  end.

Definition lower_char (c : ascii) : ascii :=
  let n := nat_of_ascii c in
  if (65 <=? n)%nat && (n <=? 90)%nat then ascii_of_nat (n + 32) else c.

(** [s.lower()] on the ASCII letters, which is all that a comparison of the
    result with an ASCII literal can depend on. *)
Fixpoint lower (s : string) : string :=
  match s with
  | EmptyString => EmptyString
  | String c s' => String (lower_char c) (lower s')
  end.

(** *** Lists: [l[i]] and [l[start:end]] *)

(** [l[i]]: a negative index counts from the end; out of range raises. *)
Definition list_getitem {A : Type} (l : list A) (i : Z) : result A :=
  let n := Z.of_nat (List.length l) in
  let j := if i <? 0 then i + n else i in
  if (j <? 0) || (n <=? j) then Raise IndexError
  else match nth_error l (Z.to_nat j) with
       | Some x => Ok x
       | None => Raise IndexError
       end.

(** The bound adjustment of a slice with step 1: a negative bound counts
    from the end, and the bound is then clamped into [0, len]. *)
Definition slice_bound (n i : Z) : Z :=
  let j := if i <? 0 then i + n else i in
  if j <? 0 then 0 else if n <? j then n else j.

(** [l[start:stop]] *)
Definition list_slice {A : Type} (l : list A) (start stop : Z) : list A :=
  let n := Z.of_nat (List.length l) in
  let lo := slice_bound n start in
  let hi := slice_bound n stop in
  firstn (Z.to_nat (hi - lo)) (skipn (Z.to_nat lo) l).

End Py.

(* ================================================================== *)
(** ** [app/server/services/data_processor.py] *)
(* ================================================================== *)

Module DataProcessor.
Import Py.
Local Open Scope py_scope.

(** *** [filter_cases] *)

Module FilterCases.

(** The body of [for part in parts] in the [get_nested_value] local to
    [filter_cases], started at [current] with [parts] still to visit. *)
Fixpoint walk (current : json) (parts : list string) : result json :=
  match parts with
  | [] => Ok current
  | part :: rest =>
      match current with
      | JList l =>
          match py_int_str part with
          | Raise ValueError => Ok JNull
          | Raise e => Raise e
          | Ok idx =>
              if (idx <? 0) || (Z.of_nat (List.length l) <=? idx) then Ok JNull
              else item <- list_getitem l idx ;; walk item rest
          end
      | JDict d =>
          if negb (dict_contains d part) then Ok JNull
          else walk (dict_get d part) rest
      | _ => Ok JNull
      end
  end.

Definition get_nested_value (obj : json) (path : string) : result json :=
  walk obj (split "."%char path).

End FilterCases.

(** [actual in value] for a list [value]: some item is the same object as
    [actual] or [==] to it. *)
Definition py_in (actual : json) (value : list json) : bool :=
  existsb (fun item => py_is_or_eq item actual) value.

(** The loop [for key, value in filters.items()]; the result is the final
    value of [match]. *)
Fixpoint matches (case : json) (items : list (string * json)) : result bool :=
  match items with
  | [] => Ok true
  | (key, value) :: rest =>
      match value with
      | JNull => matches case rest
      | JList vs =>
          actual <- FilterCases.get_nested_value case key ;;
          if negb (py_in actual vs) then Ok false else matches case rest
      | _ =>
          actual <- FilterCases.get_nested_value case key ;;
          if negb (py_eq actual value) then Ok false else matches case rest
      end
  end.

(** The loop [for case in cases], with [filtered] as accumulator. *)
Fixpoint filter_loop (cases : list json) (filters : list (string * json))
    (filtered : list json) : result (list json) :=
  match cases with
  | [] => Ok filtered
  | case :: rest =>
      m <- matches case filters ;;
      filter_loop rest filters (if m then filtered ++ [case] else filtered)
  end.

Definition filter_cases (cases : list json) (filters : list (string * json))
    : result (list json) :=
  match filters with
  | [] => Ok cases
  | _ => filter_loop cases filters []
  end.

(** *** [sort_cases] *)

Module SortCases.

(** The loop of the [get_nested_value] local to [sort_cases]: on a dict it
    takes [current.get(part)] without testing membership first. *)
Fixpoint walk (current : json) (parts : list string) : result json :=
  match parts with
  | [] => Ok current
  | part :: rest =>
      match current with
      | JList l =>
          match py_int_str part with
          | Raise ValueError => Ok JNull
          | Raise e => Raise e
          | Ok idx =>
              if (idx <? 0) || (Z.of_nat (List.length l) <=? idx) then Ok JNull
              else item <- list_getitem l idx ;; walk item rest
          end
      | JDict d => walk (dict_get d part) rest
      | _ => Ok JNull
      end
  end.

Definition get_nested_value (obj : json) (path : string) : result json :=
  walk obj (split "."%char path).

End SortCases.

Definition is_none (v : json) : bool :=
  match v with JNull => true | _ => false end.

(** [sort_key]: the pair [(value is None, value)]. *)
Definition sort_key (field : string) (case : json) : result (bool * json) :=
  value <- SortCases.get_nested_value case field ;;
  Ok (is_none value, value).

(** [k1 < k2] on two such pairs: tuples are compared on the first position
    where the items are neither the same object nor [==], and tuples of
    equal length without such a position are not [<]. *)
Definition key_lt (k1 k2 : bool * json) : result bool :=
  let '(n1, v1) := k1 in
  let '(n2, v2) := k2 in
  if negb (Bool.eqb n1 n2) then Ok (negb n1 && n2)
  else if py_is_or_eq v1 v2 then Ok false
  else py_lt v1 v2.

Section Sorted.
Context {K A : Type}.
Variable lt : K -> K -> result bool.

(** Keys are computed once per item, before any comparison. *)
Fixpoint decorate (key : A -> result K) (l : list A) : result (list (K * A)) :=
  match l with
  | [] => Ok []
  | x :: l' => k <- key x ;; r <- decorate key l' ;; Ok ((k, x) :: r)
  end.

(** [x] stood before every item of the sorted [l]: it stays before the
    items that are not [<] it, which is what makes the sort stable. *)
Fixpoint insert (x : K * A) (l : list (K * A)) : result (list (K * A)) :=
  match l with
  | [] => Ok [x]
  | y :: l' =>
      b <- lt (fst y) (fst x) ;;
      if b then (r <- insert x l' ;; Ok (y :: r)) else Ok (x :: y :: l')
  end.

Fixpoint stable_sort (l : list (K * A)) : result (list (K * A)) :=
  match l with
  | [] => Ok []
  | x :: l' => r <- stable_sort l' ;; insert x r
  end.

(** [sorted(l, key=key, reverse=reverse)].  [list.sort] is a stable sort
    that compares keys with [<] only; with [reverse] it reverses the list,
    sorts it, and reverses the result.  Where [<] orders the keys (it is
    irreflexive and transitive, and so is "neither is [<] the other"), every
    stable sort returns the same list, which is the one computed here.  Keys
    that hold a NaN are not ordered by [<]: for them the result is a
    permutation of the input whose order depends on the steps of
    [list.sort], and the order computed here need not be the interpreter's. *)
Definition sorted (l : list A) (key : A -> result K) (reverse : bool)
    : result (list A) :=
  keyed <- decorate key l ;;
  if reverse
  then (r <- stable_sort (rev keyed) ;; Ok (map snd (rev r)))
  else (r <- stable_sort keyed ;; Ok (map snd r)).
End Sorted.

Definition sort_cases (cases : list json) (field : string) (order : string)
    : result (list json) :=
  if String.eqb field EmptyString then Ok cases
  else
    let descending := String.eqb (lower order) "desc" in
    sorted key_lt cases (sort_key field) descending.

(** *** [paginate] *)

Record PaginationResult : Type := {
  items : list json;
  total : Z;
  limit : Z;
  offset : Z
}.

Definition to_dict (self : PaginationResult) : json :=
  JDict [("items", JList (items self));
         ("pagination", JDict [("total", JInt (total self));
                               ("limit", JInt (limit self));
                               ("offset", JInt (offset self))])].

Definition paginate_result (cases : list json) (limit offset : Z)
    : PaginationResult :=
  let total := Z.of_nat (List.length cases) in
  let start := offset in
  let end_ := offset + limit in
  let items := list_slice cases start end_ in
  {| items := items; total := total; limit := limit; offset := offset |}.

Definition paginate (cases : list json) (limit offset : Z) : json :=
  to_dict (paginate_result cases limit offset).

(** *** [generate_stats] *)

(** The dict [totals]: its eight keys are fixed by the literal. *)
Record Totals : Type := {
  accidents : Z;
  fatal_accidents : Z;
  serious_injury_accidents : Z;
  minor_injury_accidents : Z;
  no_injury_accidents : Z;
  fatalities : Z;
  serious_injuries : Z;
  minor_injuries : Z
}.

(** [by_state] and [by_highest_injury]: dicts from a hashable value to a
    count, in insertion order.  A key is found when it is the same object
    as the one looked up, or [==] to it. *)
Definition counter := list (json * Z).

Definition hashable (k : json) : bool :=
  match k with
  | JList _ | JDict _ => false
  | _ => true
  end.

(** [d.get(k, default)] *)
Fixpoint counter_get (d : counter) (k : json) (default : Z) : Z :=
  match d with
  | [] => default
  | (k', n) :: d' => if py_is_or_eq k' k then n else counter_get d' k default
  end.

(** [d[k] = n]: an existing key keeps its place. *)
Fixpoint counter_set (d : counter) (k : json) (n : Z) : counter :=
  match d with
  | [] => [(k, n)]
  | (k', m) :: d' =>
      if py_is_or_eq k' k then (k', n) :: d' else (k', m) :: counter_set d' k n
  end.

(** [d[k] = d.get(k, 0) + 1]; hashing a list or a dict raises. *)
Definition counter_incr (d : counter) (k : json) : result counter :=
  if hashable k then Ok (counter_set d k (counter_get d k 0 + 1))
  else Raise TypeError.

(** [case.get(key)]: only a dict has the method. *)
Definition case_get (case : json) (key : string) : result json :=
  match case with
  | JDict d => Ok (dict_get d key)
  | _ => Raise AttributeError
  end.

(** [int(case.get(key) or 0)] *)
Definition injury_count (case : json) (key : string) : result Z :=
  v <- case_get case key ;;
  py_int (py_or v (JInt 0)).

Record Stats : Type := {
  totals : Totals;
  by_state : counter;
  by_highest_injury : counter
}.

(** One iteration of [for case in cases]. *)
Definition stats_step (st : Stats) (case : json) : result Stats :=
  let t := totals st in
  let n_accidents := accidents t + 1 in
  fatal <- injury_count case "cm_fatalInjuryCount" ;;
  serious <- injury_count case "cm_seriousInjuryCount" ;;
  minor <- injury_count case "cm_minorInjuryCount" ;;
  let n_fatalities := fatalities t + fatal in
  let n_serious_injuries := serious_injuries t + serious in
  let n_minor_injuries := minor_injuries t + minor in
  h <- case_get case "cm_highestInjury" ;;
  let highest := py_or h (JStr "Unknown") in
  bhi <- counter_incr (by_highest_injury st) highest ;;
  let t' :=
    if fatal >? 0 then
      {| accidents := n_accidents;
         fatal_accidents := fatal_accidents t + 1;
         serious_injury_accidents := serious_injury_accidents t;
         minor_injury_accidents := minor_injury_accidents t;
         no_injury_accidents := no_injury_accidents t;
         fatalities := n_fatalities;
         serious_injuries := n_serious_injuries;
         minor_injuries := n_minor_injuries |}
    else if serious >? 0 then
      {| accidents := n_accidents;
         fatal_accidents := fatal_accidents t;
         serious_injury_accidents := serious_injury_accidents t + 1;
         minor_injury_accidents := minor_injury_accidents t;
         no_injury_accidents := no_injury_accidents t;
         fatalities := n_fatalities;
         serious_injuries := n_serious_injuries;
         minor_injuries := n_minor_injuries |}
    else if minor >? 0 then
      {| accidents := n_accidents;
         fatal_accidents := fatal_accidents t;
         serious_injury_accidents := serious_injury_accidents t;
         minor_injury_accidents := minor_injury_accidents t + 1;
         no_injury_accidents := no_injury_accidents t;
         fatalities := n_fatalities;
         serious_injuries := n_serious_injuries;
         minor_injuries := n_minor_injuries |}
    else
      {| accidents := n_accidents;
         fatal_accidents := fatal_accidents t;
         serious_injury_accidents := serious_injury_accidents t;
         minor_injury_accidents := minor_injury_accidents t;
         no_injury_accidents := no_injury_accidents t + 1;
         fatalities := n_fatalities;
         serious_injuries := n_serious_injuries;
         minor_injuries := n_minor_injuries |} in
  s <- case_get case "cm_state" ;;
  let state := py_or s (JStr "Unknown") in
  bs <- counter_incr (by_state st) state ;;
  Ok {| totals := t'; by_state := bs; by_highest_injury := bhi |}.

Fixpoint stats_loop (cases : list json) (st : Stats) : result Stats :=
  match cases with
  | [] => Ok st
  | case :: rest => st' <- stats_step st case ;; stats_loop rest st'
  end.

Definition initial_stats : Stats :=
  {| totals := {| accidents := 0;
                  fatal_accidents := 0;
                  serious_injury_accidents := 0;
                  minor_injury_accidents := 0;
                  no_injury_accidents := 0;
                  fatalities := 0;
                  serious_injuries := 0;
                  minor_injuries := 0 |};
     by_state := [];
     by_highest_injury := [] |}.

Definition generate_stats (cases : list json) : result Stats :=
  stats_loop cases initial_stats.

End DataProcessor.

(* ================================================================== *)
(** ** [app/server/services/ntsb_client.py] *)
(* ================================================================== *)

Module NtsbClient.
Import Py.

Definition MAX_RETRIES : Z := 3.
Definition RETRY_BACKOFF_SECONDS : Q := inject_Z 1.

Definition bytes := list Byte.byte.

(** What one attempt meets, as the body of the [try] sees it.
    [Refused e]: [client.stream(...)] or [response.raise_for_status()] raised
    [e], so no chunk was received.  [Streamed chunks failure]:
    [response.aiter_bytes()] produced [chunks] and then ended ([None]) or
    raised. *)
Inductive attempt_result : Type :=
| Refused (e : exception)
| Streamed (chunks : list bytes) (failure : option exception).

(** The upstream: the fate of the [n]-th request with a given payload. *)
Definition upstream := json -> Z -> attempt_result.

(** What draining the async generator does, in order. *)
Inductive event : Type :=
| Request (payload : json)
| Chunk (data : bytes)
| Sleep (seconds : Q).

(** How the generator ends: [StopAsyncIteration] or an exception. *)
Inductive outcome : Type :=
| Completed
| Raised (e : exception).

Definition trace : Type := list event * outcome.

Definition prepend (evs : list event) (t : trace) : trace :=
  (evs ++ fst t, snd t).

Inductive verdict : Type := Reraise | Backoff.

(** The two [except] clauses, for exception [e] on attempt number
    [attempt]; an exception that neither clause names propagates. *)
Definition handler (e : exception) (attempt : Z) : verdict :=
  match e with
  | ConnectError | ReadTimeout | RemoteProtocolError =>
      if attempt >=? MAX_RETRIES then Reraise else Backoff
  | HTTPStatusError status =>
      if (500 <=? status) && (status <? 600) && (attempt <? MAX_RETRIES)
      then Backoff else Reraise
  | _ => Reraise
  end.

(** The [while True] loop, entered with the current value of [attempt];
    [fuel] bounds the number of iterations. *)
Fixpoint stream_loop (fuel : nat) (up : upstream) (payload : json)
    (attempt : Z) : option trace :=
  match fuel with
  | O => None
  | S fuel' =>
      let attempt := attempt + 1 in
      let fail (received : list bytes) (e : exception) :=
        let seen := Request payload :: map Chunk received in
        match handler e attempt with
        | Reraise => Some (seen, Raised e)
        | Backoff =>
            option_map
              (prepend (seen ++ [Sleep (Qmult RETRY_BACKOFF_SECONDS (inject_Z attempt))]))
              (stream_loop fuel' up payload attempt)
        end in
      match up payload attempt with
      | Streamed chunks None =>
          Some (Request payload :: map Chunk chunks, Completed)
      | Streamed chunks (Some e) => fail chunks e
      | Refused e => fail [] e
      end
  end.

Definition _stream_file_export (fuel : nat) (up : upstream) (payload : json)
    : option trace :=
  stream_loop fuel up payload 0.

(** [stream_ntsb_zip_by_ntsb_number(ntsb_num, mode)]: the call returns the
    generator [_inner()]; this is what draining it does. *)
Definition stream_ntsb_zip_by_ntsb_number (ntsb_num : string) (mode : string)
    : trace :=
  ([], Raised (NotImplementedError
                 "Download by NTSB number is not wired to NTSB yet.")).

(** [stream_ntsb_zip_by_mkey(mkey, mode)], likewise. *)
Definition stream_ntsb_zip_by_mkey (mkey : Z) (mode : string) : trace :=
  ([], Raised (NotImplementedError
                 "Download by mkey is not wired to NTSB yet.")).

(** The chunks that reach the consumer of the generator. *)
Fixpoint delivered (evs : list event) : list bytes :=
  match evs with
  | [] => []
  | Chunk data :: evs' => data :: delivered evs'
  | _ :: evs' => delivered evs'
  end.

(** The number of requests issued. *)
Fixpoint requests (evs : list event) : nat :=
  match evs with
  | [] => O
  | Request _ :: evs' => S (requests evs')
  | _ :: evs' => requests evs'
  end.

(** The pauses taken, in order. *)
Fixpoint sleeps (evs : list event) : list Q :=
  match evs with
  | [] => []
  | Sleep s :: evs' => s :: sleeps evs'
  | _ :: evs' => sleeps evs'
  end.

End NtsbClient.

(* ================================================================== *)
(** ** The specification's own formulations *)
(* ================================================================== *)

Module Spec.
Import Py.

(** Path resolution as section 4.1 words it, with [None] for "absent":
    on a sequence the segment must parse as an integer in [0, len); on a
    mapping it is looked up by exact key; any other value yields absent. *)
Fixpoint resolve_from (current : json) (segments : list string) : option json :=
  match segments with
  | [] => Some current
  | seg :: rest =>
      match current with
      | JList l =>
          match py_int_str seg with
          | Ok i =>
              if (0 <=? i) && (i <? Z.of_nat (List.length l))
              then match nth_error l (Z.to_nat i) with
                   | Some item => resolve_from item rest
                   | None => None
                   end
              else None
          | Raise _ => None
          end
      | JDict d =>
          match dict_lookup d seg with
          | Some v => resolve_from v rest
          | None => None
          end
      | _ => None
      end
  end.

Definition resolve (record : json) (path : string) : option json :=
  resolve_from record (split "."%char path).

(** Callers treat absent as null. *)
Definition absent_as_null (o : option json) : json :=
  match o with Some v => v | None => JNull end.

(** One (path, expected) pair of a filter set, as section 4.4 words it. *)
Definition predicate_matches (record : json) (pred : string * json) : bool :=
  let '(path, expected) := pred in
  let resolved := absent_as_null (resolve record path) in
  match expected with
  | JNull => true
  | JList members => existsb (fun m => py_is_or_eq m resolved) members
  | _ => py_eq resolved expected
  end.

(** A record is retained iff it matches every predicate. *)
Definition retained (filter_set : list (string * json)) (record : json) : bool :=
  forallb (predicate_matches record) filter_set.

Definition filter_spec (records : list json) (filter_set : list (string * json))
    : list json :=
  List.filter (retained filter_set) records.

(** Equality that is sensitive to the type, which is how section 4.4 has
    a resolved value equal an expected one "exactly": two values are equal
    when they are of the same JSON type and hold the same content, so that
    a boolean is never equal to a number. *)
Fixpoint equals_exactly (a b : json) {struct a} : bool :=
  match a, b with
  | JNull, JNull => true
  | JBool x, JBool y => Bool.eqb x y
  | JNum p, JNum q => Qeq_bool p q
  | JNonFinite x, JNonFinite y => nonfinite_eq x y
  | JStr s, JStr t => String.eqb s t
  | JList l, JList m =>
      (fix all2 (l m : list json) {struct l} : bool :=
         match l, m with
         | [], [] => true
         | x :: l', y :: m' => equals_exactly x y && all2 l' m'
         | _, _ => false
         end) l m
  | JDict d, JDict e =>
      Nat.eqb (List.length d) (List.length e) &&
      (fix items (d : list (string * json)) {struct d} : bool :=
         match d with
         | [] => true
         | (k, v) :: d' =>
             match dict_lookup e k with
             | Some w => equals_exactly v w
             | None => false
             end && items d'
         end) d
  | _, _ => false
  end.

(** The predicate, the conjunction and the filter of section 4.4 under
    that equality. *)
Definition predicate_matches_exactly (record : json) (pred : string * json)
    : bool :=
  let '(path, expected) := pred in
  let resolved := absent_as_null (resolve record path) in
  match expected with
  | JNull => true
  | JList members => existsb (fun m => equals_exactly m resolved) members
  | _ => equals_exactly resolved expected
  end.

Definition retained_exactly (filter_set : list (string * json)) (record : json)
    : bool :=
  forallb (predicate_matches_exactly record) filter_set.

Definition filter_exactly (records : list json)
    (filter_set : list (string * json)) : list json :=
  List.filter (retained_exactly filter_set) records.

(** The four accident-severity buckets and the precedence rule of
    section 3: the first count greater than 0 wins. *)
Inductive bucket : Type := Fatal | Serious | Minor | NoInjury.

Definition bucket_eqb (a b : bucket) : bool :=
  match a, b with
  | Fatal, Fatal | Serious, Serious | Minor, Minor | NoInjury, NoInjury => true
  | _, _ => false
  end.

Definition classify (counts : Z * Z * Z) : bucket :=
  let '(fatal, serious, minor) := counts in
  if 0 <? fatal then Fatal
  else if 0 <? serious then Serious
  else if 0 <? minor then Minor
  else NoInjury.

Definition indicator (b : bool) : Z := if b then 1 else 0.

(** How many of the records fall into bucket [b]. *)
Definition in_bucket (b : bucket) (counts : list (Z * Z * Z)) : Z :=
  Z.of_nat (List.length (List.filter (fun c => bucket_eqb (classify c) b) counts)).

(** The integer that a count field stands for.  A field that is missing
    or null counts as 0, and so does every other value that Python takes
    for false (zero, [False], the empty string, an empty list or dict); any
    other value is coerced to an integer, which fails for a value that has
    no integer reading. *)
Definition count_of (fields : list (string * json)) (field : string) : result Z :=
  match dict_lookup fields field with
  | None => Ok 0
  | Some value => if py_truthy value then py_int value else Ok 0
  end.

(** The three injury counts of a record; only a mapping has any. *)
Definition injury_counts (record : json) : result (Z * Z * Z) :=
  match record with
  | JDict fields =>
      bind (count_of fields "cm_fatalInjuryCount") (fun fatal =>
      bind (count_of fields "cm_seriousInjuryCount") (fun serious =>
      bind (count_of fields "cm_minorInjuryCount") (fun minor =>
      Ok (fatal, serious, minor))))
  | _ => Raise AttributeError
  end.

(** The same counts by the very words of section 4.3, "treating missing or
    null as 0, coercing to integer": nothing but a missing or null field is
    read as 0 without coercion. *)
Definition count_as_worded (fields : list (string * json)) (field : string)
    : result Z :=
  match dict_lookup fields field with
  | None => Ok 0
  | Some JNull => Ok 0
  | Some value => py_int value
  end.

Definition counts_as_worded (record : json) : result (Z * Z * Z) :=
  match record with
  | JDict fields =>
      bind (count_as_worded fields "cm_fatalInjuryCount") (fun fatal =>
      bind (count_as_worded fields "cm_seriousInjuryCount") (fun serious =>
      bind (count_as_worded fields "cm_minorInjuryCount") (fun minor =>
      Ok (fatal, serious, minor))))
  | _ => Raise AttributeError
  end.

(** A record shaped as section 3 describes the known fields: a mapping
    whose injury counts are missing, null, booleans or finite numbers and
    whose state and highest-injury fields are missing, null or strings. *)
Definition count_field (v : json) : bool :=
  match v with
  | JNull | JBool _ | JNum _ => true
  | _ => false
  end.

Definition label_field (v : json) : bool :=
  match v with
  | JNull | JStr _ => true
  | _ => false
  end.

Definition known_fields_typed (record : json) : bool :=
  match record with
  | JDict d =>
      count_field (dict_get d "cm_fatalInjuryCount") &&
      count_field (dict_get d "cm_seriousInjuryCount") &&
      count_field (dict_get d "cm_minorInjuryCount") &&
      label_field (dict_get d "cm_highestInjury") &&
      label_field (dict_get d "cm_state")
  | _ => false
  end.

(** Sort null-handling (section 8): every record whose resolved value is
    absent or null stands strictly after every record whose resolved value
    is present. *)
Definition absent_after_present (path : string) (sorted : list json) : Prop :=
  forall i j a p,
    nth_error sorted i = Some a ->
    nth_error sorted j = Some p ->
    absent_as_null (resolve a path) = JNull ->
    absent_as_null (resolve p path) <> JNull ->
    (j < i)%nat.

(** The sort key of a record, as a total function. *)
Definition key_of (field : string) (record : json) : bool * json :=
  let value := absent_as_null (resolve record field) in
  (DataProcessor.is_none value, value).

(** A decorated item carries the key of its record; its flag tells
    whether the resolved value is null. *)
Definition keyed_by (field : string) (x : (bool * json) * json) : Prop :=
  fst x = key_of field (snd x).

Definition flag (x : (bool * json) * json) : bool := fst (fst x).

(** In a list of "is null" flags, nothing but nulls follows a null. *)
Fixpoint nulls_last (flags : list bool) : Prop :=
  match flags with
  | [] => True
  | n :: rest => (n = true -> Forall (eq true) rest) /\ nulls_last rest
  end.

(** Vocabulary for the streaming client. *)
Definition failure (a : NtsbClient.attempt_result) : option exception :=
  match a with
  | NtsbClient.Refused e => Some e
  | NtsbClient.Streamed _ f => f
  end.

Definition received (a : NtsbClient.attempt_result) : list NtsbClient.bytes :=
  match a with
  | NtsbClient.Refused _ => []
  | NtsbClient.Streamed chunks _ => chunks
  end.

(** What one attempt contributes to the trace. *)
Definition seen (payload : json) (a : NtsbClient.attempt_result)
    : list NtsbClient.event :=
  NtsbClient.Request payload :: map NtsbClient.Chunk (received a).

(** Connection failure, read timeout, malformed framing. *)
Definition transient (e : exception) : bool :=
  match e with
  | ConnectError | ReadTimeout | RemoteProtocolError => true
  | _ => false
  end.

(** The results of requests number [k+1], ..., [k+n]. *)
Definition attempts_made (up : NtsbClient.upstream) (payload : json)
    (k : Z) (n : nat) : list NtsbClient.attempt_result :=
  map (fun i => up payload (k + Z.of_nat i)) (seq 1 n).

(** Section 4.2: the caller only sees a fully successful stream, or an
    error before any chunk reaches it. *)
Definition no_partial_delivery (up : NtsbClient.upstream) (payload : json)
    : Prop :=
  forall fuel evs out,
    NtsbClient._stream_file_export fuel up payload = Some (evs, out) ->
    match out with
    | NtsbClient.Completed =>
        exists n, up payload n
                  = NtsbClient.Streamed (NtsbClient.delivered evs) None
    | NtsbClient.Raised _ => NtsbClient.delivered evs = []
    end.

End Spec.

(* ================================================================== *)
(** ** Concrete upstreams used below *)
(* ================================================================== *)

Module Upstreams.
Import Py NtsbClient.

Definition chunk1 : bytes := [Byte.x50; Byte.x4b].
Definition chunk2 : bytes := [Byte.x03; Byte.x04].

(** The first request times out after one chunk of the body; every later
    request delivers the whole body. *)
Definition drops_mid_body : upstream :=
  fun _ n =>
    if n =? 1 then Streamed [chunk1] (Some ReadTimeout)
    else Streamed [chunk1; chunk2] None.

(** Two connection failures, then the whole body. *)
Definition fails_twice : upstream :=
  fun _ n =>
    if n <=? 2 then Refused ConnectError
    else Streamed [chunk1; chunk2] None.

(** Never reachable. *)
Definition always_down : upstream := fun _ _ => Refused ConnectError.

(** Answers 404 to every request. *)
Definition not_found : upstream := fun _ _ => Refused (HTTPStatusError 404).

End Upstreams.

(* ================================================================== *)
(** ** Vocabulary for further properties *)
(* ================================================================== *)

Module Terms.
Import Py.

(** An error status in 500..599. *)
Definition server_error (e : exception) : bool :=
  match e with
  | HTTPStatusError status => (500 <=? status) && (status <? 600)
  | _ => false
  end.

(** An exception that neither [except] clause of [_stream_file_export]
    names. *)
Definition unnamed (e : exception) : bool :=
  match e with
  | ConnectError | ReadTimeout | RemoteProtocolError | HTTPStatusError _ => false
  | _ => true
  end.

(** Pauses of 1, 2, ..., [n] seconds. *)
Definition backoff_schedule (n : nat) : list Q :=
  map (fun i => inject_Z (Z.of_nat i)) (seq 1 n).

(** The trace of requests number [k+1], ..., [k+n], with the pause that
    follows each of them but the last. *)
Fixpoint attempts_trace (up : NtsbClient.upstream) (payload : json) (k : Z)
    (n : nat) : list NtsbClient.event :=
  match n with
  | O => []
  | S m =>
      Spec.seen payload (up payload (k + 1)) ++
      match m with
      | O => []
      | S _ =>
          NtsbClient.Sleep
            (Qmult NtsbClient.RETRY_BACKOFF_SECONDS (inject_Z (k + 1)))
          :: attempts_trace up payload (k + 1) m
      end
  end.

(** The shape of a run of [_stream_file_export] that made the events [evs]
    and ended as [out]: [n] requests with 1 <= n <= 3, the pauses 1, ...,
    n-1 between them, every request before the last failed with an error
    that is retried, and the run ends as the last request ends. *)
Definition export_shape (up : NtsbClient.upstream) (payload : json)
    (evs : list NtsbClient.event) (out : NtsbClient.outcome) : Prop :=
  exists n,
    (1 <= n <= 3)%nat /\
    evs = attempts_trace up payload 0 n /\
    NtsbClient.requests evs = n /\
    NtsbClient.sleeps evs = backoff_schedule (n - 1) /\
    (forall i, (1 <= i < n)%nat ->
               exists e, Spec.failure (up payload (Z.of_nat i)) = Some e /\
                         NtsbClient.handler e (Z.of_nat i) = NtsbClient.Backoff) /\
    match out with
    | NtsbClient.Completed => Spec.failure (up payload (Z.of_nat n)) = None
    | NtsbClient.Raised e =>
        Spec.failure (up payload (Z.of_nat n)) = Some e /\
        NtsbClient.handler e (Z.of_nat n) = NtsbClient.Reraise
    end.

(** The [k]-th page of [limit] records, counting from 0. *)
Definition page (cases : list json) (limit : Z) (k : nat) : list json :=
  DataProcessor.items
    (DataProcessor.paginate_result cases limit (Z.of_nat k * limit)).

(** Sums over the coerced injury counts (fatal, serious, minor) of the
    records. *)
Definition fatal_of (k : Z * Z * Z) : Z := fst (fst k).
Definition serious_of (k : Z * Z * Z) : Z := snd (fst k).
Definition minor_of (k : Z * Z * Z) : Z := snd k.

Definition sum_of (f : Z * Z * Z -> Z) (counts : list (Z * Z * Z)) : Z :=
  fold_right (fun k acc => f k + acc) 0 counts.

(** The totals that a list of coerced injury counts determines. *)
Definition totals_of (counts : list (Z * Z * Z)) : DataProcessor.Totals :=
  {| DataProcessor.accidents := Z.of_nat (List.length counts);
     DataProcessor.fatal_accidents := Spec.in_bucket Spec.Fatal counts;
     DataProcessor.serious_injury_accidents := Spec.in_bucket Spec.Serious counts;
     DataProcessor.minor_injury_accidents := Spec.in_bucket Spec.Minor counts;
     DataProcessor.no_injury_accidents := Spec.in_bucket Spec.NoInjury counts;
     DataProcessor.fatalities := sum_of fatal_of counts;
     DataProcessor.serious_injuries := sum_of serious_of counts;
     DataProcessor.minor_injuries := sum_of minor_of counts |}.

(** The injury counts of a record, with a default where coercion raises. *)
Definition counts_or_zero (record : json) : Z * Z * Z :=
  match Spec.injury_counts record with
  | Ok k => k
  | Raise _ => (0, 0, 0)
  end.

(** [case.get(key) or "Unknown"], the key under which a record is counted
    in [by_state] and [by_highest_injury]. *)
Definition label_of (key : string) (record : json) : json :=
  match record with
  | JDict d => py_or (dict_get d key) (JStr "Unknown")
  | _ => JNull
  end.

(** How many records are counted under the string [s]. *)
Definition labelled (key s : string) (records : list json) : Z :=
  Z.of_nat (List.length
              (List.filter (fun c => py_eq (label_of key c) (JStr s)) records)).

(** The sum of the counts of a counter dict. *)
Definition counter_total (d : DataProcessor.counter) : Z :=
  fold_right (fun kv acc => snd kv + acc) 0 d.

(** Both label fields of a record are missing, null or strings. *)
Definition string_labels (record : json) : bool :=
  match record with
  | JDict d =>
      Spec.label_field (dict_get d "cm_highestInjury") &&
      Spec.label_field (dict_get d "cm_state")
  | _ => false
  end.

(** Every key of a counter dict is a string. *)
Definition string_keys (d : DataProcessor.counter) : Prop :=
  Forall (fun kv => exists s, fst kv = JStr s) d.

End Terms.

(* ================================================================== *)
(** ** The order that [sort_cases] produces *)
(* ================================================================== *)

From Stdlib Require Import Sorted.

Module SortModel.
Import Py.

Section PureSort.
Context {B : Type}.
Variable ltb : B -> B -> bool.

(** Stable insertion with a comparison that cannot raise. *)
Fixpoint ins (x : B) (l : list B) : list B :=
  match l with
  | [] => [x]
  | y :: l' => if ltb y x then y :: ins x l' else x :: y :: l'
  end.

Fixpoint isort (l : list B) : list B :=
  match l with
  | [] => []
  | x :: l' => ins x (isort l')
  end.
End PureSort.

(** The rank of a resolved value as a sort key: a finite number (a bool
    counts as 0 or 1), a string, or nothing. *)
Inductive rank : Type :=
| RNum (q : Q)
| RStr (s : string)
| RNull.

Definition rank_of (v : json) : rank :=
  match v with
  | JNum q => RNum q
  | JBool b => RNum (bool_num b)
  | JStr s => RStr s
  | _ => RNull
  end.

(** Numbers by value, strings by code point, nothing after everything.
    The order between a number and a string is a convention: [sort_cases]
    never compares them without raising. *)
Definition rank_lt (a b : rank) : bool :=
  match a, b with
  | RNum p, RNum q => Qlt_bool p q
  | RStr s, RStr t => String.ltb s t
  | RNum _, RStr _ => true
  | RStr _, RNum _ => false
  | RNull, _ => false
  | _, RNull => true
  end.

Definition is_number (v : json) : bool :=
  match v with
  | JNull | JBool _ | JNum _ => true
  | _ => false
  end.

Definition is_text (v : json) : bool :=
  match v with
  | JNull | JStr _ => true
  | _ => false
  end.

Definition resolved (field : string) (record : json) : json :=
  Spec.absent_as_null (Spec.resolve record field).

(** The field is, in every record, absent, null, a boolean or a finite
    number; or it is, in every record, absent, null or a string.  A NaN or
    an infinity makes a field not uniform. *)
Definition uniform (field : string) (records : list json) : bool :=
  forallb (fun c => is_number (resolved field c)) records
  || forallb (fun c => is_text (resolved field c)) records.

(** The key of [a] is strictly less than the key of [b]. *)
Definition before (field : string) (a b : json) : bool :=
  rank_lt (rank_of (resolved field a)) (rank_of (resolved field b)).

(** The keys of [a] and [b] are equal. *)
Definition same_key (field : string) (a b : json) : bool :=
  negb (before field a b) && negb (before field b a).

(** What [sort_cases] returns for a uniform field. *)
Definition sorted_records (field : string) (descending : bool)
    (records : list json) : list json :=
  if descending then rev (isort (before field) (rev records))
  else isort (before field) records.

End SortModel.

(* ================================================================== *)
(** ** Dates, as [datetime.date] and [calendar] have them *)
(* ================================================================== *)

From Stdlib Require Import DecimalString.

Module Datetime.
Import Py.

Record date : Type := { year : Z; month : Z; day : Z }.

Definition MINYEAR : Z := 1.
Definition MAXYEAR : Z := 9999.

(** [datetime._is_leap] and [datetime._days_in_month] *)
Definition _is_leap (year : Z) : bool :=
  (year mod 4 =? 0) && (negb (year mod 100 =? 0) || (year mod 400 =? 0)).

Definition _DAYS_IN_MONTH : list Z :=
  [-1; 31; 28; 31; 30; 31; 30; 31; 31; 30; 31; 30; 31].

Definition _days_in_month (year month : Z) : Z :=
  if (month =? 2) && _is_leap year then 29
  else nth (Z.to_nat month) _DAYS_IN_MONTH (-1).

(** The three arguments of [date] are converted to C [int]s before they
    are looked at. *)
Definition INT_MIN : Z := - 2 ^ 31.
Definition INT_MAX : Z := 2 ^ 31 - 1.

Definition fits_int (n : Z) : bool := (INT_MIN <=? n) && (n <=? INT_MAX).

(** [date(year, month, day)]: [OverflowError] when an argument is no C
    [int], and [ValueError] unless the three are in range. *)
Definition date_new (year month day : Z) : result date :=
  if negb (fits_int year && fits_int month && fits_int day)
  then Raise OverflowError
  else if negb ((MINYEAR <=? year) && (year <=? MAXYEAR)) then Raise ValueError
  else if negb ((1 <=? month) && (month <=? 12)) then Raise ValueError
  else if negb ((1 <=? day) && (day <=? _days_in_month year month))
       then Raise ValueError
  else Ok {| year := year; month := month; day := day |}.

(** [calendar.isleap], [calendar.mdays] and the second component of
    [calendar.monthrange(year, month)]; [IllegalMonthError] is a
    [ValueError]. *)
Definition isleap (year : Z) : bool :=
  (year mod 4 =? 0) && (negb (year mod 100 =? 0) || (year mod 400 =? 0)).

Definition mdays : list Z := [0; 31; 28; 31; 30; 31; 30; 31; 31; 30; 31; 30; 31].

Definition monthrange_days (year month : Z) : result Z :=
  if negb ((1 <=? month) && (month <=? 12)) then Raise ValueError
  else Ok (nth (Z.to_nat month) mdays 0
           + (if (month =? 2) && isleap year then 1 else 0)).

(** [str(n)] for an integer, and its form padded to two digits. *)
Definition str_int (n : Z) : string := NilZero.string_of_int (Z.to_int n).

Definition pad2 (n : Z) : string :=
  if (0 <=? n) && (n <? 10) then String "0"%char (str_int n) else str_int n.

(** [d.strftime("%Y-%m-%d")].  The year is written as its plain decimal,
    on which all platforms agree from the year 1000 on. *)
Definition strftime_ymd (d : date) : string :=
  String.append (str_int (year d))
    (String "-"%char (String.append (pad2 (month d))
                        (String "-"%char (pad2 (day d))))).

End Datetime.

(* ================================================================== *)
(** ** [ntsb_client.py]: payload and the date-range and month streams *)
(* ================================================================== *)

Module NtsbStreams.
Import Py NtsbClient Datetime.

(** The [selectedOption] block of a rule. *)
Definition selected_option (field_name display_text column input_type : string)
    : json :=
  JDict [("FieldName", JStr field_name);
         ("DisplayText", JStr display_text);
         ("Columns", JList [JStr column]);
         ("Selectable", JBool true);
         ("InputType", JStr input_type);
         ("RuleType", JInt 0);
         ("Options", JNull);
         ("TargetCollection", JStr "cases");
         ("UnderDevelopment", JBool true)].

Definition _build_date_range_payload (start_date end_date : date) (mode : string)
    : json :=
  let start_str := strftime_ymd start_date in
  let end_str := strftime_ymd end_date in
  JDict
    [("QueryGroups",
      JList
        [JDict
           [("QueryRules",
             JList
               [JDict [("RuleType", JStr "Simple");
                       ("Values", JList [JStr start_str]);
                       ("Columns", JList [JStr "Event.EventDate"]);
                       ("Operator", JStr "is on or after");
                       ("overrideColumn", JStr EmptyString);
                       ("selectedOption",
                        selected_option "EventDate" "Event date"
                          "Event.EventDate" "Date")];
                JDict [("RuleType", JStr "Simple");
                       ("Values", JList [JStr end_str]);
                       ("Columns", JList [JStr "Event.EventDate"]);
                       ("Operator", JStr "is on or before");
                       ("selectedOption",
                        selected_option "EventDate" "Event date"
                          "Event.EventDate" "Date");
                       ("overrideColumn", JStr EmptyString)];
                JDict [("RuleType", JStr "Simple");
                       ("Values", JList [JStr mode]);
                       ("Columns", JList [JStr "Event.Mode"]);
                       ("Operator", JStr "is");
                       ("selectedOption",
                        selected_option "Mode" "Investigation mode"
                          "Event.Mode" "Dropdown");
                       ("overrideColumn", JStr EmptyString)]]);
            ("AndOr", JStr "and");
            ("inLastSearch", JBool false);
            ("editedSinceLastSearch", JBool false)]]);
     ("AndOr", JStr "and");
     ("TargetCollection", JStr "cases");
     ("ExportFormat", JStr "data");
     ("SessionId", JInt 227230);
     ("ResultSetSize", JInt 500);
     ("SortDescending", JBool true)].

(** [stream_ntsb_zip_by_date_range]: the generator [_inner()] yields the
    chunks of [_stream_file_export(payload)] one by one. *)
Definition stream_ntsb_zip_by_date_range (fuel : nat) (up : upstream)
    (start_date end_date : date) (mode : string) : option trace :=
  let payload := _build_date_range_payload start_date end_date mode in
  _stream_file_export fuel up payload.

(** [stream_ntsb_zip_by_month]: a plain function, so building the two
    dates can raise before any generator exists. *)
Definition stream_ntsb_zip_by_month (fuel : nat) (up : upstream)
    (year month : Z) (mode : string) : result (option trace) :=
  bind (date_new year month 1) (fun start_date =>
  bind (monthrange_days year month) (fun last_day =>
  bind (date_new year month last_day) (fun end_date =>
  Ok (stream_ntsb_zip_by_date_range fuel up start_date end_date mode)))).

End NtsbStreams.

(* ================================================================== *)
(** ** [models/filters.py]: the query of the case routes *)
(* ================================================================== *)

Module Filters.
Import Py Datetime.

(** [DateRangeFilter], as [get_stats] receives it once validated. *)
Record DateRangeFilter : Type := {
  range_start_date : date;
  range_end_date : date;
  range_mode : string
}.

(** [CaseQuery], as the routes receive it once validated. *)
Record CaseQuery : Type := {
  start_date : date;
  end_date : date;
  mode : string;
  limit : Z;
  offset : Z;
  sort_by : option string;
  order : string
}.

End Filters.

(* ================================================================== *)
(** ** [DataProcessor.extract_json_from_zip] *)
(* ================================================================== *)

Module Extractor.
Import Py NtsbClient.

(** An opened archive: its members in directory order, each with its name
    and with what reading it gives. *)
Definition archive : Type := list (string * result bytes).

(** [name.endswith(suffix)] *)
Definition endswith (name suffix : string) : bool :=
  let n := String.length name in
  let m := String.length suffix in
  if (m <=? n)%nat then String.eqb (substring (n - m) m name) suffix else false.

(** [z.namelist()] *)
Definition namelist (z : archive) : list string := map fst z.

(** The last member that carries [name], if any. *)
Fixpoint last_named (z : archive) (name : string) : option (result bytes) :=
  match z with
  | [] => None
  | (n, content) :: z' =>
      match last_named z' name with
      | Some later => Some later
      | None => if String.eqb n name then Some content else None
      end
  end.

(** [z.read(name)]: a name stands for the last member that carries it. *)
Definition read (z : archive) (name : string) : result bytes :=
  match last_named z name with
  | Some content => content
  | None => Raise (OtherError "KeyError")
  end.

Section Extract.
(** [zipfile.ZipFile(io.BytesIO(zip_bytes))] and [json.loads] *)
Variable open_zip : bytes -> result archive.
Variable loads : bytes -> result json.

(** The body of the [with] block. *)
Definition extract_members (z : archive) : result json :=
  let json_files := List.filter (fun f => endswith f ".json") (namelist z) in
  match json_files with
  | [] => Ok (JList [])
  | json_file :: _ => bind (read z json_file) loads
  end.

Definition extract_json_from_zip (zip_bytes : bytes) : result json :=
  bind (open_zip zip_bytes) extract_members.
End Extract.

End Extractor.

(* ================================================================== *)
(** ** [routes/data.py] *)
(* ================================================================== *)

Module DataRoutes.
Import Py NtsbClient Datetime DataProcessor.

(** What a route hands back to the framework: a value, an
    [HTTPException], or any other exception. *)
Inductive route_result (A : Type) : Type :=
| Responds (a : A)
| HTTPException (status_code : Z) (detail : string)
| Propagates (e : exception).
Arguments Responds {A} a.
Arguments HTTPException {A} status_code detail.
Arguments Propagates {A} e.

Definition and_then {A B : Type} (r : route_result A) (k : A -> route_result B)
    : route_result B :=
  match r with
  | Responds a => k a
  | HTTPException s d => HTTPException s d
  | Propagates e => Propagates e
  end.

(** A call into the processor: its exceptions propagate. *)
Definition call {A : Type} (r : result A) : route_result A :=
  match r with
  | Ok a => Responds a
  | Raise e => Propagates e
  end.

(** [async for chunk in stream: buf.extend(chunk)], then the check of
    [buf]. *)
Definition drain (t : trace) : route_result bytes :=
  let buf := List.concat (delivered (fst t)) in
  match snd t with
  | Raised e => Propagates e
  | Completed =>
      match buf with
      | [] => HTTPException 502 "Empty response from NTSB FileExport service"
      | _ => Responds buf
      end
  end.

Definition _download_zip_bytes (fuel : nat) (up : upstream)
    (start_date end_date : date) (mode : string) : option (route_result bytes) :=
  option_map drain
    (NtsbStreams.stream_ntsb_zip_by_date_range fuel up start_date end_date mode).

(** [PaginationInfo] and [CaseResponse]; the metadata holds the dumped
    query and the stats. *)
Record PaginationInfo : Type := {
  total : Z;
  limit : Z;
  offset : Z
}.

Record CaseResponse (Q : Type) : Type := {
  data : list json;
  pagination : PaginationInfo;
  metadata_query : Q;
  metadata_stats : Stats
}.
Arguments data {Q} c.
Arguments pagination {Q} c.
Arguments metadata_query {Q} c.
Arguments metadata_stats {Q} c.

(** The dict that [get_stats] returns. *)
Record StatsResponse : Type := {
  period_start_date : date;
  period_end_date : date;
  period_mode : string;
  stats : Stats
}.

(** [CaseSearchRequest]: a [CaseQuery] with [filters]. *)
Record CaseSearchRequest : Type := {
  query : Filters.CaseQuery;
  filters : list (string * json)
}.

Definition is_dict (v : json) : bool :=
  match v with JDict _ => true | _ => false end.

(** [CaseResponse(data=..., pagination=..., metadata=...)]: the model
    declares [data: List[Dict[str, Any]]], so an item that is no dict fails
    validation. *)
Definition case_response {Q : Type} (items : list json) (info : PaginationInfo)
    (q : Q) (stats : Stats) : route_result (CaseResponse Q) :=
  if forallb is_dict items
  then Responds {| data := items; pagination := info;
                   metadata_query := q; metadata_stats := stats |}
  else Propagates (OtherError "ValidationError").

(** [if not isinstance(cases, list): raise HTTPException(502, ...)] *)
Definition expect_list (decoded : json) : route_result (list json) :=
  match decoded with
  | JList cases => Responds cases
  | _ => HTTPException 502
           "Unexpected JSON structure from NTSB export (expected a list)"
  end.

(** [if sort_by: cases = await processor.sort_cases(cases, sort_by, order)] *)
Definition sort_if_asked (cases : list json) (sort_by : option string)
    (order : string) : route_result (list json) :=
  match sort_by with
  | Some field =>
      if negb (String.eqb field EmptyString)
      then call (sort_cases cases field order)
      else Responds cases
  | None => Responds cases
  end.

(** Pagination, stats over the whole list, and the response. *)
Definition respond {Q : Type} (cases : list json) (limit offset : Z) (q : Q)
    : route_result (CaseResponse Q) :=
  let paginated := paginate_result cases limit offset in
  let items := DataProcessor.items paginated in
  let pagination_info :=
    {| total := DataProcessor.total paginated;
       limit := DataProcessor.limit paginated;
       offset := DataProcessor.offset paginated |} in
  and_then (call (generate_stats cases)) (fun stats =>
  case_response items pagination_info q stats).

(** The chunks that the upstream sends on its [n]-th answer to the payload
    of a date range. *)
Definition body_of (up : upstream) (start_date end_date : date) (mode : string)
    (n : Z) : list bytes :=
  Spec.received
    (up (NtsbStreams._build_date_range_payload start_date end_date mode) n).

Section Routes.
Variable extract_json_from_zip : bytes -> result json.

Definition get_cases (fuel : nat) (up : upstream) (q : Filters.CaseQuery)
    : option (route_result (CaseResponse Filters.CaseQuery)) :=
  option_map
    (fun downloaded =>
       and_then downloaded (fun zip_bytes =>
       and_then (call (extract_json_from_zip zip_bytes)) (fun decoded =>
       and_then (expect_list decoded) (fun cases =>
       and_then (sort_if_asked cases (Filters.sort_by q) (Filters.order q))
         (fun cases =>
       respond cases (Filters.limit q) (Filters.offset q) q)))))
    (_download_zip_bytes fuel up (Filters.start_date q) (Filters.end_date q)
       (Filters.mode q)).

Definition search_cases (fuel : nat) (up : upstream) (payload : CaseSearchRequest)
    : option (route_result (CaseResponse CaseSearchRequest)) :=
  let q := query payload in
  option_map
    (fun downloaded =>
       and_then downloaded (fun zip_bytes =>
       and_then (call (extract_json_from_zip zip_bytes)) (fun decoded =>
       and_then (expect_list decoded) (fun cases =>
       and_then (call (filter_cases cases (filters payload))) (fun filtered =>
       and_then (sort_if_asked filtered (Filters.sort_by q) (Filters.order q))
         (fun filtered =>
       respond filtered (Filters.limit q) (Filters.offset q) payload))))))
    (_download_zip_bytes fuel up (Filters.start_date q) (Filters.end_date q)
       (Filters.mode q)).

Definition get_stats (fuel : nat) (up : upstream) (params : Filters.DateRangeFilter)
    (mode : string) : option (route_result StatsResponse) :=
  option_map
    (fun downloaded =>
       and_then downloaded (fun zip_bytes =>
       and_then (call (extract_json_from_zip zip_bytes)) (fun decoded =>
       and_then (expect_list decoded) (fun cases =>
       and_then (call (generate_stats cases)) (fun stats =>
       Responds {| period_start_date := Filters.range_start_date params;
                   period_end_date := Filters.range_end_date params;
                   period_mode := mode;
                   stats := stats |})))))
    (_download_zip_bytes fuel up (Filters.range_start_date params)
       (Filters.range_end_date params) mode).
End Routes.

End DataRoutes.

(* ================================================================== *)
(** ** [app/server/main.py]: the rate limiter *)
(* ================================================================== *)

From Stdlib Require SpecFloat.

Module ServerMain.
Import Py.

Definition RATE_LIMIT_MAX_REQUESTS : Z := 60.
Definition RATE_LIMIT_WINDOW_SECONDS : Z := 60.

(** A Python [float] is an IEEE 754 binary64 number; [time.time()] returns
    one.  The operations below are those of the standard's specification:
    each result is the exact one rounded to the nearest double, ties to
    even. *)
Definition float : Type := SpecFloat.spec_float.

Definition prec : Z := 53.
Definition emax : Z := 1024.

(** [float(n)], which the sum of a float and an integer applies to the
    integer; exact for an integer below 2^53. *)
Definition float_of_int (n : Z) : float :=
  SpecFloat.binary_normalize prec emax n 0 false.

Definition float_add (x y : float) : float := SpecFloat.SFadd prec emax x y.

Definition float_sub (x y : float) : float := SpecFloat.SFsub prec emax x y.

(** [x <= y], which is false when either is NaN. *)
Definition float_le (x y : float) : bool := SpecFloat.SFleb x y.

(** [int(x)] for a float: truncation toward zero; NaN raises [ValueError]
    and an infinity [OverflowError]. *)
Definition int_of_float (x : float) : result Z :=
  match x with
  | SpecFloat.S754_zero _ => Ok 0
  | SpecFloat.S754_infinity _ => Raise OverflowError
  | SpecFloat.S754_nan => Raise ValueError
  | SpecFloat.S754_finite negative m e =>
      let magnitude := Z.shiftl (Z.pos m) e in
      Ok (if negative then - magnitude else magnitude)
  end.

(** One value of [_rate_limit_store]: [{"reset": ..., "count": ...}]. *)
Record entry : Type := { reset : float; count : Z }.

(** [_rate_limit_store], a dict from client address to entry. *)
Definition store : Type := string -> option entry.

Definition empty_store : store := fun _ => None.

(** [store[ip] = e] *)
Definition store_set (s : store) (ip : string) (e : entry) : store :=
  fun k => if String.eqb k ip then Some e else s k.

(** What the middleware does with the request: it passes it on, answers
    429 itself, or raises. *)
Inductive verdict : Type :=
| CallNext
| TooManyRequests (retry_after : Z)
| Raises (e : exception).

(** [request.client.host if request.client else "unknown"] *)
Definition client_ip_of (client : option string) : string :=
  match client with
  | Some host => host
  | None => "unknown"
  end.

(** [rate_limit_middleware], with the store before and after, the client
    of the request and the reading of [time.time()].  The entry is the
    dict held by the store, so incrementing its count updates the store. *)
Definition rate_limit_middleware (s : store) (client : option string) (now : float)
    : store * verdict :=
  let client_ip := client_ip_of client in
  let fresh :=
    {| reset := float_add now (float_of_int RATE_LIMIT_WINDOW_SECONDS);
       count := 0 |} in
  let '(s1, e1) :=
    match s client_ip with
    | Some e =>
        if float_le (reset e) now
        then (store_set s client_ip fresh, fresh)
        else (s, e)
    | None => (store_set s client_ip fresh, fresh)
    end in
  let e2 := {| reset := reset e1; count := count e1 + 1 |} in
  let s2 := store_set s1 client_ip e2 in
  if count e2 >? RATE_LIMIT_MAX_REQUESTS
  then
    match int_of_float (float_sub (reset e2) now) with
    | Ok seconds => (s2, TooManyRequests (Z.max 0 seconds))
    | Raise e => (s2, Raises e)
    end
  else (s2, CallNext).

(** A sequence of requests, each with its client and its clock reading,
    going through the middleware one after the other. *)
Fixpoint serve (s : store) (requests : list (option string * float))
    : store * list verdict :=
  match requests with
  | [] => (s, [])
  | (client, now) :: rest =>
      let '(s1, v) := rate_limit_middleware s client now in
      let '(s2, vs) := serve s1 rest in
      (s2, v :: vs)
  end.

(** The entry that a request finds or makes, before it is counted. *)
Definition entry_in_force (found : option entry) (now : float) : entry :=
  let fresh :=
    {| reset := float_add now (float_of_int RATE_LIMIT_WINDOW_SECONDS);
       count := 0 |} in
  match found with
  | Some e => if float_le (reset e) now then fresh else e
  | None => fresh
  end.

(** What a request over the limit gets at [now], from an entry that holds
    [reset_at]: 429 with [max(0, int(reset_at - now))]. *)
Definition refusal (reset_at now : float) : verdict :=
  match int_of_float (float_sub reset_at now) with
  | Ok seconds => TooManyRequests (Z.max 0 seconds)
  | Raise e => Raises e
  end.

(** The verdicts on requests at [times] from a client whose entry has
    not expired and holds [reset_at] and [counted]. *)
Fixpoint window_verdicts (reset_at : float) (counted : Z) (times : list float)
    : list verdict :=
  match times with
  | [] => []
  | now :: times' =>
      (if counted + 1 >? RATE_LIMIT_MAX_REQUESTS
       then refusal reset_at now
       else CallNext)
      :: window_verdicts reset_at (counted + 1) times'
  end.

(** The requests of one client among all. *)
Definition requests_of (ip : string) (requests : list (option string * float))
    : list (option string * float) :=
  List.filter (fun r => String.eqb (client_ip_of (fst r)) ip) requests.

(** The verdicts given to one client among all. *)
Fixpoint verdicts_of (ip : string) (requests : list (option string * float))
    (verdicts : list verdict) : list verdict :=
  match requests, verdicts with
  | r :: requests', v :: verdicts' =>
      if String.eqb (client_ip_of (fst r)) ip
      then v :: verdicts_of ip requests' verdicts'
      else verdicts_of ip requests' verdicts'
  | _, _ => []
  end.

(** The doubles nearest to 4.35 and to 64.35. *)
Definition reading_4_35 : float :=
  SpecFloat.S754_finite false 0x11666666666666 (-50).
Definition reading_64_35 : float :=
  SpecFloat.S754_finite false 0x10166666666666 (-46).

End ServerMain.

(* ================================================================== *)
(** ** Sample inputs of the routes *)
(* ================================================================== *)

Module Samples.
Import Py Datetime.

(** The path segment U+FF11, FULLWIDTH DIGIT ONE, and the segment made of
    U+001C, a separator that [str.isspace] accepts, and the digit 1. *)
Definition fullwidth_one : string :=
  String "239"%char (String "188"%char (String "145"%char EmptyString)).

Definition separator_one : string :=
  String "028"%char (String "1"%char EmptyString).

Definition two_cases : list json :=
  [JDict [("cm_ntsbNum", JStr "B"); ("cm_fatalInjuryCount", JInt 2)];
   JDict [("cm_ntsbNum", JStr "A"); ("cm_fatalInjuryCount", JInt 0)]].

(** A stand-in for [json.loads] that tells documents apart by their
    length. *)
Definition loads_length (document : NtsbClient.bytes) : result json :=
  Ok (JList [JInt (Z.of_nat (List.length document))]).

(** An extractor that decodes every archive to [two_cases]. *)
Definition extract_two (zip_bytes : NtsbClient.bytes) : result json :=
  Ok (JList two_cases).

Definition april : Filters.CaseQuery :=
  {| Filters.start_date := {| year := 2025; month := 4; day := 1 |};
     Filters.end_date := {| year := 2025; month := 4; day := 30 |};
     Filters.mode := "Aviation";
     Filters.limit := 1;
     Filters.offset := 0;
     Filters.sort_by := Some "cm_ntsbNum";
     Filters.order := "asc" |}.

Definition april_range : Filters.DateRangeFilter :=
  {| Filters.range_start_date := {| year := 2025; month := 4; day := 1 |};
     Filters.range_end_date := {| year := 2025; month := 4; day := 30 |};
     Filters.range_mode := "Aviation" |}.

Definition april_fatal : DataRoutes.CaseSearchRequest :=
  {| DataRoutes.query := april;
     DataRoutes.filters := [("cm_fatalInjuryCount", JInt 2)] |}.

End Samples.

(* ================================================================== *)
(** ** Properties of the path accessor *)
(* ================================================================== *)

Module PathFacts.
Import Py DataProcessor.

Lemma py_int_str_raises (s : string) (e : exception) :
  py_int_str s = Raise e -> e = ValueError.
Proof.
  unfold py_int_str, long_from_string. cbv zeta.
  repeat match goal with
         | |- context [match ?x with _ => _ end] => destruct x
         end; congruence.
Qed.

Lemma list_getitem_in_range {A : Type} (l : list A) (i : Z) :
  0 <= i < Z.of_nat (List.length l) ->
  exists x, nth_error l (Z.to_nat i) = Some x /\ list_getitem l i = Ok x.
Proof.
  intros Hi. unfold list_getitem. cbv zeta.
  assert (Hneg : (i <? 0) = false) by (apply Z.ltb_ge; lia).
  assert (Hhi : (Z.of_nat (List.length l) <=? i) = false)
    by (apply Z.leb_gt; lia).
  rewrite Hneg. cbv iota. rewrite Hneg, Hhi. cbn [orb].
  destruct (nth_error l (Z.to_nat i)) as [x|] eqn:Hnth.
  - exists x. split; reflexivity.
  - apply nth_error_None in Hnth. lia.
Qed.

(** Past a [None], the sorting accessor can only yield [None]. *)
Lemma sort_walk_null (parts : list string) :
  SortCases.walk JNull parts = Ok JNull.
Proof. destruct parts; reflexivity. Qed.

Lemma filter_walk_resolve (parts : list string) :
  forall current,
    FilterCases.walk current parts
    = Ok (Spec.absent_as_null (Spec.resolve_from current parts)).
Proof.
  induction parts as [|part rest IH]; intros current; [reflexivity|].
  destruct current as [| b | q | s | l | d | nf]; try reflexivity.
  - cbn [FilterCases.walk Spec.resolve_from].
    destruct (py_int_str part) as [i|e] eqn:Hint.
    + destruct (i <? 0) eqn:Hneg.
      * apply Z.ltb_lt in Hneg.
        replace (0 <=? i) with false by (symmetry; apply Z.leb_gt; lia).
        reflexivity.
      * apply Z.ltb_ge in Hneg.
        replace (0 <=? i) with true by (symmetry; apply Z.leb_le; lia).
        cbn [orb andb].
        destruct (Z.of_nat (List.length l) <=? i) eqn:Hhi.
        -- apply Z.leb_le in Hhi.
           replace (i <? Z.of_nat (List.length l)) with false
             by (symmetry; apply Z.ltb_ge; lia).
           reflexivity.
        -- apply Z.leb_gt in Hhi.
           replace (i <? Z.of_nat (List.length l)) with true
             by (symmetry; apply Z.ltb_lt; lia).
           destruct (list_getitem_in_range l i) as (x & Hnth & Hget); [lia|].
           rewrite Hget, Hnth. cbn [bind]. apply IH.
    + rewrite (py_int_str_raises _ _ Hint). reflexivity.
  - cbn [FilterCases.walk Spec.resolve_from].
    unfold dict_contains, dict_get.
    destruct (dict_lookup d part) as [v|]; cbn [negb]; [apply IH | reflexivity].
Qed.

Lemma walks_agree (parts : list string) :
  forall current, FilterCases.walk current parts = SortCases.walk current parts.
Proof.
  induction parts as [|part rest IH]; intros current; [reflexivity|].
  destruct current as [| b | q | s | l | d | nf]; try reflexivity.
  - cbn [FilterCases.walk SortCases.walk].
    destruct (py_int_str part) as [i|e]; [|reflexivity].
    destruct ((i <? 0) || (Z.of_nat (List.length l) <=? i)); [reflexivity|].
    destruct (list_getitem l i) as [x|e]; cbn [bind]; [apply IH | reflexivity].
  - cbn [FilterCases.walk SortCases.walk].
    unfold dict_contains, dict_get.
    destruct (dict_lookup d part) as [v|]; cbn [negb]; [apply IH|].
    symmetry. apply sort_walk_null.
Qed.

Lemma filter_get_nested_value_resolve (obj : json) (path : string) :
  FilterCases.get_nested_value obj path
  = Ok (Spec.absent_as_null (Spec.resolve obj path)).
Proof. apply filter_walk_resolve. Qed.

Lemma sort_get_nested_value_resolve (obj : json) (path : string) :
  SortCases.get_nested_value obj path
  = Ok (Spec.absent_as_null (Spec.resolve obj path)).
Proof.
  unfold SortCases.get_nested_value. rewrite <- walks_agree.
  apply filter_walk_resolve.
Qed.

(** C7: path resolution never raises.  For every record and every dotted
    path both accessors return a value ([None] standing for absent); along
    the walk, a segment applied to a list yields absent unless [int] reads
    it as an integer in [0, len), a segment that is no key of a dict yields
    absent, and a segment applied to a value that is neither a list nor a
    dict yields absent.  In the remaining cases the walk goes on from the
    item at that index, or from the value under that key. *)
Theorem get_nested_value_never_raises :
  (forall obj path, exists v, FilterCases.get_nested_value obj path = Ok v) /\
  (forall obj path, exists v, SortCases.get_nested_value obj path = Ok v) /\
  (forall l part rest,
      (forall i, py_int_str part = Ok i -> i < 0 \/ Z.of_nat (List.length l) <= i) ->
      FilterCases.walk (JList l) (part :: rest) = Ok JNull) /\
  (forall d part rest,
      dict_lookup d part = None ->
      FilterCases.walk (JDict d) (part :: rest) = Ok JNull) /\
  (forall current part rest,
      (forall l, current <> JList l) -> (forall d, current <> JDict d) ->
      FilterCases.walk current (part :: rest) = Ok JNull) /\
  (forall l part rest i,
      py_int_str part = Ok i -> 0 <= i < Z.of_nat (List.length l) ->
      exists item,
        nth_error l (Z.to_nat i) = Some item /\
        FilterCases.walk (JList l) (part :: rest) = FilterCases.walk item rest) /\
  (forall d part rest v,
      dict_lookup d part = Some v ->
      FilterCases.walk (JDict d) (part :: rest) = FilterCases.walk v rest).
Proof.
  split; [|split; [|split; [|split; [|split; [|split]]]]].
  - intros obj path. eexists. apply filter_get_nested_value_resolve.
  - intros obj path. eexists. apply sort_get_nested_value_resolve.
  - intros l part rest Hbad. cbn [FilterCases.walk].
    destruct (py_int_str part) as [i|e] eqn:Hint.
    + destruct (Hbad i eq_refl) as [Hlo | Hhi].
      * replace (i <? 0) with true by (symmetry; apply Z.ltb_lt; lia).
        reflexivity.
      * replace (Z.of_nat (List.length l) <=? i) with true
          by (symmetry; apply Z.leb_le; lia).
        rewrite orb_true_r. reflexivity.
    + rewrite (py_int_str_raises _ _ Hint). reflexivity.
  - intros d part rest Hmiss. cbn [FilterCases.walk].
    unfold dict_contains. rewrite Hmiss. reflexivity.
  - intros current part rest Hl Hd.
    destruct current; try reflexivity.
    + exfalso. eapply Hl. reflexivity.
    + exfalso. eapply Hd. reflexivity.
  - intros l part rest i Hint Hrange. cbn [FilterCases.walk]. rewrite Hint.
    replace (i <? 0) with false by (symmetry; apply Z.ltb_ge; lia).
    replace (Z.of_nat (List.length l) <=? i) with false
      by (symmetry; apply Z.leb_gt; lia).
    cbn [orb].
    destruct (list_getitem_in_range l i Hrange) as (item & Hnth & Hget).
    exists item. split; [exact Hnth|]. rewrite Hget. reflexivity.
  - intros d part rest v Hfound. cbn [FilterCases.walk].
    unfold dict_contains, dict_get. rewrite Hfound. reflexivity.
Qed.

Lemma get_nested_value_never_raises_witness :
  FilterCases.walk (JList [JInt 7]) ["x"; "y"] = Ok JNull /\
  FilterCases.walk (JList [JInt 7]) ["1"] = Ok JNull /\
  FilterCases.walk (JList [JInt 10; JInt 20]) [Samples.separator_one] = Ok JNull /\
  FilterCases.walk (JDict [("a", JInt 7)]) ["b"; "c"] = Ok JNull /\
  FilterCases.walk (JStr "s") ["0"] = Ok JNull /\
  (exists item,
      nth_error [JInt 10; JInt 20] (Z.to_nat 1) = Some item /\
      FilterCases.walk (JList [JInt 10; JInt 20]) [Samples.fullwidth_one]
      = FilterCases.walk item []).
Proof.
  destruct get_nested_value_never_raises
    as (_ & _ & Hlist & Hdict & Hother & Hitem & _).
  split; [|split; [|split; [|split; [|split]]]].
  - apply Hlist. intros i H. vm_compute in H. discriminate H.
  - apply Hlist. intros i H. vm_compute in H. injection H as <-.
    right. vm_compute. discriminate.
  - apply Hlist. intros i H. vm_compute in H. discriminate H.
  - apply Hdict. reflexivity.
  - apply Hother; intros ? H; discriminate H.
  - apply (Hitem [JInt 10; JInt 20] Samples.fullwidth_one [] 1);
      [vm_compute; reflexivity | cbn [List.length]; lia].
Defined.

(** C8: the accessor local to [filter_cases] and the accessor local to
    [sort_cases] return the same result for every record and every path. *)
Theorem get_nested_value_filter_sort_agree (obj : json) (path : string) :
  FilterCases.get_nested_value obj path = SortCases.get_nested_value obj path.
Proof. apply walks_agree. Qed.

End PathFacts.

(* ================================================================== *)
(** ** Properties of [filter_cases] *)
(* ================================================================== *)

Module FilterFacts.
Import Py DataProcessor.

Lemma matches_retained (case : json) (filters : list (string * json)) :
  matches case filters = Ok (Spec.retained filters case).
Proof.
  induction filters as [|[key value] rest IH]; [reflexivity|].
  unfold Spec.retained in *. cbn [matches forallb Spec.predicate_matches].
  destruct value as [| b | q | s | vs | d | nf];
    try exact IH;
    rewrite PathFacts.filter_get_nested_value_resolve; cbn [bind];
    unfold py_in;
    match goal with
    | |- (if negb ?c then _ else _) = _ => destruct c
    end; cbn [negb andb]; first [exact IH | reflexivity].
Qed.

Lemma filter_loop_appends (filters : list (string * json)) (cases : list json) :
  forall filtered,
    filter_loop cases filters filtered
    = Ok (filtered ++ Spec.filter_spec cases filters).
Proof.
  unfold Spec.filter_spec.
  induction cases as [|case rest IH]; intros filtered.
  - cbn. rewrite app_nil_r. reflexivity.
  - cbn [filter_loop List.filter]. rewrite matches_retained. cbn [bind].
    rewrite IH. destruct (Spec.retained filters case).
    + rewrite <- app_assoc. reflexivity.
    + reflexivity.
Qed.

Lemma filter_all (A : Type) (l : list A) : List.filter (fun _ => true) l = l.
Proof. induction l as [|x l IH]; cbn; [|rewrite IH]; reflexivity. Qed.

Lemma retained_null_only (filters : list (string * json)) (record : json) :
  Forall (fun f => snd f = JNull) filters -> Spec.retained filters record = true.
Proof.
  induction 1 as [|[path expected] rest Hnull _ IH]; [reflexivity|].
  cbn [snd] in Hnull. subst expected.
  unfold Spec.retained in *. cbn [forallb Spec.predicate_matches]. exact IH.
Qed.

(** *** Equality by value and equality by type and value *)

Lemma json_nested_ind (P : json -> Prop) :
  P JNull -> (forall b, P (JBool b)) -> (forall q, P (JNum q)) ->
  (forall s, P (JStr s)) ->
  (forall l, Forall P l -> P (JList l)) ->
  (forall d, Forall (fun kv => P (snd kv)) d -> P (JDict d)) ->
  (forall x, P (JNonFinite x)) ->
  forall v, P v.
Proof.
  intros Hnull Hbool Hnum Hstr Hlist Hdict Hnf.
  fix IH 1. intros v.
  destruct v as [| b | q | s | l | d | nf].
  - exact Hnull.
  - apply Hbool.
  - apply Hnum.
  - apply Hstr.
  - apply Hlist.
    induction l as [|x l IHl]; constructor; [apply IH | exact IHl].
  - apply Hdict.
    induction d as [|[k x] d IHd]; constructor; [apply IH | exact IHd].
  - apply Hnf.
Qed.

(** Two values that are equal by type and value are [==]. *)
Lemma equals_exactly_py_eq (a : json) :
  forall b, Spec.equals_exactly a b = true -> py_eq a b = true.
Proof.
  induction a as [| x | p | s | l IHl | d IHd | nf] using json_nested_ind;
    intros b; destruct b as [| y | q | t | m | e | nf']; try discriminate;
    try (intros H; exact H).
  - cbn [Spec.equals_exactly py_eq]. revert m.
    induction IHl as [|x l Hx _ IH]; intros [|y m]; try discriminate; try trivial.
    intros H. apply andb_prop in H. destruct H as [Hxy Hrest].
    rewrite (Hx y Hxy), orb_true_r. cbn [andb]. apply IH. exact Hrest.
  - cbn [Spec.equals_exactly py_eq]. intros H.
    apply andb_prop in H. destruct H as [Hlen Hitems]. rewrite Hlen. cbn [andb].
    clear Hlen. induction IHd as [|[k v] d Hv _ IH]; [reflexivity|].
    cbn [snd] in Hv.
    destruct (dict_lookup e k) as [w|]; [|discriminate].
    apply andb_prop in Hitems. destruct Hitems as [Hvw Hrest].
    rewrite (Hv w Hvw), orb_true_r. cbn [andb]. apply IH. exact Hrest.
Qed.

Lemma predicate_exactly_matches (record : json) (pred : string * json) :
  Spec.predicate_matches_exactly record pred = true ->
  Spec.predicate_matches record pred = true.
Proof.
  destruct pred as [path expected].
  unfold Spec.predicate_matches_exactly, Spec.predicate_matches. cbv zeta.
  destruct expected as [| b | q | s | members | d | nf]; trivial;
    try apply equals_exactly_py_eq.
  intros H. apply existsb_exists in H. destruct H as (m & Hin & Hm).
  apply existsb_exists. exists m. split; [exact Hin|].
  unfold py_is_or_eq. rewrite (equals_exactly_py_eq _ _ Hm). apply orb_true_r.
Qed.

Lemma retained_exactly_retained (filters : list (string * json)) (record : json) :
  Spec.retained_exactly filters record = true -> Spec.retained filters record = true.
Proof.
  unfold Spec.retained_exactly, Spec.retained. rewrite !forallb_forall.
  intros H pred Hin. apply predicate_exactly_matches. apply H. exact Hin.
Qed.

(** C6, as the code has it: [filter_cases] keeps, in their input order,
    exactly the records that match every filter entry, where an entry whose
    expected value is null is ignored, an entry whose expected value is a
    list matches iff the resolved value is, or is [==] to, one of its
    members, and any other entry matches iff the resolved value [==] the
    expected value.  [==] compares by value, not by type: [True] equals 1
    and [False] equals 0.  A resolved absent (or null) is never equal to a
    non-null expected value; an empty filter set, or one with null values
    only, returns the input unchanged; and every record that matches all
    entries under equality by type and value is kept. *)
Theorem filter_cases_conjunction :
  (forall cases filters,
      filter_cases cases filters = Ok (Spec.filter_spec cases filters)) /\
  (forall cases, filter_cases cases [] = Ok cases) /\
  (forall cases filters,
      Forall (fun f => snd f = JNull) filters ->
      filter_cases cases filters = Ok cases) /\
  (forall record path expected,
      expected <> JNull ->
      (forall members, expected <> JList members) ->
      Spec.absent_as_null (Spec.resolve record path) = JNull ->
      Spec.predicate_matches record (path, expected) = false) /\
  (forall filters record,
      Spec.retained_exactly filters record = true ->
      Spec.retained filters record = true).
Proof.
  assert (Hspec : forall cases filters,
             filter_cases cases filters = Ok (Spec.filter_spec cases filters)).
  { intros cases filters. destruct filters as [|f filters].
    - cbn. unfold Spec.filter_spec. cbn. rewrite filter_all. reflexivity.
    - unfold filter_cases. apply (filter_loop_appends (f :: filters) cases []). }
  split; [exact Hspec | split; [reflexivity | split; [|split]]].
  - intros cases filters Hnull. rewrite Hspec. f_equal.
    unfold Spec.filter_spec.
    rewrite (filter_ext (Spec.retained filters) (fun _ => true)).
    + apply filter_all.
    + intros record. apply retained_null_only. exact Hnull.
  - intros record path expected Hnull Hlist Habsent.
    unfold Spec.predicate_matches. rewrite Habsent.
    destruct expected; try reflexivity.
    + contradiction.
    + exfalso. eapply Hlist. reflexivity.
  - apply retained_exactly_retained.
Qed.

Lemma filter_cases_conjunction_witness :
  filter_cases [JDict [("cm_state", JStr "OK")]; JDict [("cm_state", JStr "TX")]]
    [("cm_state", JNull); ("cm_city", JNull)]
  = Ok [JDict [("cm_state", JStr "OK")]; JDict [("cm_state", JStr "TX")]]
  /\ Spec.predicate_matches (JDict [("cm_state", JStr "OK")])
       ("cm_city", JStr "Tulsa") = false
  /\ Spec.retained [("cm_state", JList [JStr "TX"; JStr "OK"])]
       (JDict [("cm_state", JStr "OK")]) = true.
Proof.
  destruct filter_cases_conjunction as (_ & _ & Hnulls & Habsent & Hexact).
  split; [|split].
  - apply Hnulls. repeat constructor.
  - apply Habsent.
    + discriminate.
    + discriminate.
    + reflexivity.
  - apply Hexact. reflexivity.
Defined.

(** Counterexample to C6 as stated: the record [{"n": true}] passes the
    filter [{"n": 1}], and the filter [{"n": [1]}] as well, although a
    boolean and a number are not equal by type and value. *)
Lemma boolean_matches_number :
  filter_cases [JDict [("n", JBool true)]] [("n", JInt 1)]
  = Ok [JDict [("n", JBool true)]]
  /\ filter_cases [JDict [("n", JBool true)]] [("n", JList [JInt 1])]
     = Ok [JDict [("n", JBool true)]]
  /\ Spec.equals_exactly (JBool true) (JInt 1) = false
  /\ Spec.filter_exactly [JDict [("n", JBool true)]] [("n", JInt 1)] = []
  /\ ~ (forall cases filters,
          filter_cases cases filters = Ok (Spec.filter_exactly cases filters)).
Proof.
  split; [reflexivity | split; [reflexivity | split; [reflexivity | split]]].
  - reflexivity.
  - intros Hexact.
    specialize (Hexact [JDict [("n", JBool true)]] [("n", JInt 1)]).
    discriminate Hexact.
Qed.

End FilterFacts.

(* ================================================================== *)
(** ** Properties of [paginate] *)
(* ================================================================== *)

Module PaginateFacts.
Import Py DataProcessor.

Lemma slice_bound_nonneg (n i : Z) :
  0 <= n -> 0 <= i -> slice_bound n i = Z.min i n.
Proof.
  intros Hn Hi. unfold slice_bound.
  destruct (i <? 0) eqn:Hneg; [apply Z.ltb_lt in Hneg; lia|].
  rewrite Hneg.
  destruct (n <? i) eqn:Hhi;
    [apply Z.ltb_lt in Hhi | apply Z.ltb_ge in Hhi]; lia.
Qed.

Lemma list_slice_window {A : Type} (l : list A) (limit offset : Z) :
  1 <= limit -> 0 <= offset ->
  list_slice l offset (offset + limit)
  = firstn (Z.to_nat limit) (skipn (Z.to_nat offset) l).
Proof.
  intros Hlimit Hoffset. unfold list_slice. cbv zeta.
  set (n := Z.of_nat (List.length l)).
  assert (Hn : 0 <= n) by (subst n; lia).
  rewrite !slice_bound_nonneg by lia.
  destruct (Z.le_gt_cases n offset) as [Hpast | Hin].
  - rewrite (skipn_all2 l (n := Z.to_nat offset)) by (subst n; lia).
    rewrite (skipn_all2 l (n := Z.to_nat (Z.min offset n))) by (subst n; lia).
    rewrite !firstn_nil. reflexivity.
  - replace (Z.min offset n) with offset by lia.
    destruct (Z.le_gt_cases (offset + limit) n) as [Hfit | Hcut].
    + replace (Z.min (offset + limit) n - offset) with limit by lia.
      reflexivity.
    + replace (Z.min (offset + limit) n - offset) with (n - offset) by lia.
      assert (Hlen : List.length (skipn (Z.to_nat offset) l) = Z.to_nat (n - offset))
        by (rewrite length_skipn; subst n; lia).
      rewrite <- Hlen, firstn_all.
      symmetry. apply firstn_all2. lia.
Qed.

(** C5: for every list of records, every limit at least 1 and every
    non-negative offset, [paginate] returns as items the window of at most
    [limit] records that starts at position [offset] (empty when the offset
    is past the end), and as total the length of the whole list. *)
Theorem paginate_window (cases : list json) (limit offset : Z) :
  1 <= limit -> 0 <= offset ->
  let window := firstn (Z.to_nat limit) (skipn (Z.to_nat offset) cases) in
  let len := Z.of_nat (List.length cases) in
  paginate cases limit offset
  = JDict [("items", JList window);
           ("pagination", JDict [("total", JInt len);
                                 ("limit", JInt limit);
                                 ("offset", JInt offset)])]
  /\ items (paginate_result cases limit offset) = window
  /\ total (paginate_result cases limit offset) = len
  /\ (forall i, (i < Z.to_nat limit)%nat ->
        nth_error window i = nth_error cases (Z.to_nat offset + i))
  /\ Z.of_nat (List.length window) = Z.max 0 (Z.min limit (len - offset))
  /\ (len <= offset -> window = []).
Proof.
  intros Hlimit Hoffset window len.
  assert (Hitems : items (paginate_result cases limit offset) = window)
    by (cbn [paginate_result items]; apply list_slice_window; assumption).
  split; [|split; [|split; [|split; [|split]]]].
  - unfold paginate, to_dict. rewrite Hitems. reflexivity.
  - exact Hitems.
  - reflexivity.
  - intros i Hi. subst window.
    rewrite nth_error_firstn.
    replace (i <? Z.to_nat limit)%nat with true
      by (symmetry; apply Nat.ltb_lt; exact Hi).
    apply nth_error_skipn.
  - subst window len. rewrite length_firstn, length_skipn. lia.
  - intros Hpast. subst window len.
    rewrite skipn_all2 by lia. apply firstn_nil.
Qed.

Lemma paginate_window_witness :
  items (paginate_result [JInt 0; JInt 1; JInt 2; JInt 3; JInt 4] 10 3)
  = [JInt 3; JInt 4]
  /\ total (paginate_result [JInt 0; JInt 1; JInt 2; JInt 3; JInt 4] 10 3) = 5.
Proof.
  destruct (paginate_window [JInt 0; JInt 1; JInt 2; JInt 3; JInt 4] 10 3)
    as (_ & Hitems & Htotal & _); [lia | lia |].
  split; [exact Hitems | exact Htotal].
Defined.

End PaginateFacts.

(* ================================================================== *)
(** ** Properties of [generate_stats] *)
(* ================================================================== *)

Module StatsFacts.
Import Py DataProcessor.

Lemma in_bucket_cons (b : Spec.bucket) (k : Z * Z * Z) (counts : list (Z * Z * Z)) :
  Spec.in_bucket b (k :: counts)
  = Spec.indicator (Spec.bucket_eqb (Spec.classify k) b) + Spec.in_bucket b counts.
Proof.
  unfold Spec.in_bucket, Spec.indicator. cbn [List.filter].
  destruct (Spec.bucket_eqb (Spec.classify k) b); cbn [List.length]; lia.
Qed.

(** Every record falls into exactly one bucket. *)
Lemma buckets_partition (counts : list (Z * Z * Z)) :
  Spec.in_bucket Spec.Fatal counts + Spec.in_bucket Spec.Serious counts
  + Spec.in_bucket Spec.Minor counts + Spec.in_bucket Spec.NoInjury counts
  = Z.of_nat (List.length counts).
Proof.
  induction counts as [|k counts IH]; [reflexivity|].
  rewrite !in_bucket_cons. cbn [List.length].
  destruct (Spec.classify k); cbn [Spec.bucket_eqb Spec.indicator]; lia.
Qed.

(** [int(case.get(key) or 0)] is the count that the field stands for. *)
Lemma injury_count_reads (fields : list (string * json)) (key : string) :
  injury_count (JDict fields) key = Spec.count_of fields key.
Proof.
  unfold injury_count. cbn [case_get bind].
  unfold Spec.count_of, dict_get, py_or.
  destruct (dict_lookup fields key) as [v|]; [|reflexivity].
  destruct (py_truthy v); reflexivity.
Qed.

Lemma injury_counts_coerced (case : json) :
  Spec.injury_counts case
  = bind (injury_count case "cm_fatalInjuryCount") (fun fatal =>
    bind (injury_count case "cm_seriousInjuryCount") (fun serious =>
    bind (injury_count case "cm_minorInjuryCount") (fun minor =>
    Ok (fatal, serious, minor)))).
Proof.
  destruct case; try reflexivity.
  cbn [Spec.injury_counts]. rewrite !injury_count_reads. reflexivity.
Qed.

(** A count that the words of section 4.3 define is the count read. *)
Lemma count_as_worded_read (fields : list (string * json)) (field : string) (z : Z) :
  Spec.count_as_worded fields field = Ok z -> Spec.count_of fields field = Ok z.
Proof.
  unfold Spec.count_as_worded, Spec.count_of.
  destruct (dict_lookup fields field) as [v|]; [|trivial].
  destruct v as [| b | q | s | l | d | nf]; cbn [py_truthy py_int]; trivial.
  - destruct b; trivial.
  - destruct (Qeq_bool q (inject_Z 0)) eqn:Hzero; cbn [negb]; [|trivial].
    intros H. injection H as <-. f_equal.
    apply Qeq_bool_iff in Hzero. unfold Qeq in Hzero. cbn in Hzero.
    rewrite Z.mul_1_r in Hzero. rewrite Hzero. reflexivity.
  - destruct (String.eqb s EmptyString) eqn:Hempty; cbn [negb]; [|trivial].
    apply String.eqb_eq in Hempty. subst s. discriminate.
  - discriminate.
  - discriminate.
Qed.

Lemma counts_as_worded_read (record : json) (k : Z * Z * Z) :
  Spec.counts_as_worded record = Ok k -> Spec.injury_counts record = Ok k.
Proof.
  destruct record as [| b | q | s | l | d | nf]; try discriminate.
  cbn [Spec.counts_as_worded Spec.injury_counts].
  destruct (Spec.count_as_worded d "cm_fatalInjuryCount") as [f|] eqn:Hf;
    [|discriminate].
  destruct (Spec.count_as_worded d "cm_seriousInjuryCount") as [s|] eqn:Hs;
    [|discriminate].
  destruct (Spec.count_as_worded d "cm_minorInjuryCount") as [m|] eqn:Hm;
    [|discriminate].
  rewrite (count_as_worded_read _ _ _ Hf), (count_as_worded_read _ _ _ Hs),
    (count_as_worded_read _ _ _ Hm).
  trivial.
Qed.

(** What one iteration does to the totals. *)
Lemma stats_step_totals (st st' : Stats) (case : json) :
  stats_step st case = Ok st' ->
  exists k,
    Spec.injury_counts case = Ok k /\
    accidents (totals st') = accidents (totals st) + 1 /\
    fatal_accidents (totals st')
    = fatal_accidents (totals st)
      + Spec.indicator (Spec.bucket_eqb (Spec.classify k) Spec.Fatal) /\
    serious_injury_accidents (totals st')
    = serious_injury_accidents (totals st)
      + Spec.indicator (Spec.bucket_eqb (Spec.classify k) Spec.Serious) /\
    minor_injury_accidents (totals st')
    = minor_injury_accidents (totals st)
      + Spec.indicator (Spec.bucket_eqb (Spec.classify k) Spec.Minor) /\
    no_injury_accidents (totals st')
    = no_injury_accidents (totals st)
      + Spec.indicator (Spec.bucket_eqb (Spec.classify k) Spec.NoInjury).
Proof.
  rewrite injury_counts_coerced. unfold stats_step.
  destruct (injury_count case "cm_fatalInjuryCount") as [f|]; [|discriminate].
  destruct (injury_count case "cm_seriousInjuryCount") as [s|]; [|discriminate].
  destruct (injury_count case "cm_minorInjuryCount") as [m|]; [|discriminate].
  cbn [bind].
  destruct (case_get case "cm_highestInjury") as [h|]; [|discriminate].
  cbn [bind].
  destruct (counter_incr (by_highest_injury st) _) as [bhi|]; [|discriminate].
  cbn [bind].
  destruct (case_get case "cm_state") as [s0|]; [|discriminate].
  cbn [bind].
  destruct (counter_incr (by_state st) _) as [bs|]; [|discriminate].
  cbn [bind].
  intros H. injection H as <-. exists (f, s, m).
  split; [reflexivity|].
  cbn [totals Spec.classify]. rewrite !Z.gtb_ltb.
  destruct (0 <? f); [|destruct (0 <? s); [|destruct (0 <? m)]];
    cbn; repeat split; lia.
Qed.

Lemma stats_loop_totals (cases : list json) :
  forall st st',
    stats_loop cases st = Ok st' ->
    exists counts,
      Forall2 (fun c k => Spec.injury_counts c = Ok k) cases counts /\
      accidents (totals st')
      = accidents (totals st) + Z.of_nat (List.length cases) /\
      fatal_accidents (totals st')
      = fatal_accidents (totals st) + Spec.in_bucket Spec.Fatal counts /\
      serious_injury_accidents (totals st')
      = serious_injury_accidents (totals st) + Spec.in_bucket Spec.Serious counts /\
      minor_injury_accidents (totals st')
      = minor_injury_accidents (totals st) + Spec.in_bucket Spec.Minor counts /\
      no_injury_accidents (totals st')
      = no_injury_accidents (totals st) + Spec.in_bucket Spec.NoInjury counts.
Proof.
  induction cases as [|case rest IH]; intros st st' Hloop.
  - injection Hloop as <-. exists []. split; [constructor|].
    unfold Spec.in_bucket. cbn. repeat split; lia.
  - cbn [stats_loop] in Hloop.
    destruct (stats_step st case) as [st1|] eqn:Hstep; [|discriminate].
    cbn [bind] in Hloop.
    destruct (stats_step_totals _ _ _ Hstep) as (k & Hk & Ha & Hf & Hs & Hm & Hn).
    destruct (IH _ _ Hloop) as (counts & Hall & Ha' & Hf' & Hs' & Hm' & Hn').
    exists (k :: counts). split; [constructor; assumption|].
    rewrite !in_bucket_cons. cbn [List.length].
    repeat split; lia.
Qed.

Lemma count_field_coerces (v : json) :
  Spec.count_field v = true -> exists z, py_int (py_or v (JInt 0)) = Ok z.
Proof.
  destruct v as [| b | q | s | l | d | nf]; cbn [Spec.count_field];
    try discriminate; intros _; unfold py_or; cbn [py_truthy].
  - eexists; reflexivity.
  - destruct b; eexists; reflexivity.
  - destruct (negb (Qeq_bool q (inject_Z 0))); eexists; reflexivity.
Qed.

Lemma label_field_hashable (v : json) :
  Spec.label_field v = true -> hashable (py_or v (JStr "Unknown")) = true.
Proof.
  destruct v as [| b | q | s | l | d | nf]; cbn [Spec.label_field];
    try discriminate; intros _; unfold py_or; cbn [py_truthy].
  - reflexivity.
  - destruct (negb (String.eqb s EmptyString)); reflexivity.
Qed.

Lemma stats_step_returns (st : Stats) (case : json) :
  Spec.known_fields_typed case = true -> exists st', stats_step st case = Ok st'.
Proof.
  destruct case as [| b | q | s | l | d | nf]; cbn [Spec.known_fields_typed];
    try discriminate.
  intros H. repeat (apply andb_prop in H; destruct H as [H ?]).
  unfold stats_step, injury_count. cbn [case_get bind].
  destruct (count_field_coerces _ H) as [f ->].
  destruct (count_field_coerces _ H3) as [s ->].
  destruct (count_field_coerces _ H2) as [m ->].
  cbn [bind]. unfold counter_incr.
  rewrite !label_field_hashable by assumption.
  cbn [bind]. eexists. reflexivity.
Qed.

Lemma stats_loop_returns (cases : list json) :
  Forall (fun c => Spec.known_fields_typed c = true) cases ->
  forall st, exists st', stats_loop cases st = Ok st'.
Proof.
  induction 1 as [|case rest Hcase _ IH]; intros st.
  - eexists; reflexivity.
  - destruct (stats_step_returns st case Hcase) as [st1 Hst1].
    cbn [stats_loop]. rewrite Hst1. cbn [bind]. apply IH.
Qed.

(** C4: in the totals that [generate_stats] returns, each record is
    counted in exactly one of the four severity buckets, the one that the
    precedence fatal > serious > minor > none selects from its three injury
    counts, so that [accidents] is the number of records and equals the sum
    of the four bucket counters.  The injury counts of a record are read
    from its fields, independently of the function: a missing, null or
    otherwise false field counts as 0 and any other value as the integer it
    coerces to; where the words of section 4.3 define the counts, these are
    the counts read.  The function does return whenever the count fields of
    every record are missing, null, booleans or finite numbers and its
    label fields are missing, null or strings. *)
Theorem generate_stats_buckets :
  (forall cases st,
      generate_stats cases = Ok st ->
      exists counts,
        Forall2 (fun c k => Spec.injury_counts c = Ok k) cases counts /\
        fatal_accidents (totals st) = Spec.in_bucket Spec.Fatal counts /\
        serious_injury_accidents (totals st) = Spec.in_bucket Spec.Serious counts /\
        minor_injury_accidents (totals st) = Spec.in_bucket Spec.Minor counts /\
        no_injury_accidents (totals st) = Spec.in_bucket Spec.NoInjury counts /\
        accidents (totals st) = Z.of_nat (List.length cases) /\
        accidents (totals st)
        = fatal_accidents (totals st) + serious_injury_accidents (totals st)
          + minor_injury_accidents (totals st) + no_injury_accidents (totals st)) /\
  (forall cases,
      Forall (fun c => Spec.known_fields_typed c = true) cases ->
      exists st, generate_stats cases = Ok st) /\
  (forall record k,
      Spec.counts_as_worded record = Ok k -> Spec.injury_counts record = Ok k).
Proof.
  split; [|split].
  - intros cases st Hgen.
    destruct (stats_loop_totals cases _ _ Hgen)
      as (counts & Hall & Ha & Hf & Hs & Hm & Hn).
    cbn in Ha, Hf, Hs, Hm, Hn.
    exists counts. split; [exact Hall|].
    pose proof (buckets_partition counts) as Hsum.
    pose proof (Forall2_length Hall) as Hlen.
    repeat split; lia.
  - intros cases Hall. apply stats_loop_returns. exact Hall.
  - apply counts_as_worded_read.
Qed.

Lemma generate_stats_buckets_witness :
  exists st,
    generate_stats
      [JDict [("cm_fatalInjuryCount", JInt 1); ("cm_seriousInjuryCount", JInt 2);
              ("cm_state", JStr "OK"); ("cm_highestInjury", JStr "Fatal")];
       JDict [("cm_state", JStr "TX"); ("cm_highestInjury", JStr "None")]]
    = Ok st /\
    accidents (totals st) = 2 /\
    fatal_accidents (totals st) = 1 /\
    serious_injury_accidents (totals st) = 0 /\
    minor_injury_accidents (totals st) = 0 /\
    no_injury_accidents (totals st) = 1.
Proof.
  destruct generate_stats_buckets as (Hbuckets & Hreturns & Hworded).
  destruct (Hreturns
              [JDict [("cm_fatalInjuryCount", JInt 1);
                      ("cm_seriousInjuryCount", JInt 2);
                      ("cm_state", JStr "OK"); ("cm_highestInjury", JStr "Fatal")];
               JDict [("cm_state", JStr "TX"); ("cm_highestInjury", JStr "None")]])
    as [st Hst].
  - repeat constructor.
  - exists st. split; [exact Hst|].
    destruct (Hbuckets _ _ Hst)
      as (counts & Hall & Hf & Hs & Hm & Hn & Ha & _).
    assert (Hcounts : counts = [(1, 2, 0); (0, 0, 0)]).
    { destruct counts as [|k1 [|k2 [|k3 rest]]];
        try (apply Forall2_length in Hall; discriminate Hall).
      pose proof (Forall2_cons_iff
                    (fun c k => Spec.injury_counts c = Ok k)) as Hcons.
      apply Hcons in Hall. destruct Hall as [H1 Hall].
      apply Hcons in Hall. destruct Hall as [H2 _].
      cbv beta in H1, H2.
      match type of H1 with
      | Spec.injury_counts ?r = _ => rewrite (Hworded r (1, 2, 0) eq_refl) in H1
      end.
      match type of H2 with
      | Spec.injury_counts ?r = _ => rewrite (Hworded r (0, 0, 0) eq_refl) in H2
      end.
      injection H1 as <-. injection H2 as <-. reflexivity. }
    subst counts. rewrite Ha, Hf, Hs, Hm, Hn.
    repeat split; reflexivity.
Defined.

End StatsFacts.

(* ================================================================== *)
(** ** Properties of [sort_cases] *)
(* ================================================================== *)

Module SortFacts.
Import Py DataProcessor.

Section SortedFacts.
Context {K A : Type}.
Variable lt : K -> K -> result bool.

Lemma decorate_total (key : A -> result K) (f : A -> K) (l : list A) :
  (forall x, key x = Ok (f x)) ->
  decorate key l = Ok (map (fun x => (f x, x)) l).
Proof.
  intros Hkey. induction l as [|x l IH]; [reflexivity|].
  cbn [decorate map]. rewrite Hkey, IH. reflexivity.
Qed.

Lemma insert_permutation (x : K * A) (l : list (K * A)) :
  forall r, insert lt x l = Ok r -> Permutation (x :: l) r.
Proof.
  induction l as [|y l IH]; intros r Hins.
  - injection Hins as <-. apply Permutation_refl.
  - cbn [insert] in Hins.
    destruct (lt (fst y) (fst x)) as [[|]|]; cbn [bind] in Hins;
      try discriminate.
    + destruct (insert lt x l) as [r'|]; [|discriminate].
      injection Hins as <-.
      apply perm_trans with (y :: x :: l); [apply perm_swap|].
      apply perm_skip. apply IH. reflexivity.
    + injection Hins as <-. apply Permutation_refl.
Qed.

Lemma stable_sort_permutation (l : list (K * A)) :
  forall r, stable_sort lt l = Ok r -> Permutation l r.
Proof.
  induction l as [|x l IH]; intros r Hsort.
  - injection Hsort as <-. apply perm_nil.
  - cbn [stable_sort] in Hsort.
    destruct (stable_sort lt l) as [r'|]; [|discriminate].
    cbn [bind] in Hsort.
    apply perm_trans with (x :: r').
    + apply perm_skip. apply IH. reflexivity.
    + apply insert_permutation. exact Hsort.
Qed.

Lemma insert_returns (x : K * A) (l : list (K * A)) :
  (forall y, In y l -> exists b, lt (fst y) (fst x) = Ok b) ->
  exists r, insert lt x l = Ok r.
Proof.
  induction l as [|y l IH]; intros Hcmp; [eexists; reflexivity|].
  cbn [insert].
  destruct (Hcmp y (or_introl eq_refl)) as [b ->]. cbn [bind].
  destruct b; [|eexists; reflexivity].
  destruct IH as [r ->]; [|eexists; reflexivity].
  intros z Hz. apply Hcmp. right. exact Hz.
Qed.

Lemma stable_sort_returns (l : list (K * A)) :
  (forall x y, In x l -> In y l -> exists b, lt (fst x) (fst y) = Ok b) ->
  exists r, stable_sort lt l = Ok r.
Proof.
  induction l as [|x l IH]; intros Hcmp; [eexists; reflexivity|].
  cbn [stable_sort].
  destruct IH as [r Hr].
  { intros y z Hy Hz. apply Hcmp; right; assumption. }
  rewrite Hr. cbn [bind]. apply insert_returns.
  intros y Hy. apply Hcmp; [right | left; reflexivity].
  apply Permutation_in with r; [|exact Hy].
  apply Permutation_sym, stable_sort_permutation, Hr.
Qed.

Lemma map_snd_decorated (f : A -> K) (l : list A) :
  map snd (map (fun x => (f x, x)) l) = l.
Proof.
  induction l as [|x l IH]; [reflexivity|]. cbn. rewrite IH. reflexivity.
Qed.

(** With a key function that returns and keys that can all be compared,
    [sorted] returns a permutation of its argument. *)
Lemma sorted_permutation (key : A -> result K) (f : A -> K) (l : list A)
    (reverse : bool) :
  (forall x, key x = Ok (f x)) ->
  (forall x y, In x l -> In y l -> exists b, lt (f x) (f y) = Ok b) ->
  exists out, sorted lt l key reverse = Ok out /\ Permutation l out.
Proof.
  intros Hkey Hcmp. unfold sorted.
  rewrite (decorate_total key f l Hkey). cbn [bind].
  set (keyed := map (fun x => (f x, x)) l).
  assert (Hkeyed : forall p q, In p keyed -> In q keyed ->
                               exists b, lt (fst p) (fst q) = Ok b).
  { intros p q Hp Hq. subst keyed.
    apply in_map_iff in Hp. destruct Hp as (x & <- & Hx).
    apply in_map_iff in Hq. destruct Hq as (y & <- & Hy).
    apply Hcmp; assumption. }
  destruct reverse.
  - destruct (stable_sort_returns (rev keyed)) as [r Hr].
    { intros p q Hp Hq. apply Hkeyed; apply in_rev; assumption. }
    rewrite Hr. cbn [bind]. eexists. split; [reflexivity|].
    rewrite <- (map_snd_decorated f l) at 1. fold keyed.
    apply Permutation_map.
    apply perm_trans with (rev keyed); [apply Permutation_rev|].
    apply perm_trans with r; [|apply Permutation_rev].
    apply stable_sort_permutation. exact Hr.
  - destruct (stable_sort_returns keyed Hkeyed) as [r Hr].
    rewrite Hr. cbn [bind]. eexists. split; [reflexivity|].
    rewrite <- (map_snd_decorated f l) at 1. fold keyed.
    apply Permutation_map. apply stable_sort_permutation. exact Hr.
Qed.
End SortedFacts.

Lemma sort_key_total (field : string) (case : json) :
  sort_key field case = Ok (Spec.key_of field case).
Proof.
  unfold sort_key, Spec.key_of.
  rewrite PathFacts.sort_get_nested_value_resolve. reflexivity.
Qed.

Lemma is_none_false (v : json) : v <> JNull -> is_none v = false.
Proof. destruct v; intros H; try reflexivity. contradiction. Qed.

Lemma is_none_true (v : json) : is_none v = true -> v = JNull.
Proof. destruct v; intros H; try discriminate. reflexivity. Qed.

(** Two keys are compared by [<] on their values only when both values are
    present and not [==]. *)
Lemma key_lt_returns (v1 v2 : json) :
  (v1 <> JNull -> v2 <> JNull -> exists b, py_lt v1 v2 = Ok b) ->
  exists b, key_lt (is_none v1, v1) (is_none v2, v2) = Ok b.
Proof.
  intros Hcmp. unfold key_lt.
  destruct (negb (Bool.eqb (is_none v1) (is_none v2))) eqn:Hsame;
    [eexists; reflexivity|].
  destruct (py_is_or_eq v1 v2) eqn:Heq; [eexists; reflexivity|].
  apply Hcmp; intros ->; cbn [is_none] in Hsame.
  - destruct (is_none v2) eqn:Hv2; [|discriminate].
    apply is_none_true in Hv2. subst v2. discriminate Heq.
  - destruct (is_none v1) eqn:Hv1; [|discriminate].
    apply is_none_true in Hv1. subst v1. discriminate Heq.
Qed.

(** C10: for a non-empty sort field and either order, [sort_cases] returns,
    without raising, a permutation of its input whenever the resolved
    values that are not [None] can all be compared with [<]. *)
Theorem sort_cases_permutation (cases : list json) (field order : string) :
  field <> EmptyString ->
  (forall c1 c2 v1 v2,
      In c1 cases -> In c2 cases ->
      SortCases.get_nested_value c1 field = Ok v1 ->
      SortCases.get_nested_value c2 field = Ok v2 ->
      v1 <> JNull -> v2 <> JNull ->
      exists b, py_lt v1 v2 = Ok b) ->
  exists out, sort_cases cases field order = Ok out /\ Permutation cases out.
Proof.
  intros Hfield Hcmp. unfold sort_cases.
  apply String.eqb_neq in Hfield. rewrite Hfield.
  apply sorted_permutation with (f := Spec.key_of field).
  - apply sort_key_total.
  - intros c1 c2 H1 H2. unfold Spec.key_of. apply key_lt_returns.
    apply (Hcmp c1 c2); try assumption;
      apply PathFacts.sort_get_nested_value_resolve.
Qed.

Lemma sort_cases_permutation_witness :
  exists out,
    sort_cases [JDict [("n", JInt 2)]; JDict []; JDict [("n", JInt 1)]] "n" "asc"
    = Ok out
    /\ Permutation [JDict [("n", JInt 2)]; JDict []; JDict [("n", JInt 1)]] out.
Proof.
  apply sort_cases_permutation.
  - discriminate.
  - intros c1 c2 v1 v2 H1 H2 E1 E2 N1 N2.
    cbn [In] in H1, H2.
    destruct H1 as [<- | [<- | [<- | []]]];
      vm_compute in E1; injection E1 as <-; try (exfalso; apply N1; reflexivity);
      destruct H2 as [<- | [<- | [<- | []]]];
      vm_compute in E2; injection E2 as <-; try (exfalso; apply N2; reflexivity);
      eexists; reflexivity.
Defined.

(** *** Where the null records end up *)

Lemma insert_nulls_last (field : string) (x : (bool * json) * json)
    (l : list ((bool * json) * json)) :
  Spec.keyed_by field x -> Forall (Spec.keyed_by field) l ->
  Spec.nulls_last (map Spec.flag l) ->
  forall r, insert key_lt x l = Ok r -> Spec.nulls_last (map Spec.flag r).
Proof.
  intros Hx Hl. induction Hl as [|y l Hy Hl IH]; intros Hnl r Hins.
  - injection Hins as <-. cbn. split; [intros _; constructor | exact I].
  - cbn [insert] in Hins.
    destruct x as [[nx vx] cx], y as [[ny vy] cy].
    unfold Spec.keyed_by, Spec.key_of in Hx, Hy. cbn [fst snd] in Hx, Hy, Hins.
    injection Hx as Hnx Hvx. injection Hy as Hny Hvy.
    rewrite <- Hvx in Hnx. rewrite <- Hvy in Hny.
    cbn [map Spec.nulls_last Spec.flag fst] in Hnl. destruct Hnl as [Hhead Htail].
    destruct (key_lt (ny, vy) (nx, vx)) as [[|]|] eqn:Hlt;
      cbn [bind] in Hins; [| |discriminate].
    + (* [y < x]: [y] stays in front, and then [y] is not null *)
      destruct (insert key_lt (nx, vx, cx) l) as [r'|] eqn:Hr';
        cbn [bind] in Hins; [|discriminate].
      injection Hins as <-. cbn [map Spec.nulls_last Spec.flag fst].
      split; [|apply IH; [exact Htail | reflexivity]].
      intros ->. exfalso.
      symmetry in Hny. apply is_none_true in Hny. subst vy.
      unfold key_lt in Hlt. destruct nx; cbn in Hlt; [|discriminate].
      symmetry in Hnx. apply is_none_true in Hnx. subst vx.
      cbn in Hlt. discriminate.
    + (* not [y < x]: [x] goes in front, and if [x] is null so is [y] *)
      injection Hins as <-. cbn [map Spec.nulls_last Spec.flag fst].
      split; [|split; assumption].
      intros ->.
      assert (Hy_null : ny = true).
      { destruct ny; [reflexivity|]. unfold key_lt in Hlt. cbn in Hlt.
        discriminate. }
      constructor; [symmetry; exact Hy_null | apply Hhead; exact Hy_null].
Qed.

Lemma stable_sort_nulls_last (field : string) (l : list ((bool * json) * json)) :
  Forall (Spec.keyed_by field) l ->
  forall r, stable_sort key_lt l = Ok r -> Spec.nulls_last (map Spec.flag r).
Proof.
  induction 1 as [|x l Hx Hl IH]; intros r Hsort.
  - injection Hsort as <-. exact I.
  - cbn [stable_sort] in Hsort.
    destruct (stable_sort key_lt l) as [r'|] eqn:Hr'; [|discriminate].
    cbn [bind] in Hsort.
    apply (insert_nulls_last field x r'); try assumption.
    + apply Permutation_Forall with l; [|exact Hl].
      apply stable_sort_permutation with (lt := key_lt). exact Hr'.
    + apply IH. reflexivity.
Qed.

Lemma nulls_last_after (flags : list bool) :
  Spec.nulls_last flags ->
  forall i j b,
    nth_error flags i = Some true -> (i < j)%nat ->
    nth_error flags j = Some b -> b = true.
Proof.
  induction flags as [|n rest IH]; intros Hnl i j b Hi Hij Hj.
  - destruct i; discriminate.
  - destruct Hnl as [Hhead Htail].
    destruct j as [|j]; [lia|]. cbn [nth_error] in Hj.
    destruct i as [|i].
    + injection Hi as ->.
      apply nth_error_In in Hj.
      pose proof (Hhead eq_refl) as Hall.
      rewrite Forall_forall in Hall. symmetry. apply Hall. exact Hj.
    + cbn [nth_error] in Hi. apply (IH Htail i j); [assumption | lia | assumption].
Qed.

(** In ascending order the records without a value do come last. *)
Lemma sort_cases_asc_absent_last (cases : list json) (field order : string) :
  field <> EmptyString -> lower order <> "desc" ->
  forall out, sort_cases cases field order = Ok out ->
              Spec.absent_after_present field out.
Proof.
  intros Hfield Horder out Hsort. unfold sort_cases in Hsort.
  apply String.eqb_neq in Hfield, Horder. rewrite Hfield, Horder in Hsort.
  unfold sorted in Hsort.
  rewrite (decorate_total (sort_key field) (Spec.key_of field) cases
             (sort_key_total field)) in Hsort.
  cbn [bind] in Hsort.
  set (keyed := map (fun c => (Spec.key_of field c, c)) cases) in Hsort.
  assert (Hkeyed : Forall (Spec.keyed_by field) keyed).
  { subst keyed. apply Forall_forall. intros x Hx.
    apply in_map_iff in Hx. destruct Hx as (c & <- & _). reflexivity. }
  destruct (stable_sort key_lt keyed) as [r|] eqn:Hr; [|discriminate].
  cbn [bind] in Hsort. injection Hsort as <-.
  pose proof (stable_sort_nulls_last field keyed Hkeyed r Hr) as Hnl.
  assert (Hr_keyed : Forall (Spec.keyed_by field) r).
  { apply Permutation_Forall with keyed; [|exact Hkeyed].
    apply stable_sort_permutation with (lt := key_lt). exact Hr. }
  assert (Hflag : forall i c,
             nth_error (map snd r) i = Some c ->
             nth_error (map Spec.flag r) i
             = Some (is_none (Spec.absent_as_null (Spec.resolve c field)))).
  { intros i c Hi. rewrite nth_error_map in Hi |- *.
    destruct (nth_error r i) as [x|] eqn:Hx; [|discriminate].
    cbn [option_map] in Hi |- *. injection Hi as <-.
    rewrite Forall_forall in Hr_keyed.
    pose proof (Hr_keyed x (nth_error_In _ _ Hx)) as Hk.
    unfold Spec.keyed_by, Spec.key_of in Hk. unfold Spec.flag. rewrite Hk. reflexivity. }
  intros i j a p Ha Hp Habs Hpres.
  apply Hflag in Ha, Hp. rewrite Habs in Ha. cbn [is_none] in Ha.
  rewrite (is_none_false _ Hpres) in Hp.
  destruct (Nat.lt_trichotomy j i) as [Hlt | [Heq | Hgt]]; [exact Hlt | |].
  - subst j. rewrite Ha in Hp. discriminate.
  - pose proof (nulls_last_after _ Hnl i j false Ha Hgt Hp). discriminate.
Qed.

(** C1: in descending order [sort_cases] puts the records without a value
    first, not last.  With records [{"a": 1}] and [{}], field ["a"] and
    order ["desc"], the record whose value is absent comes out before the
    record whose value is present, which the property "absent sorts after
    present in both orders" forbids. *)
Theorem sort_cases_desc_absent_first :
  sort_cases [JDict [("a", JInt 1)]; JDict []] "a" "desc"
  = Ok [JDict []; JDict [("a", JInt 1)]]
  /\ ~ Spec.absent_after_present "a" [JDict []; JDict [("a", JInt 1)]].
Proof.
  split; [reflexivity|].
  intros Hlast.
  specialize (Hlast 0%nat 1%nat (JDict []) (JDict [("a", JInt 1)])
                eq_refl eq_refl eq_refl).
  assert (Hlt : (1 < 0)%nat) by (apply Hlast; discriminate).
  lia.
Qed.

End SortFacts.

(* ================================================================== *)
(** ** Properties of the streaming client *)
(* ================================================================== *)

Module ClientFacts.
Import Py NtsbClient.

Lemma delivered_app (xs ys : list event) :
  delivered (xs ++ ys) = delivered xs ++ delivered ys.
Proof.
  induction xs as [|[p | data | s] xs IH]; cbn; rewrite ?IH; reflexivity.
Qed.

Lemma requests_app (xs ys : list event) :
  requests (xs ++ ys) = (requests xs + requests ys)%nat.
Proof.
  induction xs as [|[p | data | s] xs IH]; cbn; rewrite ?IH; reflexivity.
Qed.

Lemma sleeps_app (xs ys : list event) :
  sleeps (xs ++ ys) = sleeps xs ++ sleeps ys.
Proof.
  induction xs as [|[p | data | s] xs IH]; cbn; rewrite ?IH; reflexivity.
Qed.

Lemma delivered_chunks (cs : list bytes) : delivered (map Chunk cs) = cs.
Proof. induction cs as [|c cs IH]; cbn; rewrite ?IH; reflexivity. Qed.

Lemma requests_chunks (cs : list bytes) : requests (map Chunk cs) = O.
Proof. induction cs as [|c cs IH]; cbn; rewrite ?IH; reflexivity. Qed.

Lemma sleeps_chunks (cs : list bytes) : sleeps (map Chunk cs) = [].
Proof. induction cs as [|c cs IH]; cbn; rewrite ?IH; reflexivity. Qed.

Lemma stream_loop_step (fuel : nat) (up : upstream) (payload : json) (k : Z) :
  stream_loop (S fuel) up payload k
  = let a := up payload (k + 1) in
    match Spec.failure a with
    | None => Some (Spec.seen payload a, Completed)
    | Some e =>
        match handler e (k + 1) with
        | Reraise => Some (Spec.seen payload a, Raised e)
        | Backoff =>
            option_map
              (prepend (Spec.seen payload a
                        ++ [Sleep (Qmult RETRY_BACKOFF_SECONDS (inject_Z (k + 1)))]))
              (stream_loop fuel up payload (k + 1))
        end
    end.
Proof.
  cbn [stream_loop]. cbv zeta. unfold Spec.seen.
  destruct (up payload (k + 1)) as [e | chunks [e|]]; reflexivity.
Qed.

Lemma handler_transient (e : exception) (a : Z) :
  Spec.transient e = true ->
  handler e a = if a >=? MAX_RETRIES then Reraise else Backoff.
Proof. destruct e; intros H; try discriminate; reflexivity. Qed.

Lemma handler_backoff (e : exception) (a : Z) :
  handler e a = Backoff -> a < MAX_RETRIES.
Proof.
  destruct e as [ | | | | msg | | | | status | name]; cbn [handler];
    try discriminate.
  1-3: destruct (a >=? MAX_RETRIES) eqn:H; [discriminate|]; intros _;
       rewrite Z.geb_leb in H; apply Z.leb_gt in H; exact H.
  destruct (500 <=? status); cbn [andb]; [|discriminate].
  destruct (status <? 600); cbn [andb]; [|discriminate].
  destruct (a <? MAX_RETRIES) eqn:H; [|discriminate].
  intros _. apply Z.ltb_lt in H. exact H.
Qed.

Lemma seen_requests (payload : json) (a : attempt_result) :
  requests (Spec.seen payload a) = 1%nat.
Proof. unfold Spec.seen. cbn [requests]. rewrite requests_chunks. reflexivity. Qed.

Lemma seen_delivered (payload : json) (a : attempt_result) :
  delivered (Spec.seen payload a) = Spec.received a.
Proof. unfold Spec.seen. cbn [delivered]. apply delivered_chunks. Qed.

Lemma seen_sleeps (payload : json) (a : attempt_result) :
  sleeps (Spec.seen payload a) = [].
Proof. unfold Spec.seen. cbn [sleeps]. apply sleeps_chunks. Qed.

(** The loop ends within [MAX_RETRIES] requests, counted from the value of
    [attempt] it is entered with. *)
Lemma stream_loop_bounded (up : upstream) (payload : json) (fuel : nat) :
  forall k,
    (1 <= fuel)%nat -> (Z.to_nat (MAX_RETRIES - k) <= fuel)%nat ->
    exists evs out,
      stream_loop fuel up payload k = Some (evs, out) /\
      (requests evs <= Nat.max 1 (Z.to_nat (MAX_RETRIES - k)))%nat.
Proof.
  induction fuel as [|fuel IH]; intros k Hpos Hfuel; [lia|].
  rewrite stream_loop_step. cbv zeta.
  destruct (Spec.failure (up payload (k + 1))) as [e|].
  - destruct (handler e (k + 1)) eqn:Hh.
    + do 2 eexists. split; [reflexivity|]. rewrite seen_requests. lia.
    + apply handler_backoff in Hh. unfold MAX_RETRIES in *.
      destruct (IH (k + 1)) as (evs & out & Hloop & Hreq); [lia | lia |].
      rewrite Hloop. cbn [option_map prepend fst snd].
      do 2 eexists. split; [reflexivity|].
      rewrite !requests_app, seen_requests. cbn [requests fst]. lia.
  - do 2 eexists. split; [reflexivity|]. rewrite seen_requests. lia.
Qed.

Lemma attempts_made_S (up : upstream) (payload : json) (k : Z) (n : nat) :
  Spec.attempts_made up payload k (S n)
  = up payload (k + 1) :: Spec.attempts_made up payload (k + 1) n.
Proof.
  unfold Spec.attempts_made. cbn [seq map]. f_equal.
  rewrite <- seq_shift, map_map. apply map_ext. intros i.
  f_equal. lia.
Qed.

(** The caller receives every chunk of every attempt made. *)
Lemma stream_loop_delivered (up : upstream) (payload : json) (fuel : nat) :
  forall k evs out,
    stream_loop fuel up payload k = Some (evs, out) ->
    delivered evs
    = List.concat (map Spec.received (Spec.attempts_made up payload k (requests evs))).
Proof.
  induction fuel as [|fuel IH]; intros k evs out Hloop; [discriminate|].
  rewrite stream_loop_step in Hloop. cbv zeta in Hloop.
  destruct (Spec.failure (up payload (k + 1))) as [e|].
  - destruct (handler e (k + 1)).
    + injection Hloop as <- <-.
      rewrite seen_requests, seen_delivered, attempts_made_S. cbn.
      rewrite app_nil_r. reflexivity.
    + destruct (stream_loop fuel up payload (k + 1)) as [[evs' out']|] eqn:Hrest;
        [|discriminate].
      cbn [option_map prepend fst snd] in Hloop.
      remember (Spec.seen payload (up payload (k + 1))) as first eqn:Hfirst.
      injection Hloop as <- <-. subst first.
      rewrite !requests_app, !delivered_app, seen_requests, seen_delivered.
      cbn [requests delivered Nat.add]. rewrite attempts_made_S.
      cbn [map List.concat]. rewrite (IH _ _ _ Hrest), app_nil_r. reflexivity.
  - injection Hloop as <- <-.
    rewrite seen_requests, seen_delivered, attempts_made_S. cbn.
    rewrite app_nil_r. reflexivity.
Qed.

Lemma stream_loop_no_partial (up : upstream) (payload : json) (fuel : nat) :
  (forall n e, Spec.failure (up payload n) = Some e ->
               Spec.received (up payload n) = []) ->
  forall k evs out,
    stream_loop fuel up payload k = Some (evs, out) ->
    match out with
    | Completed => exists n, up payload n = Streamed (delivered evs) None
    | Raised _ => delivered evs = []
    end.
Proof.
  intros Hclean.
  induction fuel as [|fuel IH]; intros k evs out Hloop; [discriminate|].
  rewrite stream_loop_step in Hloop. cbv zeta in Hloop.
  destruct (Spec.failure (up payload (k + 1))) as [e|] eqn:Hfail.
  - pose proof (Hclean _ _ Hfail) as Hnone.
    destruct (handler e (k + 1)).
    + injection Hloop as <- <-. rewrite seen_delivered. exact Hnone.
    + destruct (stream_loop fuel up payload (k + 1)) as [[evs' out']|] eqn:Hrest;
        [|discriminate].
      cbn [option_map prepend fst snd] in Hloop.
      remember (Spec.seen payload (up payload (k + 1))) as first eqn:Hfirst.
      injection Hloop as <- <-. subst first.
      rewrite !delivered_app, seen_delivered, Hnone. cbn [delivered app].
      apply (IH _ _ _ Hrest).
  - injection Hloop as <- <-. rewrite seen_delivered.
    exists (k + 1).
    destruct (up payload (k + 1)) as [e | chunks [e|]]; try discriminate.
    reflexivity.
Qed.

Lemma handler_last (e : exception) : handler e MAX_RETRIES = Reraise.
Proof.
  destruct e as [ | | | | msg | | | | status | name]; try reflexivity.
  cbn [handler]. rewrite Z.ltb_irrefl, andb_false_r. reflexivity.
Qed.

Lemma handler_client_error (status a : Z) :
  ~ (500 <= status < 600) -> handler (HTTPStatusError status) a = Reraise.
Proof.
  intros Hnot. cbn [handler].
  destruct (500 <=? status) eqn:Hlo; [|reflexivity].
  destruct (status <? 600) eqn:Hhi; [|reflexivity].
  apply Z.leb_le in Hlo. apply Z.ltb_lt in Hhi. lia.
Qed.

(** The first two attempts fail and are retried; what happens then is
    decided by the third. *)
Lemma two_retries (up : upstream) (payload : json) (fuel : nat) (e1 e2 : exception) :
  Spec.failure (up payload 1) = Some e1 -> Spec.transient e1 = true ->
  Spec.failure (up payload 2) = Some e2 -> Spec.transient e2 = true ->
  _stream_file_export (S (S (S fuel))) up payload
  = Some ((Spec.seen payload (up payload 1) ++ [Sleep (inject_Z 1)])
          ++ (Spec.seen payload (up payload 2) ++ [Sleep (inject_Z 2)])
          ++ Spec.seen payload (up payload 3),
          match Spec.failure (up payload 3) with
          | None => Completed
          | Some e3 => Raised e3
          end).
Proof.
  intros H1 T1 H2 T2. unfold _stream_file_export.
  rewrite stream_loop_step. cbv zeta. change (0 + 1) with 1.
  rewrite H1, (handler_transient _ _ T1).
  change (1 >=? MAX_RETRIES) with false. cbv iota.
  rewrite stream_loop_step. cbv zeta. change (1 + 1) with 2.
  rewrite H2, (handler_transient _ _ T2).
  change (2 >=? MAX_RETRIES) with false. cbv iota.
  rewrite stream_loop_step. cbv zeta. change (2 + 1) with 3.
  destruct (Spec.failure (up payload 3)) as [e3|].
  - change 3 with MAX_RETRIES at 1. rewrite handler_last. reflexivity.
  - reflexivity.
Qed.

Lemma two_retries_counts (payload : json) (a1 a2 a3 : attempt_result) :
  let evs := (Spec.seen payload a1 ++ [Sleep (inject_Z 1)])
             ++ (Spec.seen payload a2 ++ [Sleep (inject_Z 2)])
             ++ Spec.seen payload a3 in
  requests evs = 3%nat /\ sleeps evs = [inject_Z 1; inject_Z 2].
Proof.
  cbv zeta. rewrite !requests_app, !sleeps_app, !seen_requests, !seen_sleeps.
  split; reflexivity.
Qed.

(** C3: at most three requests are made.  When the first two attempts fail
    with a connection failure, a read timeout or malformed framing and the
    third succeeds, the stream completes after exactly three requests, with
    pauses of 1 and 2 seconds; when the third attempt fails too, its
    exception is raised after exactly three requests; an error status
    outside 500..599 is raised on the attempt that meets it, with no pause
    and no further request. *)
Theorem retry_policy :
  (forall up payload fuel e1 e2,
      (3 <= fuel)%nat ->
      Spec.failure (up payload 1) = Some e1 -> Spec.transient e1 = true ->
      Spec.failure (up payload 2) = Some e2 -> Spec.transient e2 = true ->
      Spec.failure (up payload 3) = None ->
      exists evs,
        _stream_file_export fuel up payload = Some (evs, Completed) /\
        requests evs = 3%nat /\
        sleeps evs = [inject_Z 1; inject_Z 2]) /\
  (forall up payload fuel e1 e2 e3,
      (3 <= fuel)%nat ->
      Spec.failure (up payload 1) = Some e1 -> Spec.transient e1 = true ->
      Spec.failure (up payload 2) = Some e2 -> Spec.transient e2 = true ->
      Spec.failure (up payload 3) = Some e3 ->
      exists evs,
        _stream_file_export fuel up payload = Some (evs, Raised e3) /\
        requests evs = 3%nat /\
        sleeps evs = [inject_Z 1; inject_Z 2]) /\
  (forall up payload fuel k status,
      ~ (500 <= status < 600) ->
      up payload (k + 1) = Refused (HTTPStatusError status) ->
      stream_loop (S fuel) up payload k
      = Some ([Request payload], Raised (HTTPStatusError status))) /\
  (forall up payload fuel,
      (3 <= fuel)%nat ->
      exists evs out,
        _stream_file_export fuel up payload = Some (evs, out) /\
        (requests evs <= 3)%nat).
Proof.
  split; [|split; [|split]].
  - intros up payload fuel e1 e2 Hfuel H1 T1 H2 T2 H3.
    destruct fuel as [|[|[|fuel]]]; try lia.
    rewrite (two_retries up payload fuel e1 e2 H1 T1 H2 T2), H3.
    eexists. split; [reflexivity|]. apply two_retries_counts.
  - intros up payload fuel e1 e2 e3 Hfuel H1 T1 H2 T2 H3.
    destruct fuel as [|[|[|fuel]]]; try lia.
    rewrite (two_retries up payload fuel e1 e2 H1 T1 H2 T2), H3.
    eexists. split; [reflexivity|]. apply two_retries_counts.
  - intros up payload fuel k status Hstatus Hup.
    rewrite stream_loop_step. cbv zeta. rewrite Hup. cbn [Spec.failure].
    rewrite (handler_client_error _ _ Hstatus). reflexivity.
  - intros up payload fuel Hfuel.
    destruct (stream_loop_bounded up payload fuel 0) as (evs & out & Hrun & Hreq).
    + lia.
    + unfold MAX_RETRIES. lia.
    + exists evs, out. split; [exact Hrun|].
      unfold MAX_RETRIES in Hreq. lia.
Qed.

Lemma retry_policy_witness :
  (exists evs,
      _stream_file_export 3 Upstreams.fails_twice JNull = Some (evs, Completed) /\
      requests evs = 3%nat /\ sleeps evs = [inject_Z 1; inject_Z 2]) /\
  (exists evs,
      _stream_file_export 3 Upstreams.always_down JNull
      = Some (evs, Raised ConnectError) /\
      requests evs = 3%nat /\ sleeps evs = [inject_Z 1; inject_Z 2]) /\
  stream_loop 1 Upstreams.not_found JNull 0
  = Some ([Request JNull], Raised (HTTPStatusError 404)) /\
  (exists evs out,
      _stream_file_export 3 Upstreams.drops_mid_body JNull = Some (evs, out) /\
      (requests evs <= 3)%nat).
Proof.
  destruct retry_policy as (Hsucceeds & Hexhausted & Hstatus & Hbound).
  split; [|split; [|split]].
  - apply (Hsucceeds Upstreams.fails_twice JNull 3%nat ConnectError ConnectError);
      first [lia | reflexivity].
  - apply (Hexhausted Upstreams.always_down JNull 3%nat ConnectError ConnectError);
      first [lia | reflexivity].
  - apply Hstatus; [lia | reflexivity].
  - apply Hbound. lia.
Defined.

(** C2, as the code has it: the caller receives, in order, every chunk
    received on every attempt made, the chunks of attempts that later fail
    included.  When every failing attempt fails before its first chunk, the
    caller observes either exactly the body of the successful attempt or an
    exception with no chunk before it.  Draining the generator always
    ends. *)
Theorem chunks_of_every_attempt_are_delivered :
  (forall up payload fuel evs out,
      _stream_file_export fuel up payload = Some (evs, out) ->
      delivered evs
      = List.concat (map Spec.received
                       (Spec.attempts_made up payload 0 (requests evs)))) /\
  (forall up payload,
      (forall n e, Spec.failure (up payload n) = Some e ->
                   Spec.received (up payload n) = []) ->
      Spec.no_partial_delivery up payload) /\
  (forall up payload fuel,
      (3 <= fuel)%nat ->
      exists evs out, _stream_file_export fuel up payload = Some (evs, out)).
Proof.
  split; [|split].
  - intros up payload fuel evs out Hrun.
    apply (stream_loop_delivered up payload fuel 0 evs out Hrun).
  - intros up payload Hclean fuel evs out Hrun.
    apply (stream_loop_no_partial up payload fuel Hclean 0 evs out Hrun).
  - intros up payload fuel Hfuel.
    destruct (stream_loop_bounded up payload fuel 0) as (evs & out & Hrun & _).
    + lia.
    + unfold MAX_RETRIES. lia.
    + exists evs, out. exact Hrun.
Qed.

Lemma chunks_of_every_attempt_are_delivered_witness :
  Spec.no_partial_delivery Upstreams.fails_twice JNull /\
  delivered
    [Request JNull; Chunk Upstreams.chunk1; Sleep (inject_Z 1);
     Request JNull; Chunk Upstreams.chunk1; Chunk Upstreams.chunk2]
  = [Upstreams.chunk1; Upstreams.chunk1; Upstreams.chunk2] /\
  exists evs out,
    _stream_file_export 3 Upstreams.drops_mid_body JNull = Some (evs, out).
Proof.
  destruct chunks_of_every_attempt_are_delivered as (Hall & Hclean & Hends).
  split; [|split].
  - apply Hclean. intros n e. unfold Upstreams.fails_twice.
    destruct (n <=? 2); [reflexivity | discriminate].
  - exact (Hall Upstreams.drops_mid_body JNull 3%nat
             [Request JNull; Chunk Upstreams.chunk1; Sleep (inject_Z 1);
              Request JNull; Chunk Upstreams.chunk1; Chunk Upstreams.chunk2]
             Completed eq_refl).
  - apply Hends. lia.
Defined.

(** Counterexample to C2 as stated: when the first attempt times out after one chunk
    and the retry succeeds, the caller has received the chunk of the failed
    attempt followed by the whole body. *)
Lemma partial_body_reaches_caller :
  _stream_file_export 3 Upstreams.drops_mid_body JNull
  = Some ([Request JNull; Chunk Upstreams.chunk1; Sleep (inject_Z 1);
           Request JNull; Chunk Upstreams.chunk1; Chunk Upstreams.chunk2],
          Completed)
  /\ ~ Spec.no_partial_delivery Upstreams.drops_mid_body JNull.
Proof.
  split; [reflexivity|].
  intros Hno.
  specialize (Hno 3%nat _ _ eq_refl). cbn in Hno.
  destruct Hno as [n Hn]. unfold Upstreams.drops_mid_body in Hn.
  destruct (n =? 1); discriminate Hn.
Qed.

(** C9: draining the generator returned by either placeholder lookup
    raises [NotImplementedError] at once, whatever the arguments: no chunk
    is yielded and no request is made. *)
Theorem placeholder_lookups_raise (ntsb_num : string) (mkey : Z) (mode : string) :
  (exists msg,
      stream_ntsb_zip_by_ntsb_number ntsb_num mode
      = ([], Raised (NotImplementedError msg))) /\
  (exists msg,
      stream_ntsb_zip_by_mkey mkey mode
      = ([], Raised (NotImplementedError msg))) /\
  delivered (fst (stream_ntsb_zip_by_ntsb_number ntsb_num mode)) = [] /\
  delivered (fst (stream_ntsb_zip_by_mkey mkey mode)) = [].
Proof.
  split; [|split; [|split]]; try reflexivity; eexists; reflexivity.
Qed.

End ClientFacts.

(* ================================================================== *)
(** ** Further properties of the streaming client *)
(* ================================================================== *)

Module ClientMore.
Import Py NtsbClient.

Lemma handler_server_error (e : exception) (a : Z) :
  Terms.server_error e = true ->
  handler e a = if a <? MAX_RETRIES then Backoff else Reraise.
Proof.
  destruct e as [ | | | | msg | | | | status | name]; cbn [Terms.server_error];
    try discriminate.
  intros H. cbn [handler]. rewrite H. reflexivity.
Qed.

Lemma handler_unnamed (e : exception) (a : Z) :
  Terms.unnamed e = true -> handler e a = Reraise.
Proof.
  destruct e as [ | | | | msg | | | | status | name]; cbn [Terms.unnamed];
    try discriminate; reflexivity.
Qed.

(** Two attempts that the handler sends to back-off; the third decides. *)
Lemma two_backoffs (up : upstream) (payload : json) (fuel : nat) (e1 e2 : exception) :
  Spec.failure (up payload 1) = Some e1 -> handler e1 1 = Backoff ->
  Spec.failure (up payload 2) = Some e2 -> handler e2 2 = Backoff ->
  _stream_file_export (S (S (S fuel))) up payload
  = Some ((Spec.seen payload (up payload 1) ++ [Sleep (inject_Z 1)])
          ++ (Spec.seen payload (up payload 2) ++ [Sleep (inject_Z 2)])
          ++ Spec.seen payload (up payload 3),
          match Spec.failure (up payload 3) with
          | None => Completed
          | Some e3 => Raised e3
          end).
Proof.
  intros H1 T1 H2 T2. unfold _stream_file_export.
  rewrite ClientFacts.stream_loop_step. cbv zeta. change (0 + 1) with 1.
  rewrite H1, T1.
  rewrite ClientFacts.stream_loop_step. cbv zeta. change (1 + 1) with 2.
  rewrite H2, T2.
  rewrite ClientFacts.stream_loop_step. cbv zeta. change (2 + 1) with 3.
  destruct (Spec.failure (up payload 3)) as [e3|].
  - change 3 with MAX_RETRIES at 1. rewrite ClientFacts.handler_last. reflexivity.
  - reflexivity.
Qed.

(** X1: an error status in 500..599 is retried on the same schedule as a
    transport failure.  Two such answers followed by a success complete the
    stream after exactly three requests and pauses of 1 and 2 seconds; a
    third such answer is raised, after exactly three requests. *)
Theorem server_errors_are_retried :
  forall up payload fuel e1 e2,
    (3 <= fuel)%nat ->
    Spec.failure (up payload 1) = Some e1 -> Terms.server_error e1 = true ->
    Spec.failure (up payload 2) = Some e2 -> Terms.server_error e2 = true ->
    exists evs,
      _stream_file_export fuel up payload
      = Some (evs, match Spec.failure (up payload 3) with
                   | None => Completed
                   | Some e3 => Raised e3
                   end) /\
      requests evs = 3%nat /\
      sleeps evs = [inject_Z 1; inject_Z 2].
Proof.
  intros up payload fuel e1 e2 Hfuel H1 S1 H2 S2.
  destruct fuel as [|[|[|fuel]]]; try lia.
  rewrite (two_backoffs up payload fuel e1 e2 H1
             (handler_server_error _ 1 S1) H2 (handler_server_error _ 2 S2)).
  eexists. split; [reflexivity|]. apply ClientFacts.two_retries_counts.
Qed.

Lemma server_errors_are_retried_witness :
  exists evs,
    _stream_file_export 3 (fun _ _ => Refused (HTTPStatusError 503)) JNull
    = Some (evs, Raised (HTTPStatusError 503)) /\
    requests evs = 3%nat /\ sleeps evs = [inject_Z 1; inject_Z 2].
Proof.
  apply (server_errors_are_retried (fun _ _ => Refused (HTTPStatusError 503))
           JNull 3%nat (HTTPStatusError 503) (HTTPStatusError 503));
    first [lia | reflexivity].
Defined.

(** X2: an exception that no [except] clause names (a connect timeout, a
    write error, ...) is never retried: on whichever attempt it occurs, and
    whether or not chunks were already yielded on that attempt, it
    propagates at once, with no pause and no further request. *)
Theorem unnamed_exceptions_propagate :
  forall up payload fuel k e,
    Spec.failure (up payload (k + 1)) = Some e ->
    Terms.unnamed e = true ->
    stream_loop (S fuel) up payload k
    = Some (Request payload :: map Chunk (Spec.received (up payload (k + 1))),
            Raised e).
Proof.
  intros up payload fuel k e Hfail Hun.
  rewrite ClientFacts.stream_loop_step. cbv zeta.
  rewrite Hfail, (handler_unnamed _ _ Hun). reflexivity.
Qed.

Lemma unnamed_exceptions_propagate_witness :
  _stream_file_export 3
    (fun _ _ => Streamed [Upstreams.chunk1] (Some (OtherError "ReadError"))) JNull
  = Some ([Request JNull; Chunk Upstreams.chunk1], Raised (OtherError "ReadError")).
Proof.
  apply (unnamed_exceptions_propagate
           (fun _ _ => Streamed [Upstreams.chunk1] (Some (OtherError "ReadError")))
           JNull 2%nat 0 (OtherError "ReadError")); reflexivity.
Defined.

Lemma attempts_trace_requests (up : upstream) (payload : json) (n : nat) :
  forall k, requests (Terms.attempts_trace up payload k n) = n.
Proof.
  induction n as [|m IH]; intros k; [reflexivity|].
  cbn [Terms.attempts_trace].
  rewrite ClientFacts.requests_app, ClientFacts.seen_requests.
  destruct m as [|m']; [reflexivity|].
  cbn [requests]. rewrite IH. reflexivity.
Qed.

Lemma attempts_trace_sleeps (up : upstream) (payload : json) (n : nat) :
  forall k,
    sleeps (Terms.attempts_trace up payload k (S n))
    = map (fun i => inject_Z (k + Z.of_nat i)) (seq 1 n).
Proof.
  induction n as [|m IH]; intros k.
  - cbn [Terms.attempts_trace]. rewrite app_nil_r.
    apply ClientFacts.seen_sleeps.
  - change (Terms.attempts_trace up payload k (S (S m)))
      with (Spec.seen payload (up payload (k + 1))
            ++ Sleep (Qmult RETRY_BACKOFF_SECONDS (inject_Z (k + 1)))
               :: Terms.attempts_trace up payload (k + 1) (S m)).
    rewrite ClientFacts.sleeps_app, ClientFacts.seen_sleeps.
    cbn [sleeps app]. rewrite IH.
    change (seq 1 (S m)) with (1%nat :: seq 2 m). cbn [map]. f_equal.
    + unfold RETRY_BACKOFF_SECONDS, Qmult, inject_Z. cbn [Qnum Qden].
      rewrite Z.mul_1_l. reflexivity.
    + rewrite <- (seq_shift m 1), map_map. apply map_ext. intros i. f_equal. lia.
Qed.

(** The shape of every run of the loop entered with [attempt = k]. *)
Lemma stream_loop_shape (up : upstream) (payload : json) (fuel : nat) :
  forall k evs out,
    stream_loop fuel up payload k = Some (evs, out) ->
    exists n,
      evs = Terms.attempts_trace up payload k (S n) /\
      (n = O \/ k + Z.of_nat (S n) <= MAX_RETRIES) /\
      (forall i, (1 <= i <= n)%nat ->
                 exists e, Spec.failure (up payload (k + Z.of_nat i)) = Some e /\
                           handler e (k + Z.of_nat i) = Backoff) /\
      match out with
      | Completed => Spec.failure (up payload (k + Z.of_nat (S n))) = None
      | Raised e =>
          Spec.failure (up payload (k + Z.of_nat (S n))) = Some e /\
          handler e (k + Z.of_nat (S n)) = Reraise
      end.
Proof.
  induction fuel as [|fuel IH]; intros k evs out Hloop; [discriminate|].
  rewrite ClientFacts.stream_loop_step in Hloop. cbv zeta in Hloop.
  destruct (Spec.failure (up payload (k + 1))) as [e|] eqn:Hfail.
  - destruct (handler e (k + 1)) eqn:Hh.
    + injection Hloop as <- <-. exists O.
      cbn [Terms.attempts_trace]. rewrite app_nil_r.
      replace (k + Z.of_nat 1) with (k + 1) by lia.
      repeat split; try (left; reflexivity); try assumption.
      intros i Hi. lia.
    + destruct (stream_loop fuel up payload (k + 1)) as [[evs' out']|] eqn:Hrest;
        [|discriminate].
      cbn [option_map prepend fst snd] in Hloop.
      remember (Spec.seen payload (up payload (k + 1))) as first eqn:Hfirst.
      injection Hloop as <- <-. subst first.
      destruct (IH _ _ _ Hrest) as (n & Hevs & Hbound & Hbefore & Hlast).
      exists (S n). split; [|split; [|split]].
      * cbn [Terms.attempts_trace] in Hevs |- *. rewrite Hevs.
        rewrite <- app_assoc. reflexivity.
      * right. pose proof (ClientFacts.handler_backoff _ _ Hh) as Hlt.
        destruct Hbound as [-> | Hle]; unfold MAX_RETRIES in *; lia.
      * intros i Hi. destruct (Nat.eq_dec i 1) as [-> | Hne].
        -- exists e. replace (k + Z.of_nat 1) with (k + 1) by lia.
           split; assumption.
        -- destruct (Hbefore (i - 1)%nat) as (e' & He' & Hh'); [lia|].
           exists e'.
           replace (k + Z.of_nat i) with (k + 1 + Z.of_nat (i - 1)) by lia.
           split; assumption.
      * replace (k + Z.of_nat (S (S n))) with (k + 1 + Z.of_nat (S n)) by lia.
        exact Hlast.
  - injection Hloop as <- <-. exists O.
    cbn [Terms.attempts_trace]. rewrite app_nil_r.
    replace (k + Z.of_nat 1) with (k + 1) by lia.
    repeat split; try (left; reflexivity); try assumption.
    intros i Hi. lia.
Qed.

(** X3: every run of [_stream_file_export] ends, and has the same shape.
    Whatever the upstream does, the generator finishes within three turns
    of its loop.  It makes [n] requests with 1 <= n <= 3; the pause after
    the i-th request lasts i seconds, so the pauses are 1, ..., n-1; each
    request before the last failed with an error that the handler retries;
    and the run ends as the last request ends: completed if it succeeded,
    otherwise raising its exception. *)
Theorem stream_file_export_shape :
  (forall up payload fuel,
      (3 <= fuel)%nat ->
      exists evs out,
        _stream_file_export fuel up payload = Some (evs, out) /\
        Terms.export_shape up payload evs out) /\
  (forall up payload fuel evs out,
      _stream_file_export fuel up payload = Some (evs, out) ->
      Terms.export_shape up payload evs out).
Proof.
  assert (Hshape : forall up payload fuel evs out,
             _stream_file_export fuel up payload = Some (evs, out) ->
             Terms.export_shape up payload evs out).
  { intros up payload fuel evs out Hrun.
    destruct (stream_loop_shape up payload fuel 0 evs out Hrun)
      as (n & Hevs & Hbound & Hbefore & Hlast).
    exists (S n). split; [|split; [|split; [|split; [|split]]]].
    - unfold MAX_RETRIES in Hbound. lia.
    - exact Hevs.
    - rewrite Hevs. apply attempts_trace_requests.
    - rewrite Hevs, attempts_trace_sleeps.
      replace (S n - 1)%nat with n by lia. unfold Terms.backoff_schedule.
      apply map_ext. intros i. reflexivity.
    - intros i Hi. apply (Hbefore i). lia.
    - exact Hlast. }
  split; [|exact Hshape].
  intros up payload fuel Hfuel.
  destruct (ClientFacts.stream_loop_bounded up payload fuel 0)
    as (evs & out & Hrun & _); [lia | unfold MAX_RETRIES; lia |].
  exists evs, out. split; [exact Hrun|].
  apply (Hshape up payload fuel). exact Hrun.
Qed.

Lemma stream_file_export_shape_witness :
  exists evs out,
    _stream_file_export 3 Upstreams.drops_mid_body JNull = Some (evs, out) /\
    Terms.export_shape Upstreams.drops_mid_body JNull evs out.
Proof.
  apply (proj1 stream_file_export_shape Upstreams.drops_mid_body JNull 3%nat).
  lia.
Defined.

End ClientMore.

(* ================================================================== *)
(** ** Further properties of the path accessor *)
(* ================================================================== *)

Module PathMore.
Import Py DataProcessor.

Lemma split_nonempty (sep : ascii) (s : string) : split sep s <> [].
Proof.
  destruct s as [|c s]; cbn [split]; [discriminate|].
  destruct (Ascii.eqb c sep); [discriminate|].
  destruct (split sep s); discriminate.
Qed.

Lemma split_append (sep : ascii) (p q : string) :
  split sep (String.append p (String sep q)) = split sep p ++ split sep q.
Proof.
  induction p as [|c p IH]; cbn [String.append split].
  - rewrite Ascii.eqb_refl. reflexivity.
  - destruct (Ascii.eqb c sep); [rewrite IH; reflexivity|].
    rewrite IH.
    destruct (split sep p) as [|hd tl] eqn:Hp; [|reflexivity].
    exfalso. exact (split_nonempty sep p Hp).
Qed.

Lemma walk_from_null (parts : list string) :
  parts <> [] -> FilterCases.walk JNull parts = Ok JNull.
Proof. destruct parts; [contradiction | reflexivity]. Qed.

Lemma walk_append (p1 p2 : list string) :
  p2 <> [] ->
  forall current,
    FilterCases.walk current (p1 ++ p2)
    = bind (FilterCases.walk current p1) (fun v => FilterCases.walk v p2).
Proof.
  intros Hp2.
  induction p1 as [|part rest IH]; intros current; [reflexivity|].
  cbn [app].
  destruct current as [| b | q | s | l | d | nf];
    try (cbn [FilterCases.walk bind]; rewrite walk_from_null by exact Hp2;
         reflexivity).
  - cbn [FilterCases.walk].
    destruct (py_int_str part) as [i|e] eqn:Hint.
    + destruct ((i <? 0) || (Z.of_nat (List.length l) <=? i)).
      * cbn [bind]. rewrite walk_from_null by exact Hp2. reflexivity.
      * destruct (list_getitem l i) as [x|e]; cbn [bind]; [apply IH | reflexivity].
    + rewrite (PathFacts.py_int_str_raises _ _ Hint). cbn [bind].
      rewrite walk_from_null by exact Hp2. reflexivity.
  - cbn [FilterCases.walk].
    destruct (negb (dict_contains d part)).
    + cbn [bind]. rewrite walk_from_null by exact Hp2. reflexivity.
    + apply IH.
Qed.

(** X4: paths compose.  Resolving [p.q] in a record is resolving [q] in
    whatever [p] resolves to, for the accessor of [filter_cases] and for the
    accessor of [sort_cases]; in particular an absent or null prefix makes
    the whole path absent. *)
Theorem get_nested_value_prefix (obj : json) (p q : string) :
  FilterCases.get_nested_value obj (String.append p (String "."%char q))
  = bind (FilterCases.get_nested_value obj p)
         (fun v => FilterCases.get_nested_value v q)
  /\ SortCases.get_nested_value obj (String.append p (String "."%char q))
     = bind (SortCases.get_nested_value obj p)
            (fun v => SortCases.get_nested_value v q)
  /\ FilterCases.get_nested_value JNull q = Ok JNull.
Proof.
  assert (Hfilter :
            FilterCases.get_nested_value obj (String.append p (String "."%char q))
            = bind (FilterCases.get_nested_value obj p)
                   (fun v => FilterCases.get_nested_value v q)).
  { unfold FilterCases.get_nested_value. rewrite split_append.
    apply walk_append. apply split_nonempty. }
  split; [exact Hfilter | split].
  - unfold SortCases.get_nested_value. rewrite <- !PathFacts.walks_agree.
    fold (FilterCases.get_nested_value obj (String.append p (String "."%char q))).
    rewrite Hfilter. unfold FilterCases.get_nested_value.
    destruct (FilterCases.walk obj (split "."%char p)) as [v|e]; cbn [bind];
      [apply PathFacts.walks_agree | reflexivity].
  - apply walk_from_null. apply split_nonempty.
Qed.

End PathMore.

(* ================================================================== *)
(** ** Further properties of [filter_cases] *)
(* ================================================================== *)

Module FilterMore.
Import Py DataProcessor.

Lemma filter_cases_spec (cases : list json) (filters : list (string * json)) :
  filter_cases cases filters = Ok (Spec.filter_spec cases filters).
Proof.
  destruct filters as [|f filters].
  - cbn. unfold Spec.filter_spec. cbn. rewrite FilterFacts.filter_all. reflexivity.
  - unfold filter_cases.
    apply (FilterFacts.filter_loop_appends (f :: filters) cases []).
Qed.

Lemma filter_filter {A : Type} (p q : A -> bool) (l : list A) :
  List.filter q (List.filter p l) = List.filter (fun x => p x && q x) l.
Proof.
  induction l as [|x l IH]; [reflexivity|]. cbn [List.filter].
  destruct (p x); cbn [List.filter andb]; rewrite IH; reflexivity.
Qed.

Lemma forallb_permutation {A : Type} (p : A -> bool) (l l' : list A) :
  Permutation l l' -> forallb p l = forallb p l'.
Proof.
  induction 1 as [| x l l' _ IH | x y l | l l' l'' _ IH1 _ IH2]; cbn [forallb].
  - reflexivity.
  - rewrite IH. reflexivity.
  - destruct (p x), (p y); reflexivity.
  - rewrite IH1. exact IH2.
Qed.

(** X5: filtering can be staged.  Filtering by the entries of two filter
    sets together gives the same records, in the same order, as filtering
    by the first set and then filtering the result by the second; and
    filtering a result again by the same filter set changes nothing. *)
Theorem filter_cases_staged (cases : list json) (f1 f2 : list (string * json)) :
  filter_cases cases (f1 ++ f2)
  = bind (filter_cases cases f1) (fun kept => filter_cases kept f2)
  /\ bind (filter_cases cases f1) (fun kept => filter_cases kept f1)
     = filter_cases cases f1.
Proof.
  rewrite !filter_cases_spec. cbn [bind]. rewrite !filter_cases_spec.
  unfold Spec.filter_spec. rewrite !filter_filter. split; f_equal.
  - apply filter_ext. intros c. unfold Spec.retained. apply forallb_app.
  - apply filter_ext. intros c. destruct (Spec.retained f1 c); reflexivity.
Qed.

(** X6: the order in which the entries of the filter set are visited does
    not matter: two filter sets with the same entries select the same
    records. *)
Theorem filter_cases_entry_order (cases : list json)
    (filters filters' : list (string * json)) :
  Permutation filters filters' ->
  filter_cases cases filters = filter_cases cases filters'.
Proof.
  intros Hperm. rewrite !filter_cases_spec. f_equal.
  unfold Spec.filter_spec. apply filter_ext. intros c.
  unfold Spec.retained. apply forallb_permutation. exact Hperm.
Qed.

Lemma filter_cases_entry_order_witness :
  filter_cases [JDict [("cm_state", JStr "OK"); ("cm_mode", JStr "Aviation")];
                JDict [("cm_state", JStr "TX"); ("cm_mode", JStr "Aviation")]]
    [("cm_state", JStr "OK"); ("cm_mode", JStr "Aviation")]
  = filter_cases [JDict [("cm_state", JStr "OK"); ("cm_mode", JStr "Aviation")];
                  JDict [("cm_state", JStr "TX"); ("cm_mode", JStr "Aviation")]]
      [("cm_mode", JStr "Aviation"); ("cm_state", JStr "OK")].
Proof.
  apply filter_cases_entry_order. apply perm_swap.
Defined.

End FilterMore.

(* ================================================================== *)
(** ** Further properties of [paginate] *)
(* ================================================================== *)

Module PaginateMore.
Import Py DataProcessor.

Lemma firstn_add_split {A : Type} (a b : nat) (l : list A) :
  firstn (a + b) l = firstn a l ++ firstn b (skipn a l).
Proof.
  revert l. induction a as [|a IH]; intros l; [reflexivity|].
  destruct l as [|x l]; cbn [Nat.add firstn skipn app].
  - rewrite firstn_nil. reflexivity.
  - rewrite IH. reflexivity.
Qed.

Lemma page_window (cases : list json) (limit : Z) (k : nat) :
  1 <= limit ->
  Terms.page cases limit k
  = firstn (Z.to_nat limit) (skipn (k * Z.to_nat limit) cases).
Proof.
  intros Hlimit. unfold Terms.page. cbn [paginate_result items].
  rewrite PaginateFacts.list_slice_window by lia.
  f_equal. f_equal. lia.
Qed.

Lemma pages_prefix (cases : list json) (limit : Z) (m : nat) :
  1 <= limit ->
  List.concat (map (Terms.page cases limit) (seq 0 m))
  = firstn (m * Z.to_nat limit) cases.
Proof.
  intros Hlimit. induction m as [|m IH]; [reflexivity|].
  rewrite seq_S, map_app, concat_app, IH. cbn [Nat.add map List.concat].
  rewrite app_nil_r, page_window by exact Hlimit.
  replace (S m * Z.to_nat limit)%nat
    with (m * Z.to_nat limit + Z.to_nat limit)%nat by lia.
  symmetry. apply firstn_add_split.
Qed.

(** X7: pages tile the list.  With a limit of at least 1, the page that
    starts where another page ends continues it, the first [m] pages
    (offsets 0, limit, 2 limit, ...) put end to end are the first
    [m * limit] records, and so they are the whole list, each record once
    and in order, as soon as [m * limit] reaches its length. *)
Theorem paginate_pages_tile (cases : list json) (limit : Z) :
  1 <= limit ->
  (forall offset limit',
      0 <= offset -> 1 <= limit' ->
      items (paginate_result cases limit offset)
      ++ items (paginate_result cases limit' (offset + limit))
      = items (paginate_result cases (limit + limit') offset)) /\
  (forall m,
      List.concat (map (Terms.page cases limit) (seq 0 m))
      = firstn (m * Z.to_nat limit) cases) /\
  (forall m,
      Z.of_nat (List.length cases) <= Z.of_nat m * limit ->
      List.concat (map (Terms.page cases limit) (seq 0 m)) = cases).
Proof.
  intros Hlimit. split; [|split].
  - intros offset limit' Hoffset Hlimit'. cbn [paginate_result items].
    rewrite !PaginateFacts.list_slice_window by lia.
    replace (Z.to_nat (limit + limit'))
      with (Z.to_nat limit + Z.to_nat limit')%nat by lia.
    rewrite firstn_add_split. f_equal. f_equal.
    rewrite skipn_skipn. f_equal. lia.
  - intros m. apply pages_prefix. exact Hlimit.
  - intros m Hcover. rewrite pages_prefix by exact Hlimit.
    apply firstn_all2. nia.
Qed.

Lemma paginate_pages_tile_witness :
  List.concat (map (Terms.page [JInt 0; JInt 1; JInt 2; JInt 3; JInt 4] 2)
                 (seq 0 3))
  = [JInt 0; JInt 1; JInt 2; JInt 3; JInt 4].
Proof.
  apply (proj2 (proj2 (paginate_pages_tile
                         [JInt 0; JInt 1; JInt 2; JInt 3; JInt 4] 2 ltac:(lia)))).
  cbn. lia.
Defined.

Lemma slice_bound_span (n offset limit : Z) :
  0 <= n -> 0 <= limit ->
  slice_bound n (offset + limit) - slice_bound n offset <= limit.
Proof.
  intros Hn Hlimit. unfold slice_bound.
  destruct (offset <? 0) eqn:Ho; destruct (offset + limit <? 0) eqn:He;
    cbv zeta;
    repeat match goal with
           | |- context [if ?c then _ else _] => destruct c eqn:?
           end;
    rewrite ?Z.ltb_lt, ?Z.ltb_ge in *; lia.
Qed.

(** X8: [paginate] itself puts no condition on [limit] and [offset].  For
    every pair of integers, negative ones included, it returns without
    raising, its items are one contiguous run of the records, its total is
    the length of the whole list, and when [limit] is not negative there are
    at most [limit] items. *)
Theorem paginate_any_integers (cases : list json) (limit offset : Z) :
  (exists before after,
      cases = before ++ items (paginate_result cases limit offset) ++ after) /\
  total (paginate_result cases limit offset) = Z.of_nat (List.length cases) /\
  (0 <= limit ->
   Z.of_nat (List.length (items (paginate_result cases limit offset))) <= limit).
Proof.
  cbn [paginate_result items total]. unfold list_slice. cbv zeta.
  set (n := Z.of_nat (List.length cases)).
  set (lo := slice_bound n offset).
  set (hi := slice_bound n (offset + limit)).
  split; [|split].
  - exists (firstn (Z.to_nat lo) cases),
           (skipn (Z.to_nat (hi - lo)) (skipn (Z.to_nat lo) cases)).
    rewrite firstn_skipn, firstn_skipn. reflexivity.
  - reflexivity.
  - intros Hlimit. rewrite length_firstn.
    pose proof (slice_bound_span n offset limit ltac:(subst n; lia) Hlimit).
    fold lo hi in H. lia.
Qed.

Lemma paginate_any_integers_witness :
  Z.of_nat (List.length (items (paginate_result
                                  [JInt 0; JInt 1; JInt 2; JInt 3; JInt 4] 2 (-3))))
  <= 2.
Proof.
  apply (proj2 (proj2 (paginate_any_integers
                         [JInt 0; JInt 1; JInt 2; JInt 3; JInt 4] 2 (-3)))).
  lia.
Defined.

End PaginateMore.

(* ================================================================== *)
(** ** Further properties of [generate_stats] *)
(* ================================================================== *)

Module StatsMore.
Import Py DataProcessor.

(** What one iteration does besides the accident buckets. *)
Lemma stats_step_effect (st st' : Stats) (case : json) :
  stats_step st case = Ok st' ->
  exists k,
    Spec.injury_counts case = Ok k /\
    fatalities (totals st') = fatalities (totals st) + Terms.fatal_of k /\
    serious_injuries (totals st') = serious_injuries (totals st) + Terms.serious_of k /\
    minor_injuries (totals st') = minor_injuries (totals st) + Terms.minor_of k /\
    counter_incr (by_highest_injury st) (Terms.label_of "cm_highestInjury" case)
    = Ok (by_highest_injury st') /\
    counter_incr (by_state st) (Terms.label_of "cm_state" case)
    = Ok (by_state st').
Proof.
  rewrite StatsFacts.injury_counts_coerced. unfold stats_step, injury_count.
  destruct case as [| b | q | s | l | d | nf]; cbn [case_get bind]; try discriminate.
  destruct (py_int (py_or (dict_get d "cm_fatalInjuryCount") (JInt 0))) as [f|];
    cbn [bind]; [|discriminate].
  destruct (py_int (py_or (dict_get d "cm_seriousInjuryCount") (JInt 0))) as [s|];
    cbn [bind]; [|discriminate].
  destruct (py_int (py_or (dict_get d "cm_minorInjuryCount") (JInt 0))) as [m|];
    cbn [bind]; [|discriminate].
  cbn [Terms.label_of].
  destruct (counter_incr (by_highest_injury st) _) as [bhi|]; cbn [bind];
    [|discriminate].
  destruct (counter_incr (by_state st) _) as [bs|]; cbn [bind]; [|discriminate].
  intros H. injection H as <-. exists (f, s, m).
  split; [reflexivity|].
  cbn [totals by_state by_highest_injury Terms.fatal_of Terms.serious_of
         Terms.minor_of fst snd].
  destruct (f >? 0); [|destruct (s >? 0); [|destruct (m >? 0)]];
    cbn; repeat split; reflexivity.
Qed.

Lemma sum_of_cons (f : Z * Z * Z -> Z) (k : Z * Z * Z) (l : list (Z * Z * Z)) :
  Terms.sum_of f (k :: l) = f k + Terms.sum_of f l.
Proof. reflexivity. Qed.

Lemma stats_loop_sums (cases : list json) :
  forall st st',
    stats_loop cases st = Ok st' ->
    fatalities (totals st')
    = fatalities (totals st) + Terms.sum_of Terms.fatal_of (map Terms.counts_or_zero cases) /\
    serious_injuries (totals st')
    = serious_injuries (totals st)
      + Terms.sum_of Terms.serious_of (map Terms.counts_or_zero cases) /\
    minor_injuries (totals st')
    = minor_injuries (totals st)
      + Terms.sum_of Terms.minor_of (map Terms.counts_or_zero cases).
Proof.
  induction cases as [|case rest IH]; intros st st' Hloop.
  - injection Hloop as <-. cbn. repeat split; lia.
  - cbn [stats_loop] in Hloop.
    destruct (stats_step st case) as [st1|] eqn:Hstep; [|discriminate].
    cbn [bind] in Hloop.
    destruct (stats_step_effect _ _ _ Hstep) as (k & Hk & Hf & Hs & Hm & _).
    destruct (IH _ _ Hloop) as (Hf' & Hs' & Hm').
    assert (Hzero : Terms.counts_or_zero case = k)
      by (unfold Terms.counts_or_zero; rewrite Hk; reflexivity).
    cbn [map]. rewrite Hzero, !sum_of_cons.
    repeat split; lia.
Qed.

Lemma counts_are_mapped (cases : list json) (counts : list (Z * Z * Z)) :
  Forall2 (fun c k => Spec.injury_counts c = Ok k) cases counts ->
  counts = map Terms.counts_or_zero cases.
Proof.
  induction 1 as [|c k cases counts Hk _ IH]; [reflexivity|].
  cbn [map]. unfold Terms.counts_or_zero at 1. rewrite Hk, IH. reflexivity.
Qed.

(** The totals are a function of the coerced injury counts alone. *)
Lemma generate_stats_totals (cases : list json) (st : Stats) :
  generate_stats cases = Ok st ->
  Forall2 (fun c k => Spec.injury_counts c = Ok k) cases
    (map Terms.counts_or_zero cases) /\
  totals st = Terms.totals_of (map Terms.counts_or_zero cases).
Proof.
  intros Hgen.
  destruct (StatsFacts.stats_loop_totals cases _ _ Hgen)
    as (counts & Hall & Ha & Hf & Hs & Hm & Hn).
  destruct (stats_loop_sums cases _ _ Hgen) as (Hsf & Hss & Hsm).
  pose proof (counts_are_mapped _ _ Hall) as ->.
  split; [exact Hall|].
  cbn in Ha, Hf, Hs, Hm, Hn, Hsf, Hss, Hsm.
  destruct (totals st) as [a fa sa ma na ft si mi]. cbn in *.
  unfold Terms.totals_of. rewrite length_map. subst. reflexivity.
Qed.

(** X9: the three injury totals are sums over the records.  In the totals
    that [generate_stats] returns, [fatalities], [serious_injuries] and
    [minor_injuries] are the sums of the records' fatal, serious and minor
    counts as coerced by [int(... or 0)]; a record without a count, or with
    a null one, adds 0. *)
Theorem generate_stats_sums (cases : list json) (st : Stats) :
  generate_stats cases = Ok st ->
  exists counts,
    Forall2 (fun c k => Spec.injury_counts c = Ok k) cases counts /\
    fatalities (totals st) = Terms.sum_of Terms.fatal_of counts /\
    serious_injuries (totals st) = Terms.sum_of Terms.serious_of counts /\
    minor_injuries (totals st) = Terms.sum_of Terms.minor_of counts.
Proof.
  intros Hgen. destruct (generate_stats_totals cases st Hgen) as [Hall Htot].
  exists (map Terms.counts_or_zero cases). rewrite Htot.
  split; [exact Hall|]. repeat split; reflexivity.
Qed.

Lemma generate_stats_sums_witness :
  exists counts,
    Forall2 (fun c k => Spec.injury_counts c = Ok k)
      [JDict [("cm_fatalInjuryCount", JInt 2); ("cm_minorInjuryCount", JInt 1)];
       JDict [("cm_fatalInjuryCount", JNull); ("cm_minorInjuryCount", JInt 3)]]
      counts /\
    2 = Terms.sum_of Terms.fatal_of counts /\
    0 = Terms.sum_of Terms.serious_of counts /\
    4 = Terms.sum_of Terms.minor_of counts.
Proof.
  exact (generate_stats_sums
           [JDict [("cm_fatalInjuryCount", JInt 2); ("cm_minorInjuryCount", JInt 1)];
            JDict [("cm_fatalInjuryCount", JNull); ("cm_minorInjuryCount", JInt 3)]]
           _ eq_refl).
Defined.

(** *** The two counter dicts *)

Lemma counter_incr_total (d d' : counter) (k : json) :
  counter_incr d k = Ok d' ->
  Terms.counter_total d' = Terms.counter_total d + 1.
Proof.
  unfold counter_incr. destruct (hashable k); [|discriminate].
  intros H. injection H as <-.
  induction d as [|[k' n] d IH]; cbn [counter_set counter_get].
  - cbn. lia.
  - destruct (py_is_or_eq k' k).
    + cbn. lia.
    + cbn [Terms.counter_total fold_right snd] in *.
      fold (Terms.counter_total d) in *.
      fold (Terms.counter_total
              (counter_set d k (counter_get d k 0 + 1))) in *.
      lia.
Qed.

Lemma counter_set_string_keys (d : counter) (s : string) (n : Z) :
  Terms.string_keys d -> Terms.string_keys (counter_set d (JStr s) n).
Proof.
  unfold Terms.string_keys.
  induction 1 as [|[k' m] d Hk Hd IH]; cbn [counter_set].
  - constructor; [exists s; reflexivity | constructor].
  - destruct (py_is_or_eq k' (JStr s)); constructor; try assumption.
Qed.

Lemma counter_get_set (d : counter) (a b : string) (n dflt : Z) :
  Terms.string_keys d ->
  counter_get (counter_set d (JStr a) n) (JStr b) dflt
  = if String.eqb a b then n else counter_get d (JStr b) dflt.
Proof.
  unfold Terms.string_keys.
  induction 1 as [|[k' m] d Hk Hd IH]; cbn [counter_set counter_get].
  - cbn [py_is_or_eq same_nan py_eq orb].
    destruct (String.eqb a b); reflexivity.
  - destruct Hk as [s Hs]. cbn [fst] in Hs. subst k'.
    cbn [py_is_or_eq same_nan py_eq orb].
    destruct (String.eqb s a) eqn:Hsa;
      cbn [counter_get py_is_or_eq same_nan py_eq orb].
    + apply String.eqb_eq in Hsa. subst s.
      destruct (String.eqb a b); reflexivity.
    + destruct (String.eqb s b) eqn:Hsb.
      * apply String.eqb_eq in Hsb. subst s.
        rewrite String.eqb_sym, Hsa. reflexivity.
      * apply IH.
Qed.

Lemma label_of_string (key : string) (case : json) :
  (match case with
   | JDict d => Spec.label_field (dict_get d key)
   | _ => false
   end) = true ->
  exists s, Terms.label_of key case = JStr s.
Proof.
  destruct case as [| b | q | s | l | d | nf]; try discriminate.
  cbn [Terms.label_of]. unfold py_or.
  destruct (dict_get d key) as [| b | q | s | l | d' | nf]; cbn; try discriminate;
    intros _.
  - eexists; reflexivity.
  - destruct (negb (String.eqb s EmptyString)); eexists; reflexivity.
Qed.

Lemma counter_incr_labelled (d d' : counter) (s : string) :
  Terms.string_keys d ->
  counter_incr d (JStr s) = Ok d' ->
  Terms.string_keys d' /\
  forall t, counter_get d' (JStr t) 0
            = counter_get d (JStr t) 0 + (if String.eqb s t then 1 else 0).
Proof.
  intros Hkeys. unfold counter_incr. cbn [hashable].
  intros H. injection H as <-. split.
  - apply counter_set_string_keys. exact Hkeys.
  - intros t. rewrite counter_get_set by exact Hkeys.
    destruct (String.eqb s t) eqn:Hst; [|lia].
    apply String.eqb_eq in Hst. subst t. reflexivity.
Qed.

Lemma labelled_cons (key s : string) (case : json) (rest : list json) :
  Terms.labelled key s (case :: rest)
  = (if py_eq (Terms.label_of key case) (JStr s) then 1 else 0)
    + Terms.labelled key s rest.
Proof.
  unfold Terms.labelled. cbn [List.filter].
  destruct (py_eq (Terms.label_of key case) (JStr s)); cbn [List.length]; lia.
Qed.

Lemma stats_loop_counters (cases : list json) :
  forall st st',
    stats_loop cases st = Ok st' ->
    Terms.counter_total (by_state st')
    = Terms.counter_total (by_state st) + Z.of_nat (List.length cases) /\
    Terms.counter_total (by_highest_injury st')
    = Terms.counter_total (by_highest_injury st) + Z.of_nat (List.length cases).
Proof.
  induction cases as [|case rest IH]; intros st st' Hloop.
  - injection Hloop as <-. cbn. split; lia.
  - cbn [stats_loop] in Hloop.
    destruct (stats_step st case) as [st1|] eqn:Hstep; [|discriminate].
    cbn [bind] in Hloop.
    destruct (stats_step_effect _ _ _ Hstep) as (k & _ & _ & _ & _ & Hh & Hs).
    apply counter_incr_total in Hh, Hs.
    destruct (IH _ _ Hloop) as [Hs' Hh']. cbn [List.length]. split; lia.
Qed.

Lemma stats_loop_labelled (cases : list json) :
  Forall (fun c => Terms.string_labels c = true) cases ->
  forall st st',
    Terms.string_keys (by_state st) ->
    Terms.string_keys (by_highest_injury st) ->
    stats_loop cases st = Ok st' ->
    forall s,
      counter_get (by_state st') (JStr s) 0
      = counter_get (by_state st) (JStr s) 0 + Terms.labelled "cm_state" s cases /\
      counter_get (by_highest_injury st') (JStr s) 0
      = counter_get (by_highest_injury st) (JStr s) 0
        + Terms.labelled "cm_highestInjury" s cases.
Proof.
  induction 1 as [|case rest Hcase _ IH]; intros st st' Hks Hkh Hloop s.
  - injection Hloop as <-. unfold Terms.labelled. cbn. split; lia.
  - cbn [stats_loop] in Hloop.
    destruct (stats_step st case) as [st1|] eqn:Hstep; [|discriminate].
    cbn [bind] in Hloop.
    destruct (stats_step_effect _ _ _ Hstep) as (k & _ & _ & _ & _ & Hh & Hs).
    destruct case as [| b | q | s0 | l | d | nf]; try discriminate Hcase.
    cbn [Terms.string_labels] in Hcase. apply andb_prop in Hcase.
    destruct Hcase as [Hlh Hls].
    destruct (label_of_string "cm_highestInjury" (JDict d) Hlh) as [lh Elh].
    destruct (label_of_string "cm_state" (JDict d) Hls) as [ls Els].
    rewrite Elh in Hh. rewrite Els in Hs.
    destruct (counter_incr_labelled _ _ _ Hkh Hh) as [Hkh1 Hgh].
    destruct (counter_incr_labelled _ _ _ Hks Hs) as [Hks1 Hgs].
    destruct (IH st1 st' Hks1 Hkh1 Hloop s) as [Hs' Hh'].
    rewrite !labelled_cons, Elh, Els. cbn [py_eq].
    rewrite Hs', Hh', Hgs, Hgh. split; lia.
Qed.

(** X10: the two breakdowns count every record once.  In a result of
    [generate_stats] the counts of [by_state] add up to the number of
    records, and so do the counts of [by_highest_injury].  When the state
    and highest-injury fields of every record are missing, null or strings,
    the count stored under a string is the number of records with that
    label, where a missing, null or empty field is labelled "Unknown". *)
Theorem generate_stats_breakdowns (cases : list json) (st : Stats) :
  generate_stats cases = Ok st ->
  Terms.counter_total (by_state st) = Z.of_nat (List.length cases) /\
  Terms.counter_total (by_highest_injury st) = Z.of_nat (List.length cases) /\
  (Forall (fun c => Terms.string_labels c = true) cases ->
   forall s,
     counter_get (by_state st) (JStr s) 0 = Terms.labelled "cm_state" s cases /\
     counter_get (by_highest_injury st) (JStr s) 0
     = Terms.labelled "cm_highestInjury" s cases).
Proof.
  intros Hgen.
  destruct (stats_loop_counters cases _ _ Hgen) as [Hs Hh]. cbn in Hs, Hh.
  split; [exact Hs | split; [exact Hh|]].
  intros Hlabels s.
  assert (Hempty : Terms.string_keys []) by constructor.
  destruct (stats_loop_labelled cases Hlabels initial_stats st
              Hempty Hempty Hgen s) as [Hgs Hgh].
  cbn in Hgs, Hgh. split; assumption.
Qed.

Lemma generate_stats_breakdowns_witness :
  counter_get [(JStr "OK", 1); (JStr "Unknown", 2)] (JStr "Unknown") 0
  = Terms.labelled "cm_state" "Unknown"
      [JDict [("cm_state", JStr "OK")]; JDict [("cm_state", JStr "")]; JDict []].
Proof.
  destruct (generate_stats_breakdowns
              [JDict [("cm_state", JStr "OK")]; JDict [("cm_state", JStr "")];
               JDict []]
              {| totals := Terms.totals_of [(0, 0, 0); (0, 0, 0); (0, 0, 0)];
                 by_state := [(JStr "OK", 1); (JStr "Unknown", 2)];
                 by_highest_injury := [(JStr "Unknown", 3)] |}
              eq_refl) as (_ & _ & Hlabels).
  apply Hlabels. repeat constructor.
Defined.

(** *** Reordering the records *)

Lemma stats_step_any_state (st st1 st2 : Stats) (case : json) :
  stats_step st case = Ok st1 -> exists st2', stats_step st2 case = Ok st2'.
Proof.
  intros Hstep.
  destruct (stats_step_effect _ _ _ Hstep) as (k & Hk & _ & _ & _ & Hh & Hs).
  rewrite StatsFacts.injury_counts_coerced in Hk.
  unfold stats_step.
  destruct (injury_count case "cm_fatalInjuryCount") as [f|]; [|discriminate].
  destruct (injury_count case "cm_seriousInjuryCount") as [s|]; [|discriminate].
  destruct (injury_count case "cm_minorInjuryCount") as [m|]; [|discriminate].
  cbn [bind].
  destruct case as [| b | q | s0 | l | d | nf];
    try (unfold stats_step in Hstep; cbn in Hstep; discriminate).
  cbn [case_get bind Terms.label_of] in *.
  unfold counter_incr in *.
  destruct (hashable (py_or (dict_get d "cm_highestInjury") (JStr "Unknown")));
    [|discriminate].
  destruct (hashable (py_or (dict_get d "cm_state") (JStr "Unknown")));
    [|discriminate].
  cbn [bind]. eexists. reflexivity.
Qed.

Lemma stats_loop_steps (cases : list json) :
  forall st st',
    stats_loop cases st = Ok st' ->
    Forall (fun c => exists s1 s2, stats_step s1 c = Ok s2) cases.
Proof.
  induction cases as [|case rest IH]; intros st st' Hloop; [constructor|].
  cbn [stats_loop] in Hloop.
  destruct (stats_step st case) as [st1|] eqn:Hstep; [|discriminate].
  cbn [bind] in Hloop. constructor.
  - exists st, st1. exact Hstep.
  - apply (IH _ _ Hloop).
Qed.

Lemma stats_loop_from_steps (cases : list json) :
  Forall (fun c => exists s1 s2, stats_step s1 c = Ok s2) cases ->
  forall st, exists st', stats_loop cases st = Ok st'.
Proof.
  induction 1 as [|case rest (s1 & s2 & Hstep) _ IH]; intros st.
  - eexists; reflexivity.
  - destruct (stats_step_any_state s1 s2 st case Hstep) as [st1 Hst1].
    cbn [stats_loop]. rewrite Hst1. cbn [bind]. apply IH.
Qed.

Lemma sum_of_permutation (f : Z * Z * Z -> Z) (l l' : list (Z * Z * Z)) :
  Permutation l l' -> Terms.sum_of f l = Terms.sum_of f l'.
Proof.
  unfold Terms.sum_of.
  induction 1 as [| x l l' _ IH | x y l | l l' l'' _ IH1 _ IH2];
    cbn [fold_right]; lia.
Qed.

Lemma in_bucket_permutation (b : Spec.bucket) (l l' : list (Z * Z * Z)) :
  Permutation l l' -> Spec.in_bucket b l = Spec.in_bucket b l'.
Proof.
  intros Hperm. unfold Spec.in_bucket. f_equal.
  induction Hperm as [| x l l' _ IH | x y l | l l' l'' _ IH1 _ IH2];
    cbn [List.filter].
  - reflexivity.
  - destruct (Spec.bucket_eqb (Spec.classify x) b); cbn [List.length];
      rewrite IH; reflexivity.
  - destruct (Spec.bucket_eqb (Spec.classify x) b),
             (Spec.bucket_eqb (Spec.classify y) b); reflexivity.
  - rewrite IH1. exact IH2.
Qed.

Lemma totals_reordered (cases cases' : list json) (st : Stats) :
  Permutation cases cases' ->
  generate_stats cases = Ok st ->
  exists st', generate_stats cases' = Ok st' /\ totals st' = totals st.
Proof.
  intros Hperm Hgen.
  pose proof (stats_loop_steps cases _ _ Hgen) as Hsteps.
  destruct (stats_loop_from_steps cases'
              (Permutation_Forall Hperm Hsteps) initial_stats) as [st' Hgen'].
  exists st'. split; [exact Hgen'|].
  destruct (generate_stats_totals cases st Hgen) as [_ ->].
  destruct (generate_stats_totals cases' st' Hgen') as [_ ->].
  pose proof (Permutation_map Terms.counts_or_zero Hperm) as Hcounts.
  unfold Terms.totals_of.
  rewrite (Permutation_length Hcounts).
  rewrite !(in_bucket_permutation _ _ _ Hcounts).
  rewrite !(sum_of_permutation _ _ _ Hcounts).
  reflexivity.
Qed.

(** X11: the totals do not depend on the order of the records.  If
    [generate_stats] returns for a list, it returns for every reordering of
    it, with the same eight totals; so sorting the records before the
    statistics, as the routes do, changes none of them. *)
Theorem generate_stats_order_independent (cases cases' : list json) (st : Stats) :
  Permutation cases cases' ->
  generate_stats cases = Ok st ->
  exists st', generate_stats cases' = Ok st' /\ totals st' = totals st.
Proof. apply totals_reordered. Qed.

Lemma generate_stats_order_independent_witness :
  exists st',
    generate_stats [JDict [("cm_fatalInjuryCount", JInt 1)]; JDict []] = Ok st' /\
    totals st' = Terms.totals_of [(0, 0, 0); (1, 0, 0)].
Proof.
  apply (generate_stats_order_independent
           [JDict []; JDict [("cm_fatalInjuryCount", JInt 1)]]
           [JDict [("cm_fatalInjuryCount", JInt 1)]; JDict []]
           {| totals := Terms.totals_of [(0, 0, 0); (1, 0, 0)];
              by_state := [(JStr "Unknown", 2)];
              by_highest_injury := [(JStr "Unknown", 2)] |}).
  - apply perm_swap.
  - reflexivity.
Defined.

End StatsMore.

(* ================================================================== *)
(** ** Further properties of [sort_cases] *)
(* ================================================================== *)

Module SortMore.
Import Py DataProcessor.

(** *** Insertion sort with a strict weak order *)

Section PureSortFacts.
Context {B : Type}.
Variable ltb : B -> B -> bool.
Hypothesis ltb_asym : forall a b, ltb a b = true -> ltb b a = false.
Hypothesis leb_trans :
  forall a b c, ltb b a = false -> ltb c b = false -> ltb c a = false.

Lemma ins_permutation (x : B) (l : list B) :
  Permutation (x :: l) (SortModel.ins ltb x l).
Proof.
  induction l as [|y l IH]; cbn [SortModel.ins]; [apply Permutation_refl|].
  destruct (ltb y x); [|apply Permutation_refl].
  apply perm_trans with (y :: x :: l); [apply perm_swap|].
  apply perm_skip. exact IH.
Qed.

Lemma isort_permutation (l : list B) : Permutation l (SortModel.isort ltb l).
Proof.
  induction l as [|x l IH]; cbn [SortModel.isort]; [apply perm_nil|].
  apply perm_trans with (x :: SortModel.isort ltb l);
    [apply perm_skip; exact IH | apply ins_permutation].
Qed.

Lemma ins_sorted (x : B) (l : list B) :
  StronglySorted (fun a b => ltb b a = false) l ->
  StronglySorted (fun a b => ltb b a = false) (SortModel.ins ltb x l).
Proof.
  induction 1 as [|y l Hl IH Hy]; cbn [SortModel.ins].
  - constructor; constructor.
  - destruct (ltb y x) eqn:Hyx.
    + constructor; [exact IH|].
      apply Permutation_Forall with (x :: l); [apply ins_permutation|].
      constructor; [|exact Hy].
      apply ltb_asym. exact Hyx.
    + constructor; [constructor; assumption|].
      constructor; [exact Hyx|].
      rewrite Forall_forall in Hy |- *. intros z Hz.
      apply (leb_trans x y z Hyx (Hy z Hz)).
Qed.

Lemma isort_sorted (l : list B) :
  StronglySorted (fun a b => ltb b a = false) (SortModel.isort ltb l).
Proof.
  induction l as [|x l IH]; cbn [SortModel.isort]; [constructor|].
  apply ins_sorted. exact IH.
Qed.

Lemma isort_fixed (l : list B) :
  StronglySorted (fun a b => ltb b a = false) l -> SortModel.isort ltb l = l.
Proof.
  induction 1 as [|x l Hl IH Hx]; [reflexivity|].
  cbn [SortModel.isort]. rewrite IH.
  destruct l as [|y l]; [reflexivity|].
  cbn [SortModel.ins]. inversion Hx as [|? ? Hxy _]; subst.
  rewrite Hxy. reflexivity.
Qed.

(** Items of a class no two members of which are [ltb] keep their order. *)
Lemma ins_stable (p : B -> bool) (x : B) (l : list B) :
  (forall a b, p a = true -> p b = true -> ltb a b = false) ->
  List.filter p (SortModel.ins ltb x l) = List.filter p (x :: l).
Proof.
  intros Hclass. induction l as [|y l IH]; [reflexivity|].
  cbn [SortModel.ins]. destruct (ltb y x) eqn:Hyx; [|reflexivity].
  cbn [List.filter] in *. rewrite IH.
  destruct (p y) eqn:Hpy, (p x) eqn:Hpx; try reflexivity.
  rewrite (Hclass y x Hpy Hpx) in Hyx. discriminate.
Qed.

Lemma isort_stable (p : B -> bool) (l : list B) :
  (forall a b, p a = true -> p b = true -> ltb a b = false) ->
  List.filter p (SortModel.isort ltb l) = List.filter p l.
Proof.
  intros Hclass. induction l as [|x l IH]; [reflexivity|].
  cbn [SortModel.isort]. rewrite ins_stable by exact Hclass.
  cbn [List.filter]. rewrite IH. reflexivity.
Qed.

End PureSortFacts.

Lemma sorted_nth {B : Type} (R : B -> B -> Prop) (l : list B) :
  StronglySorted R l ->
  forall i j a b,
    (i < j)%nat -> nth_error l i = Some a -> nth_error l j = Some b -> R a b.
Proof.
  induction 1 as [|x l Hl IH Hx]; intros i j a b Hij Hi Hj.
  - destruct i; discriminate.
  - destruct j as [|j]; [lia|]. cbn [nth_error] in Hj.
    destruct i as [|i].
    + injection Hi as <-. rewrite Forall_forall in Hx.
      apply Hx. apply nth_error_In with j. exact Hj.
    + cbn [nth_error] in Hi. apply (IH i j); [lia | assumption | assumption].
Qed.

Lemma sorted_snoc {B : Type} (R : B -> B -> Prop) (l : list B) (x : B) :
  StronglySorted R l -> Forall (fun y => R y x) l -> StronglySorted R (l ++ [x]).
Proof.
  induction 1 as [|y l Hl IH Hy]; intros Hall; cbn [app].
  - constructor; constructor.
  - inversion Hall as [|? ? Hyx Hrest]; subst.
    constructor; [apply IH; exact Hrest|].
    apply Forall_app. split; [exact Hy|]. constructor; [exact Hyx | constructor].
Qed.

Lemma sorted_rev {B : Type} (R : B -> B -> Prop) (l : list B) :
  StronglySorted R l -> StronglySorted (fun a b => R b a) (rev l).
Proof.
  induction 1 as [|x l Hl IH Hx]; cbn [rev]; [constructor|].
  apply sorted_snoc; [exact IH|].
  rewrite Forall_forall in Hx |- *. intros y Hy.
  apply Hx. apply in_rev. exact Hy.
Qed.

Lemma sorted_all {B : Type} (R : B -> B -> Prop) (l : list B) :
  (forall a b, In a l -> In b l -> R a b) -> StronglySorted R l.
Proof.
  induction l as [|x l IH]; intros Hall; constructor.
  - apply IH. intros a b Ha Hb. apply Hall; right; assumption.
  - apply Forall_forall. intros y Hy. apply Hall; [left; reflexivity | right; exact Hy].
Qed.

Lemma filter_reversed {B : Type} (p : B -> bool) (l : list B) :
  List.filter p (rev l) = rev (List.filter p l).
Proof.
  induction l as [|x l IH]; [reflexivity|].
  cbn [rev List.filter]. rewrite filter_app, IH. cbn [List.filter].
  destruct (p x); cbn [rev]; [reflexivity | apply app_nil_r].
Qed.

(** *** The order of ranks *)

Lemma Qlt_bool_asym (p q : Q) : Qlt_bool p q = true -> Qlt_bool q p = false.
Proof.
  unfold Qlt_bool. intros H. apply negb_true_iff in H. apply negb_false_iff.
  apply Qle_bool_iff. apply Qlt_le_weak. apply Qnot_le_lt.
  intros Hle. apply Qle_bool_iff in Hle. congruence.
Qed.

Lemma Qle_bool_trans (a b c : Q) :
  Qlt_bool b a = false -> Qlt_bool c b = false -> Qlt_bool c a = false.
Proof.
  unfold Qlt_bool. rewrite !negb_false_iff, !Qle_bool_iff. apply Qle_trans.
Qed.

Lemma Qeq_not_lt (p q : Q) : Qeq_bool p q = true -> Qlt_bool p q = false.
Proof.
  unfold Qlt_bool. intros H. apply Qeq_bool_iff in H.
  apply negb_false_iff. apply Qle_bool_iff.
  apply Qle_lteq. right. symmetry. exact H.
Qed.

Lemma ascii_compare_lt_trans (a b c : ascii) :
  Ascii.compare a b = Lt -> Ascii.compare b c = Lt -> Ascii.compare a c = Lt.
Proof.
  unfold Ascii.compare. rewrite !N.compare_lt_iff. apply N.lt_trans.
Qed.

Lemma string_compare_lt_trans (a : string) :
  forall b c,
    String.compare a b = Lt -> String.compare b c = Lt -> String.compare a c = Lt.
Proof.
  induction a as [|x a IH]; intros [|y b] [|z c]; cbn [String.compare];
    try discriminate; try reflexivity.
  destruct (Ascii.compare x y) eqn:Hxy; try discriminate.
  - apply Ascii.compare_eq_iff in Hxy. subst y.
    destruct (Ascii.compare x z); try discriminate; [apply IH | reflexivity].
  - intros _. destruct (Ascii.compare y z) eqn:Hyz; try discriminate.
    + apply Ascii.compare_eq_iff in Hyz. subst z. rewrite Hxy. reflexivity.
    + rewrite (ascii_compare_lt_trans _ _ _ Hxy Hyz). reflexivity.
Qed.

Lemma string_ltb_asym (a b : string) :
  String.ltb a b = true -> String.ltb b a = false.
Proof.
  unfold String.ltb. rewrite (String.compare_antisym b a).
  destruct (String.compare a b); cbn; congruence.
Qed.

Lemma string_ltb_irrefl (a : string) : String.ltb a a = false.
Proof.
  unfold String.ltb.
  replace (String.compare a a) with Eq; [reflexivity|].
  symmetry. induction a as [|x a IH]; [reflexivity|].
  cbn [String.compare]. unfold Ascii.compare. rewrite N.compare_refl. exact IH.
Qed.

Lemma string_leb_trans (a b c : string) :
  String.ltb b a = false -> String.ltb c b = false -> String.ltb c a = false.
Proof.
  unfold String.ltb. intros Hba Hcb.
  destruct (String.compare c a) eqn:Hca; try reflexivity. exfalso.
  destruct (String.compare b a) eqn:Hab; try discriminate.
  - apply String.compare_eq_iff in Hab. subst b. rewrite Hca in Hcb. discriminate.
  - assert (Hlt : String.compare a b = Lt)
      by (rewrite String.compare_antisym, Hab; reflexivity).
    rewrite (string_compare_lt_trans _ _ _ Hca Hlt) in Hcb. discriminate.
Qed.

Lemma rank_lt_asym (a b : SortModel.rank) :
  SortModel.rank_lt a b = true -> SortModel.rank_lt b a = false.
Proof.
  destruct a, b; cbn [SortModel.rank_lt]; try discriminate; try reflexivity.
  - apply Qlt_bool_asym.
  - apply string_ltb_asym.
Qed.

Lemma rank_le_trans (a b c : SortModel.rank) :
  SortModel.rank_lt b a = false -> SortModel.rank_lt c b = false ->
  SortModel.rank_lt c a = false.
Proof.
  destruct a, b, c; cbn [SortModel.rank_lt]; try discriminate; try reflexivity.
  - apply Qle_bool_trans.
  - apply string_leb_trans.
Qed.

Lemma before_asym (field : string) (a b : json) :
  SortModel.before field a b = true -> SortModel.before field b a = false.
Proof. apply rank_lt_asym. Qed.

Lemma before_trans (field : string) (a b c : json) :
  SortModel.before field b a = false -> SortModel.before field c b = false ->
  SortModel.before field c a = false.
Proof. apply rank_le_trans. Qed.

(** *** [sort_cases] on a uniform field *)

(** On two numbers, or on two strings, [key_lt] returns what the order of
    ranks says. *)
Lemma key_lt_rank (v1 v2 : json) :
  (SortModel.is_number v1 = true /\ SortModel.is_number v2 = true) \/
  (SortModel.is_text v1 = true /\ SortModel.is_text v2 = true) ->
  key_lt (is_none v1, v1) (is_none v2, v2)
  = Ok (SortModel.rank_lt (SortModel.rank_of v1) (SortModel.rank_of v2)).
Proof.
  intros [[H1 H2] | [H1 H2]];
    destruct v1 as [| b1 | q1 | s1 | l1 | d1 | nf1]; try discriminate H1;
    destruct v2 as [| b2 | q2 | s2 | l2 | d2 | nf2]; try discriminate H2;
    try reflexivity;
    unfold key_lt;
    cbn [is_none Bool.eqb negb orb py_is_or_eq same_nan py_eq py_lt
           SortModel.rank_of SortModel.rank_lt].
  - destruct b1, b2; reflexivity.
  - destruct (Qeq_bool (bool_num b1) q2) eqn:Heq; [|reflexivity].
    rewrite (Qeq_not_lt _ _ Heq). reflexivity.
  - destruct (Qeq_bool q1 (bool_num b2)) eqn:Heq; [|reflexivity].
    rewrite (Qeq_not_lt _ _ Heq). reflexivity.
  - destruct (Qeq_bool q1 q2) eqn:Heq; [|reflexivity].
    rewrite (Qeq_not_lt _ _ Heq). reflexivity.
  - destruct (String.eqb s1 s2) eqn:Heq; [|reflexivity].
    apply String.eqb_eq in Heq. subst s2. rewrite string_ltb_irrefl. reflexivity.
Qed.

Lemma uniform_agree (field : string) (cases : list json) :
  SortModel.uniform field cases = true ->
  forall x y, In x cases -> In y cases ->
              key_lt (Spec.key_of field x) (Spec.key_of field y)
              = Ok (SortModel.before field x y).
Proof.
  intros Huni x y Hx Hy. unfold Spec.key_of, SortModel.before. cbv zeta.
  apply key_lt_rank. unfold SortModel.uniform in Huni.
  apply orb_prop in Huni. destruct Huni as [Hall | Hall];
    rewrite forallb_forall in Hall; [left | right];
    split; apply Hall; assumption.
Qed.

Lemma insert_pure (field : string) (x : json) (l : list json) :
  (forall y, In y l ->
             key_lt (Spec.key_of field y) (Spec.key_of field x)
             = Ok (SortModel.before field y x)) ->
  insert key_lt (Spec.key_of field x, x) (map (fun c => (Spec.key_of field c, c)) l)
  = Ok (map (fun c => (Spec.key_of field c, c))
          (SortModel.ins (SortModel.before field) x l)).
Proof.
  induction l as [|y l IH]; intros Hcmp; [reflexivity|].
  cbn [map insert SortModel.ins fst].
  rewrite (Hcmp y (or_introl eq_refl)). cbn [bind].
  destruct (SortModel.before field y x); [|reflexivity].
  rewrite IH by (intros z Hz; apply Hcmp; right; exact Hz).
  reflexivity.
Qed.

Lemma stable_sort_pure (field : string) (l : list json) :
  (forall x y, In x l -> In y l ->
               key_lt (Spec.key_of field x) (Spec.key_of field y)
               = Ok (SortModel.before field x y)) ->
  stable_sort key_lt (map (fun c => (Spec.key_of field c, c)) l)
  = Ok (map (fun c => (Spec.key_of field c, c))
          (SortModel.isort (SortModel.before field) l)).
Proof.
  induction l as [|x l IH]; intros Hcmp; [reflexivity|].
  cbn [map stable_sort SortModel.isort].
  rewrite IH by (intros y z Hy Hz; apply Hcmp; right; assumption).
  cbn [bind]. apply insert_pure.
  intros y Hy. apply Hcmp; [right | left; reflexivity].
  apply Permutation_in with (SortModel.isort (SortModel.before field) l);
    [apply Permutation_sym, isort_permutation | exact Hy].
Qed.

(** On a uniform field [sort_cases] never raises, and returns the stable
    sort by rank, reversed around for descending order. *)
Lemma sort_cases_pure (cases : list json) (field order : string) :
  field <> EmptyString ->
  SortModel.uniform field cases = true ->
  sort_cases cases field order
  = Ok (SortModel.sorted_records field (String.eqb (lower order) "desc") cases).
Proof.
  intros Hfield Huni. unfold sort_cases.
  apply String.eqb_neq in Hfield. rewrite Hfield.
  unfold sorted, SortModel.sorted_records.
  rewrite (SortFacts.decorate_total (sort_key field) (Spec.key_of field) cases
             (SortFacts.sort_key_total field)).
  cbn [bind].
  pose proof (uniform_agree field cases Huni) as Hagree.
  destruct (String.eqb (lower order) "desc").
  - rewrite <- map_rev, stable_sort_pure.
    + cbn [bind]. rewrite <- map_rev, SortFacts.map_snd_decorated. reflexivity.
    + intros x y Hx Hy. apply Hagree; apply in_rev; assumption.
  - rewrite stable_sort_pure by exact Hagree.
    cbn [bind]. rewrite SortFacts.map_snd_decorated. reflexivity.
Qed.

Lemma uniform_permutation (field : string) (l l' : list json) :
  Permutation l l' -> SortModel.uniform field l = SortModel.uniform field l'.
Proof.
  intros Hperm. unfold SortModel.uniform.
  rewrite !(FilterMore.forallb_permutation _ _ _ Hperm). reflexivity.
Qed.

Lemma sorted_records_permutation (field : string) (descending : bool)
    (cases : list json) :
  Permutation cases (SortModel.sorted_records field descending cases).
Proof.
  unfold SortModel.sorted_records. destruct descending.
  - apply perm_trans with (rev cases); [apply Permutation_rev|].
    apply perm_trans with (SortModel.isort (SortModel.before field) (rev cases));
      [apply isort_permutation | apply Permutation_rev].
  - apply isort_permutation.
Qed.

(** X12: the result is in order.  When the sort field is, in every record,
    absent, null, a boolean or a finite number, or in every record absent,
    null or a string, [sort_cases] returns without raising and, in ascending
    order, no record is followed anywhere by a record with a strictly
    smaller key, while in descending order no record is followed by a
    record with a strictly greater key.  Numbers are ordered by value,
    strings by code point, and an absent or null value counts as greater
    than every present one.  A field that holds a NaN is left out: [<] does
    not order such keys. *)
Theorem sort_cases_ordered (cases : list json) (field order : string) :
  field <> EmptyString ->
  SortModel.uniform field cases = true ->
  exists out,
    sort_cases cases field order = Ok out /\
    forall i j a b,
      (i < j)%nat -> nth_error out i = Some a -> nth_error out j = Some b ->
      if String.eqb (lower order) "desc"
      then SortModel.before field a b = false
      else SortModel.before field b a = false.
Proof.
  intros Hfield Huni. eexists. split; [apply sort_cases_pure; assumption|].
  intros i j a b Hij Ha Hb. unfold SortModel.sorted_records in Ha, Hb.
  destruct (String.eqb (lower order) "desc").
  - apply (sorted_nth _ _
             (sorted_rev _ _ (isort_sorted (SortModel.before field)
                                (before_asym field) (before_trans field)
                                (rev cases)))
             i j a b Hij Ha Hb).
  - apply (sorted_nth _ _
             (isort_sorted (SortModel.before field)
                (before_asym field) (before_trans field) cases)
             i j a b Hij Ha Hb).
Qed.

Lemma sort_cases_ordered_witness :
  exists out,
    sort_cases [JDict [("n", JInt 2)]; JDict []; JDict [("n", JInt 1)]] "n" "asc"
    = Ok out /\
    forall i j a b,
      (i < j)%nat -> nth_error out i = Some a -> nth_error out j = Some b ->
      SortModel.before "n" b a = false.
Proof.
  apply (sort_cases_ordered
           [JDict [("n", JInt 2)]; JDict []; JDict [("n", JInt 1)]] "n" "asc").
  - discriminate.
  - reflexivity.
Defined.

Lemma same_key_class (field : string) (c a b : json) :
  SortModel.same_key field c a = true -> SortModel.same_key field c b = true ->
  SortModel.before field a b = false.
Proof.
  unfold SortModel.same_key. intros Ha Hb.
  apply andb_prop in Ha, Hb. destruct Ha as [_ Hac], Hb as [Hcb _].
  apply negb_true_iff in Hac, Hcb.
  apply (before_trans field b c a Hcb Hac).
Qed.

(** X13: the sort is stable in both orders.  On a uniform field (one that
    is absent, null, a boolean or a finite number in every record, or
    absent, null or a string in every record), the records whose key equals
    the key of any given record come out in the order in which they went
    in, ascending or descending; and when all records have equal keys (for
    instance when the field is absent from all of them) the list is
    returned as it is. *)
Theorem sort_cases_stable (cases : list json) (field order : string) :
  field <> EmptyString ->
  SortModel.uniform field cases = true ->
  exists out,
    sort_cases cases field order = Ok out /\
    (forall c, List.filter (SortModel.same_key field c) out
               = List.filter (SortModel.same_key field c) cases) /\
    ((forall a b, In a cases -> In b cases -> SortModel.same_key field a b = true) ->
     out = cases).
Proof.
  intros Hfield Huni. eexists. split; [apply sort_cases_pure; assumption|].
  unfold SortModel.sorted_records. split.
  - intros c.
    destruct (String.eqb (lower order) "desc").
    + rewrite filter_reversed, isort_stable, filter_reversed, rev_involutive.
      * reflexivity.
      * intros a b. apply same_key_class.
    + apply isort_stable. intros a b. apply same_key_class.
  - intros Hsame.
    assert (Hnone : forall a b, In a cases -> In b cases ->
                                SortModel.before field b a = false).
    { intros a b Ha Hb. specialize (Hsame b a Hb Ha).
      unfold SortModel.same_key in Hsame. apply andb_prop in Hsame.
      destruct Hsame as [H _]. apply negb_true_iff in H. exact H. }
    destruct (String.eqb (lower order) "desc").
    + rewrite isort_fixed; [apply rev_involutive|].
      apply sorted_all. intros a b Ha Hb.
      apply Hnone; apply in_rev; assumption.
    + apply isort_fixed. apply sorted_all. exact Hnone.
Qed.

Lemma sort_cases_stable_witness :
  exists out,
    sort_cases [JDict [("id", JInt 1)]; JDict [("id", JInt 2)]] "cm_state" "desc"
    = Ok out /\
    out = [JDict [("id", JInt 1)]; JDict [("id", JInt 2)]].
Proof.
  destruct (sort_cases_stable
              [JDict [("id", JInt 1)]; JDict [("id", JInt 2)]] "cm_state" "desc")
    as (out & Hout & _ & Hsame).
  - discriminate.
  - reflexivity.
  - exists out. split; [exact Hout|]. apply Hsame.
    intros a b Ha Hb. cbn [In] in Ha, Hb.
    destruct Ha as [<- | [<- | []]], Hb as [<- | [<- | []]]; reflexivity.
Defined.

(** X14: sorting is idempotent.  On a uniform field, sorting the result of
    [sort_cases] again by the same field and order returns it unchanged. *)
Theorem sort_cases_idempotent (cases out : list json) (field order : string) :
  SortModel.uniform field cases = true ->
  sort_cases cases field order = Ok out ->
  sort_cases out field order = Ok out.
Proof.
  intros Huni Hsort.
  destruct (String.eqb field EmptyString) eqn:Hfield.
  - unfold sort_cases in *. rewrite Hfield in *. reflexivity.
  - apply String.eqb_neq in Hfield.
    rewrite sort_cases_pure in Hsort by assumption. injection Hsort as <-.
    rewrite sort_cases_pure; [f_equal | exact Hfield |].
    + unfold SortModel.sorted_records.
      destruct (String.eqb (lower order) "desc").
      * rewrite rev_involutive. f_equal.
        apply isort_fixed.
        apply (isort_sorted _ (before_asym field) (before_trans field)).
      * apply isort_fixed.
        apply (isort_sorted _ (before_asym field) (before_trans field)).
    + rewrite <- (uniform_permutation field cases); [exact Huni|].
      apply sorted_records_permutation.
Qed.

Lemma sort_cases_idempotent_witness :
  sort_cases [JDict []; JDict [("n", JInt 2)]; JDict [("n", JInt 1)]] "n" "desc"
  = Ok [JDict []; JDict [("n", JInt 2)]; JDict [("n", JInt 1)]].
Proof.
  apply (sort_cases_idempotent
           [JDict [("n", JInt 2)]; JDict []; JDict [("n", JInt 1)]]);
    reflexivity.
Defined.

End SortMore.

(* ================================================================== *)
(** ** The month stream *)
(* ================================================================== *)

Module StreamsMore.
Import Py NtsbClient Datetime NtsbStreams.

Lemma month_range_cases (month : Z) :
  1 <= month <= 12 ->
  month = 1 \/ month = 2 \/ month = 3 \/ month = 4 \/ month = 5 \/ month = 6 \/
  month = 7 \/ month = 8 \/ month = 9 \/ month = 10 \/ month = 11 \/ month = 12.
Proof. lia. Qed.

Lemma year_in_range (year : Z) :
  MINYEAR <= year <= MAXYEAR ->
  negb ((MINYEAR <=? year) && (year <=? MAXYEAR)) = false.
Proof.
  intros [Hlo Hhi]. apply Z.leb_le in Hlo, Hhi. rewrite Hlo, Hhi. reflexivity.
Qed.

Lemma fits_int_within (n : Z) : -2147483648 <= n <= 2147483647 -> fits_int n = true.
Proof.
  intros [Hlo Hhi]. unfold fits_int.
  change INT_MIN with (-2147483648). change INT_MAX with 2147483647.
  apply Z.leb_le in Hlo, Hhi. rewrite Hlo, Hhi. reflexivity.
Qed.

Lemma days_agree (year month : Z) :
  1 <= month <= 12 ->
  monthrange_days year month = Ok (_days_in_month year month) /\
  28 <= _days_in_month year month <= 31.
Proof.
  intros Hmonth. unfold monthrange_days, _days_in_month.
  change (_is_leap year) with (isleap year).
  destruct (month_range_cases month Hmonth)
    as [-> | [-> | [-> | [-> | [-> | [-> | [-> | [-> | [-> | [-> | [-> | ->]]]]]]]]]]];
    destruct (isleap year);
    (split; [vm_compute; reflexivity | vm_compute; split; discriminate]).
Qed.

Lemma date_new_valid (year month day : Z) :
  MINYEAR <= year <= MAXYEAR -> 1 <= month <= 12 ->
  1 <= day <= _days_in_month year month ->
  date_new year month day
  = Ok {| Datetime.year := year; Datetime.month := month; Datetime.day := day |}.
Proof.
  intros Hyear Hmonth [Hd1 Hd2]. unfold date_new.
  destruct (days_agree year month Hmonth) as [_ Hdays].
  unfold MINYEAR, MAXYEAR in Hyear.
  rewrite !fits_int_within by lia. cbn [andb negb].
  rewrite (year_in_range year); [|unfold MINYEAR, MAXYEAR; lia].
  destruct Hmonth as [Hm1 Hm2].
  apply Z.leb_le in Hm1, Hm2, Hd1, Hd2. rewrite Hm1, Hm2, Hd1, Hd2. reflexivity.
Qed.

Lemma date_new_past_end (year month day : Z) :
  MINYEAR <= year <= MAXYEAR -> 1 <= month <= 12 ->
  _days_in_month year month < day <= 32 ->
  date_new year month day = Raise ValueError.
Proof.
  intros Hyear Hmonth [Hday Hsmall]. unfold date_new.
  unfold MINYEAR, MAXYEAR in Hyear.
  destruct (days_agree year month Hmonth) as [_ Hdays].
  rewrite !fits_int_within by lia. cbn [andb negb].
  rewrite (year_in_range year); [|unfold MINYEAR, MAXYEAR; lia].
  destruct Hmonth as [Hm1 Hm2].
  apply Z.leb_le in Hm1, Hm2. rewrite Hm1, Hm2. cbn [andb negb].
  apply Z.leb_gt in Hday. rewrite Hday, andb_false_r. reflexivity.
Qed.

(** X15: a month request covers the calendar month, no more and no less.
    For a year in 1..9999 and a month in 1..12, [stream_ntsb_zip_by_month]
    raises nothing and is the date-range stream from the first day of the
    month to its last day: a day of 28 to 31 after which the month has no
    further date.  For any other year and month it raises before any
    request is made: [OverflowError] when the year or the month is no C
    [int], and [ValueError] otherwise. *)
Theorem stream_by_month_covers_month (fuel : nat) (up : upstream)
    (year month : Z) (mode : string) :
  (MINYEAR <= year <= MAXYEAR -> 1 <= month <= 12 ->
   exists last_day,
     28 <= last_day <= 31 /\
     stream_ntsb_zip_by_month fuel up year month mode
     = Ok (stream_ntsb_zip_by_date_range fuel up
             {| Datetime.year := year; Datetime.month := month; day := 1 |}
             {| Datetime.year := year; Datetime.month := month; day := last_day |}
             mode) /\
     date_new year month (last_day + 1) = Raise ValueError) /\
  (~ (MINYEAR <= year <= MAXYEAR /\ 1 <= month <= 12) ->
   stream_ntsb_zip_by_month fuel up year month mode
   = Raise (if fits_int year && fits_int month
            then ValueError else OverflowError)).
Proof.
  split.
  - intros Hyear Hmonth.
    destruct (days_agree year month Hmonth) as [Hrange Hdays].
    exists (_days_in_month year month). split; [exact Hdays | split].
    + unfold stream_ntsb_zip_by_month.
      rewrite (date_new_valid year month 1 Hyear Hmonth) by lia.
      rewrite Hrange. cbn [bind].
      rewrite (date_new_valid year month _ Hyear Hmonth) by lia.
      reflexivity.
    + apply date_new_past_end; [assumption | assumption | lia].
  - intros Hbad.
    unfold stream_ntsb_zip_by_month, date_new.
    change (fits_int 1) with true. rewrite andb_true_r.
    destruct (fits_int year && fits_int month); cbn [negb]; [|reflexivity].
    destruct ((MINYEAR <=? year) && (year <=? MAXYEAR)) eqn:Hy; [|reflexivity].
    destruct ((1 <=? month) && (month <=? 12)) eqn:Hm; [|reflexivity].
    exfalso. apply Hbad.
    apply andb_prop in Hy, Hm. destruct Hy as [Hy1 Hy2], Hm as [Hm1 Hm2].
    apply Z.leb_le in Hy1, Hy2, Hm1, Hm2. lia.
Qed.

Lemma stream_by_month_covers_month_witness :
  (exists last_day,
      28 <= last_day <= 31 /\
      stream_ntsb_zip_by_month 3 Upstreams.fails_twice 2024 2 "Aviation"
      = Ok (stream_ntsb_zip_by_date_range 3 Upstreams.fails_twice
              {| Datetime.year := 2024; Datetime.month := 2; day := 1 |}
              {| Datetime.year := 2024; Datetime.month := 2; day := last_day |}
              "Aviation") /\
      date_new 2024 2 (last_day + 1) = Raise ValueError) /\
  stream_ntsb_zip_by_month 3 Upstreams.fails_twice 2024 13 "Aviation"
  = Raise ValueError /\
  stream_ntsb_zip_by_month 3 Upstreams.fails_twice (2 ^ 31) 1 "Aviation"
  = Raise OverflowError.
Proof.
  split; [|split].
  - apply (proj1 (stream_by_month_covers_month 3 Upstreams.fails_twice
                    2024 2 "Aviation")); unfold MINYEAR, MAXYEAR; lia.
  - apply (proj2 (stream_by_month_covers_month 3 Upstreams.fails_twice
                    2024 13 "Aviation")). lia.
  - apply (proj2 (stream_by_month_covers_month 3 Upstreams.fails_twice
                    (2 ^ 31) 1 "Aviation")).
    unfold MINYEAR, MAXYEAR. change (2 ^ 31) with 2147483648. lia.
Defined.

End StreamsMore.

(* ================================================================== *)
(** ** Properties of [extract_json_from_zip] *)
(* ================================================================== *)

Module ExtractorFacts.
Import Py NtsbClient Extractor.

Lemma last_named_filter (p : string -> bool) (z : archive) (name : string) :
  p name = true ->
  last_named (List.filter (fun m => p (fst m)) z) name = last_named z name.
Proof.
  intros Hp. induction z as [|[n content] z IH]; [reflexivity|].
  cbn [List.filter fst last_named].
  destruct (p n) eqn:Hpn; cbn [last_named]; rewrite IH.
  - reflexivity.
  - destruct (last_named z name); [reflexivity|].
    destruct (String.eqb n name) eqn:Hn; [|reflexivity].
    apply String.eqb_eq in Hn. subst n. congruence.
Qed.

Lemma namelist_filter (p : string -> bool) (z : archive) :
  List.filter p (namelist (List.filter (fun m => p (fst m)) z))
  = List.filter p (namelist z).
Proof.
  unfold namelist. induction z as [|[n content] z IH]; [reflexivity|].
  cbn [List.filter fst map].
  destruct (p n) eqn:Hpn; cbn [List.filter map fst]; rewrite ?Hpn, IH; reflexivity.
Qed.

Lemma last_named_app (front back : archive) (name : string) :
  last_named (front ++ back) name
  = match last_named back name with
    | Some later => Some later
    | None => last_named front name
    end.
Proof.
  induction front as [|[n content] front IH]; cbn [app last_named].
  - destruct (last_named back name); reflexivity.
  - rewrite IH. destruct (last_named back name); reflexivity.
Qed.

Lemma no_json_names (z : archive) :
  (forall m, In m z -> endswith (fst m) ".json" = false) ->
  List.filter (fun f => endswith f ".json") (namelist z) = [].
Proof.
  unfold namelist. induction z as [|m z IH]; intros Hnone; [reflexivity|].
  cbn [map List.filter]. rewrite (Hnone m (or_introl eq_refl)).
  apply IH. intros m' Hm'. apply Hnone. right. exact Hm'.
Qed.

(** X16: what is decoded is the member under the first name that ends in
    [.json].  An archive without such a name gives the empty list, not an
    error, even if its members cannot be read.  Otherwise the result is
    [json.loads] of what reading that name gives, which is the content of
    the last member that carries the name; an error of the read or of the
    decoding is the error of the call.  The members with other names can
    be removed without changing the result. *)
Theorem extract_ignores_other_members (loads : bytes -> result json) (z : archive) :
  ((forall m, In m z -> endswith (fst m) ".json" = false) ->
   extract_members loads z = Ok (JList [])) /\
  (forall front name content back,
      z = front ++ (name, content) :: back ->
      (forall m, In m front -> endswith (fst m) ".json" = false) ->
      endswith name ".json" = true ->
      extract_members loads z
      = bind (match last_named back name with
              | Some later => later
              | None => content
              end) loads) /\
  extract_members loads
    (List.filter (fun m => endswith (fst m) ".json") z)
  = extract_members loads z.
Proof.
  split; [|split].
  - intros Hnone. unfold extract_members. rewrite (no_json_names z Hnone).
    reflexivity.
  - intros front name content back -> Hfront Hname.
    unfold extract_members, namelist.
    rewrite map_app, filter_app. fold (namelist front).
    rewrite (no_json_names front Hfront).
    cbn [app map List.filter fst]. rewrite Hname.
    unfold read. rewrite last_named_app. cbn [last_named].
    rewrite String.eqb_refl.
    destruct (last_named back name); reflexivity.
  - unfold extract_members.
    rewrite (namelist_filter (fun f => endswith f ".json") z).
    destruct (List.filter (fun f => endswith f ".json") (namelist z))
      as [|json_file rest] eqn:Hfiles; [reflexivity|].
    assert (Hjson : endswith json_file ".json" = true).
    { assert (Hin : In json_file
                      (List.filter (fun f => endswith f ".json") (namelist z)))
        by (rewrite Hfiles; left; reflexivity).
      apply filter_In in Hin. exact (proj2 Hin). }
    unfold read.
    rewrite (last_named_filter (fun f => endswith f ".json") z json_file Hjson).
    reflexivity.
Qed.

Lemma extract_ignores_other_members_witness :
  extract_members Samples.loads_length
    [("README.txt", Raise (OtherError "BadZipFile"));
     ("notes.json.bak", Ok [Byte.x00])]
  = Ok (JList [])
  /\ extract_members Samples.loads_length
       [("README.txt", Raise (OtherError "BadZipFile"));
        ("cases.json", Ok [Byte.x5b; Byte.x5d]);
        ("more.json", Ok [Byte.x5b; Byte.x31; Byte.x5d])]
     = Ok (JList [JInt 2]).
Proof.
  split.
  - apply (proj1 (extract_ignores_other_members Samples.loads_length
                    [("README.txt", Raise (OtherError "BadZipFile"));
                     ("notes.json.bak", Ok [Byte.x00])])).
    intros m Hm. cbn [In] in Hm.
    destruct Hm as [<- | [<- | []]]; reflexivity.
  - apply (proj1 (proj2 (extract_ignores_other_members Samples.loads_length
                           [("README.txt", Raise (OtherError "BadZipFile"));
                            ("cases.json", Ok [Byte.x5b; Byte.x5d]);
                            ("more.json", Ok [Byte.x5b; Byte.x31; Byte.x5d])]))
             [("README.txt", Raise (OtherError "BadZipFile"))]
             "cases.json" (Ok [Byte.x5b; Byte.x5d])
             [("more.json", Ok [Byte.x5b; Byte.x31; Byte.x5d])]).
    + reflexivity.
    + intros m Hm. cbn [In] in Hm. destruct Hm as [<- | []]. reflexivity.
    + reflexivity.
Defined.

End ExtractorFacts.

(* ================================================================== *)
(** ** Properties of the data routes *)
(* ================================================================== *)

Module RoutesFacts.
Import Py NtsbClient Datetime DataProcessor DataRoutes.

Lemma drain_responds (evs : list event) (out : outcome) (buf : bytes) :
  drain (evs, out) = Responds buf ->
  out = Completed /\ buf = List.concat (delivered evs) /\ buf <> [].
Proof.
  unfold drain. cbn [fst snd].
  destruct out as [|e]; [|discriminate].
  destruct (List.concat (delivered evs)) as [|b rest] eqn:Hbuf; [discriminate|].
  intros H. injection H as <-. repeat split. discriminate.
Qed.

(** X17: what the JSON routes buffer.  The bytes that
    [_download_zip_bytes] returns are never empty and are the chunks of
    every attempt made, in order, up to and including an attempt that
    succeeded: the cut-off body of an attempt that failed midway stays in
    front of the body that the retry delivers.  When every failing attempt
    fails before its first chunk, the bytes are exactly the body of one
    successful answer.  With fuel for three attempts the call always
    ends. *)
Theorem download_zip_bytes_buffer (fuel : nat) (up : upstream)
    (start_date end_date : date) (mode : string) :
  let payload := NtsbStreams._build_date_range_payload start_date end_date mode in
  (forall buf,
      _download_zip_bytes fuel up start_date end_date mode = Some (Responds buf) ->
      buf <> [] /\
      exists n,
        (1 <= n <= 3)%nat /\
        Spec.failure (up payload (Z.of_nat n)) = None /\
        buf = List.concat
                (List.concat (map Spec.received
                                (Spec.attempts_made up payload 0 n)))) /\
  ((forall n e, Spec.failure (up payload n) = Some e ->
                Spec.received (up payload n) = []) ->
   forall buf,
     _download_zip_bytes fuel up start_date end_date mode = Some (Responds buf) ->
     exists n,
       Spec.failure (up payload n) = None /\
       buf = List.concat (body_of up start_date end_date mode n)) /\
  ((3 <= fuel)%nat ->
   exists r, _download_zip_bytes fuel up start_date end_date mode = Some r).
Proof.
  intros payload.
  unfold _download_zip_bytes, NtsbStreams.stream_ntsb_zip_by_date_range.
  fold payload. cbv zeta.
  split; [|split].
  - intros buf Hbuf.
    destruct (_stream_file_export fuel up payload) as [[evs out]|] eqn:Hrun;
      [|discriminate].
    cbn [option_map] in Hbuf. injection Hbuf as Hbuf.
    destruct (drain_responds _ _ _ Hbuf) as (-> & -> & Hne).
    split; [exact Hne|].
    destruct (ClientMore.stream_loop_shape up payload fuel 0 evs Completed Hrun)
      as (n & Hevs & Hbound & _ & Hlast).
    exists (S n). split; [|split].
    + unfold MAX_RETRIES in Hbound. lia.
    + exact Hlast.
    + rewrite (ClientFacts.stream_loop_delivered up payload fuel 0 evs Completed Hrun).
      rewrite Hevs, ClientMore.attempts_trace_requests. reflexivity.
  - intros Hclean buf Hbuf.
    destruct (_stream_file_export fuel up payload) as [[evs out]|] eqn:Hrun;
      [|discriminate].
    cbn [option_map] in Hbuf. injection Hbuf as Hbuf.
    destruct (drain_responds _ _ _ Hbuf) as (-> & -> & _).
    destruct (ClientFacts.stream_loop_no_partial up payload fuel Hclean 0 evs
                Completed Hrun) as [n Hn].
    exists n. unfold body_of. fold payload. rewrite Hn. split; reflexivity.
  - intros Hfuel.
    destruct (ClientFacts.stream_loop_bounded up payload fuel 0)
      as (evs & out & Hrun & _); [lia | unfold MAX_RETRIES; lia |].
    unfold _stream_file_export. rewrite Hrun. eexists. reflexivity.
Qed.

Lemma download_zip_bytes_buffer_witness :
  _download_zip_bytes 3 Upstreams.drops_mid_body
    {| year := 2025; month := 4; day := 1 |}
    {| year := 2025; month := 4; day := 2 |} "Aviation"
  = Some (Responds (Upstreams.chunk1 ++ Upstreams.chunk1 ++ Upstreams.chunk2))
  /\ exists n,
       Spec.failure (Upstreams.fails_twice JNull n) = None /\
       Upstreams.chunk1 ++ Upstreams.chunk2
       = List.concat (body_of Upstreams.fails_twice
                        {| year := 2025; month := 4; day := 1 |}
                        {| year := 2025; month := 4; day := 2 |} "Aviation" n).
Proof.
  split; [reflexivity|].
  destruct (download_zip_bytes_buffer 3 Upstreams.fails_twice
              {| year := 2025; month := 4; day := 1 |}
              {| year := 2025; month := 4; day := 2 |} "Aviation")
    as (_ & Hclean & _).
  apply Hclean.
  - intros n e. unfold Upstreams.fails_twice.
    destruct (n <=? 2); [reflexivity | discriminate].
  - reflexivity.
Defined.

(** *** The case routes *)

Lemma decorate_items {K A : Type} (key : A -> result K) (l : list A) :
  forall keyed, decorate key l = Ok keyed -> map snd keyed = l.
Proof.
  induction l as [|x l IH]; intros keyed Hdec.
  - injection Hdec as <-. reflexivity.
  - cbn [decorate] in Hdec.
    destruct (key x) as [k|]; [|discriminate]. cbn [bind] in Hdec.
    destruct (decorate key l) as [r|]; [|discriminate]. cbn [bind] in Hdec.
    injection Hdec as <-. cbn [map snd]. rewrite (IH r eq_refl). reflexivity.
Qed.

(** Whenever [sort_cases] returns, it returns a permutation. *)
Lemma sort_cases_returns_permutation (cases out : list json) (field order : string) :
  sort_cases cases field order = Ok out -> Permutation cases out.
Proof.
  unfold sort_cases.
  destruct (String.eqb field EmptyString).
  - intros H. injection H as <-. apply Permutation_refl.
  - unfold sorted.
    destruct (decorate (sort_key field) cases) as [keyed|] eqn:Hdec; [|discriminate].
    cbn [bind]. rewrite <- (decorate_items _ _ _ Hdec).
    destruct (String.eqb (lower order) "desc").
    + destruct (stable_sort key_lt (rev keyed)) as [r|] eqn:Hr; [|discriminate].
      cbn [bind]. intros H. injection H as <-.
      apply Permutation_map.
      apply perm_trans with (rev keyed); [apply Permutation_rev|].
      apply perm_trans with r; [|apply Permutation_rev].
      apply (SortFacts.stable_sort_permutation key_lt _ _ Hr).
    + destruct (stable_sort key_lt keyed) as [r|] eqn:Hr; [|discriminate].
      cbn [bind]. intros H. injection H as <-.
      apply Permutation_map.
      apply (SortFacts.stable_sort_permutation key_lt _ _ Hr).
Qed.

Lemma sort_if_asked_responds (cases sorted : list json) (sort_by : option string)
    (order : string) :
  sort_if_asked cases sort_by order = Responds sorted ->
  Permutation cases sorted /\
  (sort_by = None \/ sort_by = Some EmptyString -> sorted = cases).
Proof.
  unfold sort_if_asked.
  destruct sort_by as [field|].
  - destruct (String.eqb field EmptyString) eqn:Hfield; cbn [negb].
    + intros H. injection H as <-. split; [apply Permutation_refl | reflexivity].
    + destruct (sort_cases cases field order) as [out|] eqn:Hsort; [|discriminate].
      cbn [call]. intros H. injection H as <-.
      split; [apply (sort_cases_returns_permutation _ _ _ _ Hsort)|].
      intros [Hnone | Hempty]; [discriminate|].
      injection Hempty as ->. discriminate.
  - intros H. injection H as <-. split; [apply Permutation_refl | reflexivity].
Qed.

Lemma respond_responds {Q : Type} (cases : list json) (limit offset : Z) (q : Q)
    (r : CaseResponse Q) :
  respond cases limit offset q = Responds r ->
  1 <= limit -> 0 <= offset ->
  data r = firstn (Z.to_nat limit) (skipn (Z.to_nat offset) cases) /\
  pagination r = {| total := Z.of_nat (List.length cases);
                     DataRoutes.limit := limit;
                     DataRoutes.offset := offset |} /\
  metadata_query r = q /\
  generate_stats cases = Ok (metadata_stats r) /\
  accidents (totals (metadata_stats r)) = Z.of_nat (List.length cases) /\
  forallb is_dict (data r) = true.
Proof.
  unfold respond. cbv zeta.
  destruct (generate_stats cases) as [stats|] eqn:Hstats; [|discriminate].
  cbn [call and_then]. unfold case_response.
  destruct (forallb is_dict (items (paginate_result cases limit offset))) eqn:Hdicts;
    [|discriminate].
  intros H Hlimit Hoffset. injection H as <-. cbn [data pagination metadata_query metadata_stats].
  cbn [paginate_result items DataProcessor.total DataProcessor.limit DataProcessor.offset] in *.
  rewrite PaginateFacts.list_slice_window in * by assumption.
  repeat split; try assumption.
  destruct (StatsFacts.stats_loop_totals cases _ _ Hstats) as (counts & _ & Ha & _).
  cbn in Ha. exact Ha.
Qed.

Lemma window_In {A : Type} (x : A) (n m : nat) (l : list A) :
  In x (firstn n (skipn m l)) -> In x l.
Proof.
  intros Hin. rewrite <- (firstn_skipn m l). apply in_or_app. right.
  rewrite <- (firstn_skipn n (skipn m l)). apply in_or_app. left. exact Hin.
Qed.

(** X18: what a response of [get_cases] holds.  For a validated query
    (limit at least 1, offset at least 0), whenever the route responds there
    is a list of records decoded from the downloaded bytes such that: the
    data is the requested window of a reordering of that list (of the list
    itself when no sort field is given), every item of it is a dict, the
    pagination total is the length of the whole list, and the statistics are
    those of the whole list, not of the page, so that their accident count
    equals the pagination total. *)
Theorem get_cases_response (extract : bytes -> result json) (fuel : nat)
    (up : upstream) (q : Filters.CaseQuery)
    (r : CaseResponse Filters.CaseQuery) :
  get_cases extract fuel up q = Some (Responds r) ->
  1 <= Filters.limit q -> 0 <= Filters.offset q ->
  exists zip_bytes cases sorted,
    _download_zip_bytes fuel up (Filters.start_date q) (Filters.end_date q)
      (Filters.mode q) = Some (Responds zip_bytes) /\
    extract zip_bytes = Ok (JList cases) /\
    Permutation cases sorted /\
    (Filters.sort_by q = None \/ Filters.sort_by q = Some EmptyString ->
     sorted = cases) /\
    data r = firstn (Z.to_nat (Filters.limit q))
               (skipn (Z.to_nat (Filters.offset q)) sorted) /\
    forallb is_dict (data r) = true /\
    pagination r = {| total := Z.of_nat (List.length cases);
                       DataRoutes.limit := Filters.limit q;
                       DataRoutes.offset := Filters.offset q |} /\
    generate_stats sorted = Ok (metadata_stats r) /\
    accidents (totals (metadata_stats r)) = total (pagination r).
Proof.
  unfold get_cases. intros Hget Hlimit Hoffset.
  destruct (_download_zip_bytes fuel up (Filters.start_date q)
              (Filters.end_date q) (Filters.mode q))
    as [[zip_bytes | s d | e]|]; try discriminate.
  cbn [option_map and_then] in Hget. injection Hget as Hget.
  destruct (extract zip_bytes) as [[| b | n | s | cases | d | nf]|] eqn:Hextract;
    try discriminate.
  cbn [call and_then expect_list] in Hget.
  destruct (sort_if_asked cases (Filters.sort_by q) (Filters.order q))
    as [sorted | s d | e] eqn:Hsort; try discriminate.
  cbn [and_then] in Hget.
  destruct (sort_if_asked_responds _ _ _ _ Hsort) as [Hperm Hsame].
  destruct (respond_responds _ _ _ _ _ Hget Hlimit Hoffset)
    as (Hdata & Hpag & _ & Hstats & Hacc & Hdicts).
  exists zip_bytes, cases, sorted.
  rewrite Hpag. cbn [total].
  rewrite <- (Permutation_length Hperm) in Hacc |- *.
  repeat split; try assumption; try reflexivity.
Qed.

Lemma get_cases_response_witness :
  exists r,
    get_cases Samples.extract_two 3 Upstreams.fails_twice Samples.april
    = Some (Responds r) /\
    data r = [JDict [("cm_ntsbNum", JStr "A"); ("cm_fatalInjuryCount", JInt 0)]] /\
    accidents (totals (metadata_stats r)) = total (pagination r).
Proof.
  eexists. split; [vm_compute; reflexivity|].
  split; [reflexivity|].
  destruct (get_cases_response Samples.extract_two 3 Upstreams.fails_twice
              Samples.april _ eq_refl)
    as (zip_bytes & cases & sorted & _ & _ & _ & _ & _ & _ & _ & _ & Hacc).
  - cbn. lia.
  - cbn. lia.
  - exact Hacc.
Defined.

(** X19: what a response of [search_cases] holds.  For a validated query,
    whenever the route responds, its data is the requested window of a
    reordering of the records that match every filter, in particular each
    item matches every filter; the pagination total is the number of
    matching records, not of downloaded ones; and the statistics count
    exactly the matching records. *)
Theorem search_cases_response (extract : bytes -> result json) (fuel : nat)
    (up : upstream) (payload : CaseSearchRequest)
    (r : CaseResponse CaseSearchRequest) :
  search_cases extract fuel up payload = Some (Responds r) ->
  1 <= Filters.limit (query payload) -> 0 <= Filters.offset (query payload) ->
  exists zip_bytes cases sorted,
    extract zip_bytes = Ok (JList cases) /\
    Permutation (Spec.filter_spec cases (filters payload)) sorted /\
    data r = firstn (Z.to_nat (Filters.limit (query payload)))
               (skipn (Z.to_nat (Filters.offset (query payload))) sorted) /\
    Forall (fun item => Spec.retained (filters payload) item = true) (data r) /\
    total (pagination r)
    = Z.of_nat (List.length (Spec.filter_spec cases (filters payload))) /\
    accidents (totals (metadata_stats r)) = total (pagination r).
Proof.
  unfold search_cases. cbv zeta. intros Hget Hlimit Hoffset.
  destruct (_download_zip_bytes fuel up _ _ _)
    as [[zip_bytes | s d | e]|]; try discriminate.
  cbn [option_map and_then] in Hget. injection Hget as Hget.
  destruct (extract zip_bytes) as [[| b | n | s | cases | d | nf]|] eqn:Hextract;
    try discriminate.
  cbn [call and_then expect_list] in Hget.
  rewrite FilterMore.filter_cases_spec in Hget. cbn [call and_then] in Hget.
  destruct (sort_if_asked _ (Filters.sort_by (query payload))
              (Filters.order (query payload)))
    as [sorted | s d | e] eqn:Hsort; try discriminate.
  cbn [and_then] in Hget.
  destruct (sort_if_asked_responds _ _ _ _ Hsort) as [Hperm _].
  destruct (respond_responds _ _ _ _ _ Hget Hlimit Hoffset)
    as (Hdata & Hpag & _ & _ & Hacc & _).
  exists zip_bytes, cases, sorted.
  rewrite Hpag. cbn [total]. rewrite (Permutation_length Hperm).
  repeat split; try assumption; try reflexivity.
  rewrite Hdata. apply Forall_forall. intros item Hitem.
  apply window_In in Hitem.
  apply (Permutation_in _ (Permutation_sym Hperm)) in Hitem.
  unfold Spec.filter_spec in Hitem. apply filter_In in Hitem. exact (proj2 Hitem).
Qed.

Lemma search_cases_response_witness :
  exists r,
    search_cases Samples.extract_two 3 Upstreams.fails_twice Samples.april_fatal
    = Some (Responds r) /\
    total (pagination r) = 1 /\
    accidents (totals (metadata_stats r)) = total (pagination r).
Proof.
  eexists. split; [vm_compute; reflexivity|].
  split; [reflexivity|].
  destruct (search_cases_response Samples.extract_two 3 Upstreams.fails_twice
              Samples.april_fatal _ eq_refl)
    as (zip_bytes & cases & sorted & _ & _ & _ & _ & _ & Hacc).
  - cbn. lia.
  - cbn. lia.
  - exact Hacc.
Defined.

(** X20: the statistics of [/cases] are those of [/stats].  Whenever
    [get_cases] responds, [get_stats] for the same dates and mode responds
    too, against the same upstream, and with the same eight totals,
    whatever the sort field, the order, the limit and the offset of the
    query. *)
Theorem cases_and_stats_agree (extract : bytes -> result json) (fuel : nat)
    (up : upstream) (q : Filters.CaseQuery) (params : Filters.DateRangeFilter)
    (r : CaseResponse Filters.CaseQuery) :
  get_cases extract fuel up q = Some (Responds r) ->
  Filters.range_start_date params = Filters.start_date q ->
  Filters.range_end_date params = Filters.end_date q ->
  exists s,
    get_stats extract fuel up params (Filters.mode q) = Some (Responds s) /\
    totals (stats s) = totals (metadata_stats r).
Proof.
  unfold get_cases, get_stats. intros Hget -> ->.
  destruct (_download_zip_bytes fuel up (Filters.start_date q)
              (Filters.end_date q) (Filters.mode q))
    as [[zip_bytes | s d | e]|]; try discriminate.
  cbn [option_map and_then] in Hget |- *. injection Hget as Hget.
  destruct (extract zip_bytes) as [[| b | n | s | cases | d | nf]|] eqn:Hextract;
    try discriminate.
  cbn [call and_then expect_list] in Hget |- *.
  destruct (sort_if_asked cases (Filters.sort_by q) (Filters.order q))
    as [sorted | s d | e] eqn:Hsort; try discriminate.
  cbn [and_then] in Hget.
  destruct (sort_if_asked_responds _ _ _ _ Hsort) as [Hperm _].
  unfold respond in Hget. cbv zeta in Hget.
  destruct (generate_stats sorted) as [st|] eqn:Hstats; [|discriminate].
  cbn [call and_then] in Hget. unfold case_response in Hget.
  destruct (forallb is_dict _); [|discriminate].
  injection Hget as <-. cbn [metadata_stats].
  destruct (StatsMore.totals_reordered sorted cases st
              (Permutation_sym Hperm) Hstats) as (st' & Hst' & Htotals).
  rewrite Hst'. cbn [call and_then]. eexists. split; [reflexivity|].
  cbn [stats]. exact Htotals.
Qed.

Lemma cases_and_stats_agree_witness :
  exists r s,
    get_cases Samples.extract_two 3 Upstreams.fails_twice Samples.april
    = Some (Responds r) /\
    get_stats Samples.extract_two 3 Upstreams.fails_twice Samples.april_range
      "Aviation" = Some (Responds s) /\
    totals (stats s) = totals (metadata_stats r).
Proof.
  eexists.
  destruct (cases_and_stats_agree Samples.extract_two 3 Upstreams.fails_twice
              Samples.april Samples.april_range _ eq_refl eq_refl eq_refl)
    as (s & Hs & Htotals).
  exists s. split; [reflexivity | split; [exact Hs | exact Htotals]].
Defined.

End RoutesFacts.

(* ================================================================== *)
(** ** Properties of the rate limiter *)
(* ================================================================== *)

Module ServerFacts.
Import Py ServerMain.

Lemma store_set_same (s : store) (ip : string) (e : entry) :
  store_set s ip e ip = Some e.
Proof. unfold store_set. rewrite String.eqb_refl. reflexivity. Qed.

Lemma store_set_other (s : store) (ip ip' : string) (e : entry) :
  ip' <> ip -> store_set s ip e ip' = s ip'.
Proof.
  intros Hne. unfold store_set.
  apply String.eqb_neq in Hne. rewrite Hne. reflexivity.
Qed.

(** One request: the verdict, the entry of the client afterwards, and the
    entries of the other clients. *)
Lemma middleware_step (s : store) (client : option string) (now : float) :
  let e1 := entry_in_force (s (client_ip_of client)) now in
  snd (rate_limit_middleware s client now)
  = (if count e1 + 1 >? RATE_LIMIT_MAX_REQUESTS
     then refusal (reset e1) now else CallNext) /\
  fst (rate_limit_middleware s client now) (client_ip_of client)
  = Some {| reset := reset e1; count := count e1 + 1 |} /\
  forall ip, ip <> client_ip_of client ->
             fst (rate_limit_middleware s client now) ip = s ip.
Proof.
  unfold rate_limit_middleware, entry_in_force, refusal. cbv zeta.
  destruct (s (client_ip_of client)) as [e|];
    [destruct (float_le (reset e) now)|];
    cbn [reset count];
    match goal with
    | |- context [if ?c then _ else _] => destruct c
    end;
    try match goal with
        | |- context [int_of_float ?x] => destruct (int_of_float x)
        end;
    cbn [fst snd]; rewrite !store_set_same;
    (split; [reflexivity | split; [reflexivity|]]);
    intros ip Hne; rewrite ?store_set_other by exact Hne; reflexivity.
Qed.

(** The middleware reads and writes the entry of the client only. *)
Lemma middleware_local (s s' : store) (client : option string) (now : float) :
  s (client_ip_of client) = s' (client_ip_of client) ->
  snd (rate_limit_middleware s client now) = snd (rate_limit_middleware s' client now) /\
  fst (rate_limit_middleware s client now) (client_ip_of client)
  = fst (rate_limit_middleware s' client now) (client_ip_of client).
Proof.
  intros Hsame.
  destruct (middleware_step s client now) as (Hv & He & _).
  destruct (middleware_step s' client now) as (Hv' & He' & _).
  rewrite Hv, Hv', He, He', Hsame. split; reflexivity.
Qed.

Lemma middleware_other (s : store) (client : option string) (now : float)
    (ip : string) :
  ip <> client_ip_of client ->
  fst (rate_limit_middleware s client now) ip = s ip.
Proof.
  intros Hne. destruct (middleware_step s client now) as (_ & _ & Hother).
  apply Hother. exact Hne.
Qed.

Lemma serve_cons (s : store) (client : option string) (now : float)
    (rest : list (option string * float)) :
  serve s ((client, now) :: rest)
  = (fst (serve (fst (rate_limit_middleware s client now)) rest),
     snd (rate_limit_middleware s client now)
     :: snd (serve (fst (rate_limit_middleware s client now)) rest)).
Proof.
  cbn [serve].
  destruct (rate_limit_middleware s client now) as [s1 v]. cbn [fst snd].
  destruct (serve s1 rest) as [s2 vs]. reflexivity.
Qed.

(** X21: clients do not affect one another.  In any sequence of requests,
    the verdicts that a client gets are the verdicts it would get if the
    requests of all other clients were left out; requests that carry no
    client address all count as the one client "unknown". *)
Theorem rate_limit_per_client (s : store) (requests : list (option string * float))
    (ip : string) :
  verdicts_of ip requests (snd (serve s requests))
  = snd (serve s (requests_of ip requests)).
Proof.
  assert (Hgen : forall s s', s ip = s' ip ->
            verdicts_of ip requests (snd (serve s requests))
            = snd (serve s' (requests_of ip requests))).
  { clear s. induction requests as [|[client now] rest IH]; intros s s' Hsame.
    - reflexivity.
    - rewrite serve_cons. cbn [snd verdicts_of requests_of List.filter fst].
      fold (requests_of ip rest).
      destruct (String.eqb (client_ip_of client) ip) eqn:Hip.
      + apply String.eqb_eq in Hip. subst ip.
        rewrite serve_cons. cbn [snd].
        destruct (middleware_local s s' client now Hsame) as [Hv Hs].
        rewrite Hv. f_equal. apply IH. exact Hs.
      + apply String.eqb_neq in Hip.
        apply IH. rewrite middleware_other by congruence. exact Hsame. }
  apply Hgen. reflexivity.
Qed.

(** *** One window *)

Lemma serve_in_window (client : option string) (times : list float) :
  forall s r c,
    s (client_ip_of client) = Some {| reset := r; count := c |} ->
    Forall (fun t => float_le r t = false) times ->
    snd (serve s (map (pair client) times)) = window_verdicts r c times.
Proof.
  induction times as [|t times IH]; intros s r c Hentry Hall; [reflexivity|].
  inversion Hall as [|? ? Ht Hrest]; subst.
  cbn [map]. rewrite serve_cons. cbn [snd window_verdicts].
  destruct (middleware_step s client t) as (Hv & He & _).
  rewrite Hentry in Hv, He. unfold entry_in_force in Hv, He.
  cbn [reset count] in Hv, He. rewrite Ht in Hv, He. cbn [reset count] in Hv, He.
  rewrite Hv. f_equal.
  apply IH; [exact He | exact Hrest].
Qed.

Lemma window_verdicts_nth (times : list float) :
  forall r c k v,
    nth_error (window_verdicts r c times) k = Some v ->
    exists t,
      nth_error times k = Some t /\
      v = if c + Z.of_nat k + 1 >? RATE_LIMIT_MAX_REQUESTS
          then refusal r t
          else CallNext.
Proof.
  induction times as [|t times IH]; intros r c k v Hk.
  - destruct k; discriminate.
  - destruct k as [|k]; cbn [window_verdicts nth_error] in Hk.
    + injection Hk as <-. exists t. split; [reflexivity|].
      replace (c + Z.of_nat 0 + 1) with (c + 1) by lia. reflexivity.
    + destruct (IH _ _ _ _ Hk) as (t' & Ht' & ->).
      exists t'. split; [exact Ht'|].
      replace (c + 1 + Z.of_nat k + 1) with (c + Z.of_nat (S k) + 1) by lia.
      reflexivity.
Qed.

Lemma refusal_refuses (r t : float) :
  refusal r t <> CallNext /\
  forall retry_after, refusal r t = TooManyRequests retry_after -> 0 <= retry_after.
Proof.
  unfold refusal. destruct (int_of_float (float_sub r t)) as [n|e]; split;
    try discriminate.
  intros retry_after H. injection H as <-. apply Z.le_max_l.
Qed.

(** X22: sixty requests per window.  Take a client whose entry is missing
    or has expired at the clock reading [t0], so that the middleware stores
    [t0 + 60], rounded to a double, as the reset time.  Of the requests of
    that client at [t0] and then at readings for which [reset <= now] is
    false, the first sixty are passed on and none of the later ones is:
    each of those is answered as [max(0, int(reset - now))] decides, which
    is 429 with a [retry_after] of at least 0 unless [int] raises. *)
Theorem rate_limit_window (s : store) (client : option string) (t0 : float)
    (times : list float) :
  (s (client_ip_of client) = None \/
   exists e, s (client_ip_of client) = Some e /\ float_le (reset e) t0 = true) ->
  Forall (fun t =>
            float_le (float_add t0 (float_of_int RATE_LIMIT_WINDOW_SECONDS)) t
            = false)
    times ->
  forall k v,
    nth_error (snd (serve s (map (pair client) (t0 :: times)))) k = Some v ->
    ((k < 60)%nat -> v = CallNext) /\
    ((60 <= k)%nat ->
     v <> CallNext /\
     (forall retry_after, v = TooManyRequests retry_after -> 0 <= retry_after) /\
     exists t,
       nth_error (t0 :: times) k = Some t /\
       v = refusal (float_add t0 (float_of_int RATE_LIMIT_WINDOW_SECONDS)) t).
Proof.
  intros Hfresh Htimes k v Hk.
  set (r := float_add t0 (float_of_int RATE_LIMIT_WINDOW_SECONDS)) in *.
  destruct (middleware_step s client t0) as (Hv & He & _).
  assert (Hforce : entry_in_force (s (client_ip_of client)) t0
                   = {| reset := r; count := 0 |}).
  { unfold entry_in_force. cbv zeta. fold r.
    destruct Hfresh as [-> | (e & -> & Hexp)]; [reflexivity|].
    rewrite Hexp. reflexivity. }
  rewrite Hforce in Hv, He. cbn [reset count] in Hv, He.
  cbn [map] in Hk. rewrite serve_cons in Hk. cbn [snd] in Hk.
  destruct k as [|k]; cbn [nth_error] in Hk.
  - injection Hk as <-. rewrite Hv. split; [reflexivity | lia].
  - rewrite (serve_in_window client times _ r (0 + 1) He Htimes) in Hk.
    destruct (window_verdicts_nth _ _ _ _ _ Hk) as (t & Ht & ->).
    unfold RATE_LIMIT_MAX_REQUESTS.
    destruct (0 + 1 + Z.of_nat k + 1 >? 60) eqn:Hover.
    + apply Z.gtb_lt in Hover. split; [lia|]. intros _.
      destruct (refusal_refuses r t) as [Hnot Hpos].
      split; [exact Hnot | split; [exact Hpos|]].
      exists t. split; [exact Ht | reflexivity].
    + rewrite Z.gtb_ltb in Hover. apply Z.ltb_ge in Hover.
      split; [reflexivity | lia].
Qed.

Lemma rate_limit_window_witness :
  nth_error
    (snd (serve empty_store
            (map (pair (Some "10.0.0.1"))
               (float_of_int 1000 :: repeat (float_of_int 1001) 60))))
    60
  = Some (TooManyRequests 59).
Proof.
  destruct (rate_limit_window empty_store (Some "10.0.0.1") (float_of_int 1000)
              (repeat (float_of_int 1001) 60)) with (k := 60%nat)
                                                   (v := TooManyRequests 59)
    as [_ Hlate].
  - left. reflexivity.
  - apply Forall_forall. intros t Ht. apply repeat_spec in Ht. subst t.
    vm_compute. reflexivity.
  - vm_compute. reflexivity.
  - vm_compute. reflexivity.
Defined.

(** The window is judged on doubles: a first request at 4.35 stores the
    reset time 64.35, the double nearest to the sum, so that a sixty-first
    request at 64.35 finds the window over and is passed on. *)
Lemma window_ends_on_the_rounded_sum :
  float_add reading_4_35 (float_of_int RATE_LIMIT_WINDOW_SECONDS) = reading_64_35 /\
  nth_error
    (snd (serve empty_store
            (map (pair (Some "10.0.0.1"))
               (repeat reading_4_35 60 ++ [reading_64_35]))))
    60
  = Some CallNext.
Proof. split; vm_compute; reflexivity. Qed.

End ServerFacts.
